(** * Wave planner: cost estimator, wave organizer and risk predictor

    A shallow embedding of [src/lib/estimator.ts], [src/lib/organizer.ts] and
    the risk predictor module, with the properties of the planning engine
    stated and proved over it.

    Conventions of the embedding.
    - Token counts, line counts and scores are integers ([Z]); the
      multipliers of the cost model are exact rationals ([Q]), and
      [Math.round] is rounding half up to an integer.  Where the result
      of the code depends on binary64 rounding, the computation is
      carried out on the kernel's binary64 floats: the normalisation of
      the risk score, and the shared-context discount of a wave with the
      context tokens it leaves ([Estimator64]).  [Estimator] keeps the
      exact reading of the discount for the statements that hold of both
      (sums, bounds, independence of the order of the issues), and the
      overlap percentage in a wave description is rounded exactly, which
      can differ by one from the code at a half.
    - [Map] and [Set] keyed by strings are [gmap string] and [gset string].
    - Strings are [string] over bytes; [toLowerCase] acts on the ASCII
      letters and [length] counts bytes, which is what JavaScript does on
      ASCII text.
    - [Array.prototype.sort] is modelled by a stable insertion sort; for a
      comparator that is a consistent ordering this is the array every
      stable sort returns.
    - The risk predictor is written against issues whose labels are
      strings and which carry a [parentId]; [RiskPredictor] follows these
      reads, and [RiskPredictorOnInterface] gives what they yield on the
      issues of [adapters/interface].
    - A mutable array that is passed around and pushed to is threaded
      through the functions explicitly. *)

From Stdlib Require Import ZArith QArith Qround Qminmax Lia.
From Stdlib Require Import Floats.PrimFloat Floats.FloatOps Floats.SpecFloat.
From Stdlib Require Import Floats.FloatAxioms.
From Stdlib Require Import Numbers.Cyclic.Int63.Uint63.
From Stdlib Require Import Sorting.Permutation.
From Stdlib Require Import Strings.Ascii.
From stdpp Require Import gmap strings list pretty.

Set Default Proof Using "Type".
Set Warnings "-clear-no-such-hyp".
Set Warnings "-inexact-float".

(* ===================================================================== *)
(** ** JavaScript numbers and small helpers                               *)
(* ===================================================================== *)

Module JS.

(** [Math.round]: the nearest integer, ties towards plus infinity. *)
Definition round (q : Q) : Z := Qfloor (q + (1 # 2))%Q.

(** [a || d] on numbers: the default replaces a zero. *)
Definition or_default (a d : Q) : Q := if Qeq_bool a 0%Q then d else a.

(** [a / n] where [n] is a length.  The only zero divisor met in the code
    divides a sum over an empty list: [0 / 0] is [NaN], here [None]. *)
Definition div_length (a : Z) (n : nat) : option Q :=
  match n with
  | O => None
  | S _ => Some (inject_Z a / inject_Z (Z.of_nat n))%Q
  end.

(** [x >= c] where [x] may be [NaN]: every comparison with [NaN] fails. *)
Definition ge_nan (x : option Q) (c : Q) : bool :=
  match x with
  | None => false
  | Some v => Qle_bool c v
  end.

(** [[...new Set(l)]]: the elements of [l] in the order of their first
    occurrence. *)
Fixpoint dedupe_from {A} `{EqDecision A} (seen l : list A) : list A :=
  match l with
  | [] => []
  | x :: l' =>
      if bool_decide (x ∈ seen) then dedupe_from seen l'
      else x :: dedupe_from (x :: seen) l'
  end.

Definition dedupe {A} `{EqDecision A} (l : list A) : list A := dedupe_from [] l.

(** The binary64 number that a small non-negative integer is. *)
Definition number (z : Z) : float := PrimFloat.of_uint63 (Uint63.of_Z z).

(** [Math.round] on a finite binary64 number: its exact value, rounded
    half up. *)
Definition roundFloat (x : float) : Z :=
  match Prim2SF x with
  | S754_finite sign m e =>
      let v := if sign then Z.neg m else Z.pos m in
      if (0 <=? e)%Z then (v * 2 ^ e)%Z
      else ((2 * v + 2 ^ (- e)) / 2 ^ (1 - e))%Z
  | _ => 0%Z
  end.

(** The binary64 number that an integer of magnitude below 2^53 is. *)
Definition numberOfZ (z : Z) : float :=
  if (z <? 0)%Z then PrimFloat.opp (number (- z)) else number z.

(** [Math.min(x, y)] on two numbers that are not [NaN]. *)
Definition min (x y : float) : float := if PrimFloat.ltb x y then x else y.

End JS.

(* ===================================================================== *)
(** ** The issue model of [adapters/interface]                            *)
(* ===================================================================== *)

Module Interface.

Inductive Priority := P0_Critical | P1_High | P2_Medium | P3_Low.

(** The string each [Priority] value is at run time. *)
Definition priority_name (p : Priority) : string :=
  match p with
  | P0_Critical => "P0-Critical"
  | P1_High => "P1-High"
  | P2_Medium => "P2-Medium"
  | P3_Low => "P3-Low"
  end.

Record Label := {
  label_id : string;
  name : string;
  color : option string;
}.

(** The fields of [Issue] that the estimator and the organizer read.  The
    [parent] of an issue is only ever read through [parent.id], so it is
    kept as that identifier. *)
Record Issue := {
  id : string;
  identifier : string;
  title : string;
  description : string;
  priority : Priority;
  labels : list Label;
  parent : option string;
  estimate : option Z;
}.

#[global] Instance Priority_eq_dec : EqDecision Priority.
Proof. solve_decision. Defined.
#[global] Instance Label_eq_dec : EqDecision Label.
Proof. solve_decision. Defined.
#[global] Instance Issue_eq_dec : EqDecision Issue.
Proof. solve_decision. Defined.

End Interface.

(* ===================================================================== *)
(** ** Token estimator ([src/lib/estimator.ts])                           *)
(* ===================================================================== *)

Module Estimator.
Import Interface.

Inductive Complexity := low | medium | high.
Inductive Confidence := conf_low | conf_medium | conf_high.

Record FileInfo := {
  path : string;
  lines : Z;
  language : string;
  complexity : Complexity;
}.

Record TokenBreakdown := {
  codebaseContext : Z;
  implementation : Z;
  tests : Z;
  review : Z;
  documentation : Z;
}.

(** The notes pushed to [assumptions] are template literals.  Each template
    is a constructor whose arguments are the interpolated values, so two
    notes are equal exactly when the rendered strings are. *)
Inductive Assumption :=
  | note_files (direct related : nat)
      (* `${n} direct files, ${m} related files` *)
  | note_complexity (c : Complexity) (mult : Q)
      (* `Complexity: ${c} (${mult}x)` *)
  | note_priority (p : Priority) (mult : Q)
      (* `Priority: ${p} (${mult}x)` *)
  | note_tests (percent : Q)
      (* `Tests estimated at ${percent}% of implementation` *)
  | note_review (cycles : Q) (percent : Q)
      (* `${cycles} review cycles at ${percent}% overhead each` *)
  | note_shared (percent : Z).
      (* `Shared context reduction: ${percent}%` *)

Record TokenEstimate := {
  total : Z;
  breakdown : TokenBreakdown;
  confidence : Confidence;
  assumptions : list Assumption;
  filesAnalyzed : nat;
}.

Record CodebaseContext := {
  filesLikelyTouched : list FileInfo;
  relatedFiles : list FileInfo;
  totalLines : Z;
  avgComplexity : Complexity;
}.

Record Multipliers := {
  contextExpansion : Q;
  testOverhead : Q;
  reviewOverhead : Q;
  documentationShare : Q;   (* multipliers.documentation *)
}.

Record EstimationConfig := {
  multipliers : Multipliers;
  complexityWeight : Complexity -> Q;   (* config.complexity *)
  priorityWeight : Priority -> Q;       (* config.priority *)
  reviewCycles : Q;
}.

Definition DEFAULT_CONFIG : EstimationConfig := {|
  multipliers := {|
    contextExpansion := 15 # 10;
    testOverhead := 6 # 10;
    reviewOverhead := 3 # 10;
    documentationShare := 1 # 10;
  |};
  complexityWeight := fun c =>
    match c with low => 1 | medium => 15 # 10 | high => 25 # 10 end%Q;
  priorityWeight := fun p =>
    match p with
    | P0_Critical => 15 # 10
    | P1_High => 12 # 10
    | P2_Medium => 1
    | P3_Low => 8 # 10
    end%Q;
  reviewCycles := 2%Q;
|}.

#[global] Instance Q_eq_dec : EqDecision Q.
Proof. solve_decision. Defined.
#[global] Instance Complexity_eq_dec : EqDecision Complexity.
Proof. solve_decision. Defined.
#[global] Instance Assumption_eq_dec : EqDecision Assumption.
Proof. solve_decision. Defined.

Definition BASE_OVERHEAD : Z := 5000%Z.
Definition TOKENS_PER_LINE : Z := 100%Z.

(** [files.reduce((sum, f) => sum + f.lines * TOKENS_PER_LINE, 0)] *)
Definition lineTokens (files : list FileInfo) : Z :=
  fold_left (fun sum f => (sum + lines f * TOKENS_PER_LINE)%Z) files 0%Z.

(** The helpers that push to the caller's [assumptions] array return the
    array after their pushes. *)
Definition estimateContextTokens (cfg : EstimationConfig)
    (context : CodebaseContext) (assumptions : list Assumption)
  : Z * list Assumption :=
  let directTokens := lineTokens (filesLikelyTouched context) in
  let relatedTokens := lineTokens (relatedFiles context) in
  let contextTokens :=
    (directTokens +
     JS.round (inject_Z relatedTokens * contextExpansion (multipliers cfg))%Q)%Z in
  (contextTokens,
   assumptions ++ [note_files (length (filesLikelyTouched context))
                              (length (relatedFiles context))]).

Definition estimateImplementationTokens (cfg : EstimationConfig)
    (issue : Issue) (context : CodebaseContext) (assumptions : list Assumption)
  : Z * list Assumption :=
  let baseTokens := (totalLines context * 2 * TOKENS_PER_LINE)%Z in
  let complexityMult := complexityWeight cfg (avgComplexity context) in
  let assumptions :=
    assumptions ++ [note_complexity (avgComplexity context) complexityMult] in
  let priorityMult := JS.or_default (priorityWeight cfg (priority issue)) 1%Q in
  let assumptions :=
    assumptions ++ [note_priority (priority issue) priorityMult] in
  (JS.round (inject_Z baseTokens * complexityMult * priorityMult)%Q, assumptions).

(** [if (issue.estimate)]: present and not zero. *)
Definition truthy_number (e : option Z) : bool :=
  match e with
  | Some v => negb (v =? 0)%Z
  | None => false
  end.

Definition calculateConfidence (issue : Issue) (context : CodebaseContext)
  : Confidence :=
  let score := 0%nat in
  let score :=
    if (3 <=? length (filesLikelyTouched context))%nat then (score + 2)%nat
    else if (1 <=? length (filesLikelyTouched context))%nat then (score + 1)%nat
    else score in
  let score :=
    if (200 <? String.length (description issue))%nat then (score + 2)%nat
    else if (50 <? String.length (description issue))%nat then (score + 1)%nat
    else score in
  let score :=
    if (2 <=? length (labels issue))%nat then (score + 1)%nat else score in
  let score :=
    if truthy_number (Interface.estimate issue) then (score + 1)%nat else score in
  if (5 <=? score)%nat then conf_high
  else if (3 <=? score)%nat then conf_medium
  else conf_low.

(** [estimate(issue, context)] *)
Definition estimate (cfg : EstimationConfig) (issue : Issue)
    (context : CodebaseContext) : TokenEstimate :=
  let assumptions := [] in
  let '(contextTokens, assumptions) :=
    estimateContextTokens cfg context assumptions in
  let '(implTokens, assumptions) :=
    estimateImplementationTokens cfg issue context assumptions in
  let testTokens :=
    JS.round (inject_Z implTokens * testOverhead (multipliers cfg))%Q in
  let assumptions :=
    assumptions ++ [note_tests (testOverhead (multipliers cfg) * 100)%Q] in
  let reviewTokens :=
    JS.round (inject_Z (implTokens + testTokens)
              * reviewOverhead (multipliers cfg) * reviewCycles cfg)%Q in
  let assumptions :=
    assumptions ++
    [note_review (reviewCycles cfg) (reviewOverhead (multipliers cfg) * 100)%Q] in
  let docTokens :=
    JS.round (inject_Z implTokens * documentationShare (multipliers cfg))%Q in
  let total :=
    (BASE_OVERHEAD + contextTokens + implTokens + testTokens + reviewTokens
     + docTokens)%Z in
  {| total := total;
     breakdown := {|
       codebaseContext := contextTokens;
       implementation := implTokens;
       tests := testTokens;
       review := reviewTokens;
       documentation := docTokens;
     |};
     confidence := calculateConfidence issue context;
     assumptions := assumptions;
     filesAnalyzed :=
       (length (filesLikelyTouched context) + length (relatedFiles context))%nat;
  |}.

Definition createEmptyContext : CodebaseContext := {|
  filesLikelyTouched := [];
  relatedFiles := [];
  totalLines := 50%Z;
  avgComplexity := medium;
|}.

Definition aggregateConfidence (estimates : list TokenEstimate) : Confidence :=
  let scores :=
    map (fun e => match confidence e with
                  | conf_high => 3%Z
                  | conf_medium => 2%Z
                  | conf_low => 1%Z
                  end) estimates in
  let avg := JS.div_length (fold_left Z.add scores 0%Z) (length scores) in
  if JS.ge_nan avg (25 # 10)%Q then conf_high
  else if JS.ge_nan avg (15 # 10)%Q then conf_medium
  else conf_low.

(** The paths [[...ctx.filesLikelyTouched.map(f => f.path),
    ...ctx.relatedFiles.map(f => f.path)]]. *)
Definition contextPaths (ctx : CodebaseContext) : list string :=
  map path (filesLikelyTouched ctx) ++ map path (relatedFiles ctx).

(** The inner loop of [calculateSharedContextReduction] over one issue's
    files, on the pair [(allFiles, sharedFiles)]. *)
Definition scanFiles (files : list string) (st : gset string * gset string)
  : gset string * gset string :=
  fold_left
    (fun '(allFiles, sharedFiles) file =>
       let sharedFiles :=
         if bool_decide (file ∈ allFiles) then {[file]} ∪ sharedFiles
         else sharedFiles in
       ({[file]} ∪ allFiles, sharedFiles))
    files st.

(** The outer loop: issues without a context are skipped. *)
Definition scanIssues (issues : list Issue)
    (contexts : gmap string CodebaseContext) : gset string * gset string :=
  fold_left
    (fun st issue =>
       match contexts !! id issue with
       | None => st
       | Some ctx => scanFiles (contextPaths ctx) st
       end)
    issues (∅, ∅).

(** [calculateSharedContextReduction(issues, contexts)], the quotient and
    the product read exactly; [Estimator64] has them in binary64. *)
Definition calculateSharedContextReduction (issues : list Issue)
    (contexts : gmap string CodebaseContext) : Q :=
  if (length issues <? 2)%nat then 0%Q
  else
    let '(allFiles, sharedFiles) := scanIssues issues contexts in
    if (size allFiles =? 0)%nat then 0%Q
    else
      let overlapRatio :=
        (inject_Z (Z.of_nat (size sharedFiles))
         / inject_Z (Z.of_nat (size allFiles)))%Q in
      Qmin (overlapRatio * (7 # 10))%Q (5 # 10)%Q.

Definition zeroBreakdown : TokenBreakdown := {|
  codebaseContext := 0%Z; implementation := 0%Z; tests := 0%Z; review := 0%Z;
  documentation := 0%Z;
|}.

(** One turn of [for (const est of estimates)]. *)
Definition accumulate (acc : TokenBreakdown * list Assumption)
    (est : TokenEstimate) : TokenBreakdown * list Assumption :=
  let '(totalBreakdown, allAssumptions) := acc in
  ({| codebaseContext :=
        codebaseContext totalBreakdown + codebaseContext (breakdown est);
      implementation :=
        implementation totalBreakdown + implementation (breakdown est);
      tests := tests totalBreakdown + tests (breakdown est);
      review := review totalBreakdown + review (breakdown est);
      documentation :=
        documentation totalBreakdown + documentation (breakdown est);
   |}%Z,
   allAssumptions ++ assumptions est).

(** [Object.values(totalBreakdown)], in the order of the object's keys. *)
Definition breakdownValues (b : TokenBreakdown) : list Z :=
  [codebaseContext b; implementation b; tests b; review b; documentation b].

(** [estimateWave(issues, contexts)], with the exact discount: the value
    of the discounted context component and the percentage of the note
    can differ by one from the code where the product falls next to a
    half; [Estimator64.estimateWave] is the code's value. *)
Definition estimateWave (cfg : EstimationConfig) (issues : list Issue)
    (contexts : gmap string CodebaseContext) : TokenEstimate :=
  let estimates :=
    map (fun issue =>
           let context := default createEmptyContext (contexts !! id issue) in
           estimate cfg issue context) issues in
  let sharedContextReduction :=
    calculateSharedContextReduction issues contexts in
  let '(totalBreakdown, allAssumptions) :=
    fold_left accumulate estimates (zeroBreakdown, []) in
  let totalBreakdown := {|
    codebaseContext :=
      JS.round (inject_Z (codebaseContext totalBreakdown)
                * (1 - sharedContextReduction))%Q;
    implementation := implementation totalBreakdown;
    tests := tests totalBreakdown;
    review := review totalBreakdown;
    documentation := documentation totalBreakdown;
  |} in
  let allAssumptions :=
    if negb (Qle_bool sharedContextReduction 0%Q)
    then allAssumptions ++ [note_shared (JS.round (sharedContextReduction * 100)%Q)]
    else allAssumptions in
  let total := fold_left Z.add (breakdownValues totalBreakdown) 0%Z in
  {| total := total;
     breakdown := totalBreakdown;
     confidence := aggregateConfidence estimates;
     assumptions := JS.dedupe allAssumptions;
     filesAnalyzed :=
       fold_left (fun sum e => (sum + filesAnalyzed e)%nat) estimates 0%nat;
  |}.

End Estimator.

(* ===================================================================== *)
(** ** The wave aggregate in binary64                                     *)
(* ===================================================================== *)

(** The discount of [estimateWave] is a quotient of two set sizes times
    0.7, and the discounted context tokens are a product with one minus
    the discount: neither is a whole number, and which way [Math.round]
    goes can depend on the last bit.  This module carries out these steps
    of [calculateSharedContextReduction] and [estimateWave] on binary64
    numbers, as JavaScript does; the operations on whole numbers below
    2^53 are exact in binary64 and stay on [Z]. *)
Module Estimator64.
Import Interface Estimator.

Definition calculateSharedContextReduction (issues : list Issue)
    (contexts : gmap string CodebaseContext) : float :=
  if (length issues <? 2)%nat then 0%float
  else
    let '(allFiles, sharedFiles) := scanIssues issues contexts in
    if (size allFiles =? 0)%nat then 0%float
    else
      let overlapRatio :=
        PrimFloat.div (JS.numberOfZ (Z.of_nat (size sharedFiles)))
                      (JS.numberOfZ (Z.of_nat (size allFiles))) in
      JS.min (PrimFloat.mul overlapRatio 0.7%float) 0.5%float.

(** [Math.round(codebaseContext * (1 - sharedContextReduction))] *)
Definition reduceContext (codebaseContext : Z) (sharedContextReduction : float)
  : Z :=
  JS.roundFloat
    (PrimFloat.mul (JS.numberOfZ codebaseContext)
                   (PrimFloat.sub 1%float sharedContextReduction)).

(** [estimateWave(issues, contexts)] *)
Definition estimateWave (cfg : EstimationConfig) (issues : list Issue)
    (contexts : gmap string CodebaseContext) : TokenEstimate :=
  let estimates :=
    map (fun issue =>
           let context := default createEmptyContext (contexts !! id issue) in
           estimate cfg issue context) issues in
  let sharedContextReduction :=
    calculateSharedContextReduction issues contexts in
  let '(totalBreakdown, allAssumptions) :=
    fold_left accumulate estimates (zeroBreakdown, []) in
  let totalBreakdown := {|
    codebaseContext :=
      reduceContext (codebaseContext totalBreakdown) sharedContextReduction;
    implementation := implementation totalBreakdown;
    tests := tests totalBreakdown;
    review := review totalBreakdown;
    documentation := documentation totalBreakdown;
  |} in
  let allAssumptions :=
    if PrimFloat.ltb 0%float sharedContextReduction
    then allAssumptions
         ++ [note_shared
               (JS.roundFloat
                  (PrimFloat.mul sharedContextReduction 100%float))]
    else allAssumptions in
  let total := fold_left Z.add (breakdownValues totalBreakdown) 0%Z in
  {| total := total;
     breakdown := totalBreakdown;
     confidence := aggregateConfidence estimates;
     assumptions := JS.dedupe allAssumptions;
     filesAnalyzed :=
       fold_left (fun sum e => (sum + filesAnalyzed e)%nat) estimates 0%nat;
  |}.

End Estimator64.

(* ===================================================================== *)
(** ** Strings and regular expressions                                    *)
(* ===================================================================== *)

Module Text.

Definition lower_ascii (c : ascii) : ascii :=
  let n := nat_of_ascii c in
  if (65 <=? n)%nat && (n <=? 90)%nat then ascii_of_nat (n + 32) else c.

Definition upper_ascii (c : ascii) : ascii :=
  let n := nat_of_ascii c in
  if (97 <=? n)%nat && (n <=? 122)%nat then ascii_of_nat (n - 32) else c.

(** [s.toLowerCase()] on ASCII text *)
Fixpoint toLowerCase (s : string) : string :=
  match s with
  | EmptyString => EmptyString
  | String c s' => String (lower_ascii c) (toLowerCase s')
  end.

(** [s.includes(sub)] *)
Fixpoint includes (s sub : string) : bool :=
  String.prefix sub s ||
  match s with
  | EmptyString => false
  | String _ s' => includes s' sub
  end.

(** [s.startsWith(p)] *)
Definition startsWith (s p : string) : bool := String.prefix p s.

(** [l.join(sep)] *)
Definition join (sep : string) (l : list string) : string := String.concat sep l.

(** [s.slice(n)] *)
Fixpoint slice (n : nat) (s : string) : string :=
  match n, s with
  | O, _ => s
  | S n', String _ s' => slice n' s'
  | S _, EmptyString => EmptyString
  end.

(** [str.charAt(0).toUpperCase() + str.slice(1)] *)
Definition capitalize (str : string) : string :=
  match str with
  | EmptyString => EmptyString
  | String c s' => String (upper_ascii c) s'
  end.

End Text.

Module Regex.

(** The regular expressions of the pattern tables: literals, character
    classes, sequence, alternation and repetition. *)
Inductive re :=
  | Void
  | Eps
  | Chr (c : ascii)
  | Class (p : ascii -> bool)
  | Seq (r1 r2 : re)
  | Alt (r1 r2 : re)
  | Star (r : re).

Fixpoint nullable (r : re) : bool :=
  match r with
  | Void | Chr _ | Class _ => false
  | Eps | Star _ => true
  | Seq r1 r2 => nullable r1 && nullable r2
  | Alt r1 r2 => nullable r1 || nullable r2
  end.

Definition seq (r1 r2 : re) : re :=
  match r1, r2 with
  | Void, _ | _, Void => Void
  | Eps, _ => r2
  | _, _ => Seq r1 r2
  end.

Definition alt (r1 r2 : re) : re :=
  match r1, r2 with
  | Void, _ => r2
  | _, Void => r1
  | _, _ => Alt r1 r2
  end.

(** Brzozowski derivative: what is left of [r] after reading [c]. *)
Fixpoint deriv (c : ascii) (r : re) : re :=
  match r with
  | Void | Eps => Void
  | Chr d => if Ascii.eqb c d then Eps else Void
  | Class p => if p c then Eps else Void
  | Seq r1 r2 =>
      if nullable r1 then alt (seq (deriv c r1) r2) (deriv c r2)
      else seq (deriv c r1) r2
  | Alt r1 r2 => alt (deriv c r1) (deriv c r2)
  | Star r1 => seq (deriv c r1) (Star r1)
  end.

(** Some prefix of [s] matches [r]. *)
Fixpoint matchesPrefix (r : re) (s : string) : bool :=
  nullable r ||
  match s with
  | EmptyString => false
  | String c s' => matchesPrefix (deriv c r) s'
  end.

(** The whole of [s] matches [r]. *)
Fixpoint matchesAll (r : re) (s : string) : bool :=
  match s with
  | EmptyString => nullable r
  | String c s' => matchesAll (deriv c r) s'
  end.

(** [/r/.test(s)]: a match starting anywhere. *)
Fixpoint test (r : re) (s : string) : bool :=
  matchesPrefix r s ||
  match s with
  | EmptyString => false
  | String _ s' => test r s'
  end.

(** [/r$/.test(s)]: a match that ends at the end of [s]. *)
Fixpoint testAtEnd (r : re) (s : string) : bool :=
  matchesAll r s ||
  match s with
  | EmptyString => false
  | String _ s' => testAtEnd r s'
  end.

(** [/r/i.test(s)] for a pattern whose letters are written in lower case,
    as all patterns of the tables are. *)
Definition test_i (r : re) (s : string) : bool := test r (Text.toLowerCase s).

(** Pattern syntax. *)
Fixpoint lit (s : string) : re :=
  match s with
  | EmptyString => Eps
  | String c s' => Seq (Chr c) (lit s')
  end.

Fixpoint alts (l : list re) : re :=
  match l with
  | [] => Void
  | [r] => r
  | r :: l' => Alt r (alts l')
  end.

Definition lits (l : list string) : re := alts (map lit l).

Definition opt (r : re) : re := Alt r Eps.
Definition plus (r : re) : re := Seq r (Star r).

(** [\s] on ASCII: tab, line feed, vertical tab, form feed, carriage
    return and space. *)
Definition space : re :=
  Class (fun c => let n := nat_of_ascii c in
                  ((9 <=? n)%nat && (n <=? 13)%nat) || (n =? 32)%nat).

(** [\w]: letters, digits and underscore. *)
Definition word : re :=
  Class (fun c => let n := nat_of_ascii c in
                  ((48 <=? n)%nat && (n <=? 57)%nat)
                  || ((65 <=? n)%nat && (n <=? 90)%nat)
                  || ((97 <=? n)%nat && (n <=? 122)%nat)
                  || (n =? 95)%nat).

(** [.]: any character but a line terminator. *)
Definition dot : re :=
  Class (fun c => let n := nat_of_ascii c in
                  negb ((n =? 10)%nat || (n =? 13)%nat)).

Fixpoint seqs (l : list re) : re :=
  match l with
  | [] => Eps
  | [r] => r
  | r :: l' => Seq r (seqs l')
  end.

End Regex.

(* ===================================================================== *)
(** ** Wave organizer ([src/lib/organizer.ts])                            *)
(* ===================================================================== *)

Module Organizer.
Import Interface Estimator.

Inductive AgentType :=
  | security_specialist
  | backend_developer
  | frontend_developer
  | test_engineer
  | devops_engineer
  | documentation_writer
  | researcher
  | general_purpose.

Record AgentAssignment := {
  issueId : string;
  issueIdentifier : string;
  agentType : AgentType;
  rationale : string;
}.

(** [Omit<Wave, 'agents'>], as [groupsToWaves] builds it. *)
Record WaveBody := {
  number : nat;
  waveName : string;          (* name *)
  waveDescription : string;   (* description *)
  issues : list Issue;
  tokenEstimate : TokenEstimate;
  dependencies : list nat;
  parallelizable : bool;
}.

(** [{ ...wave, agents }] *)
Record Wave := {
  body : WaveBody;
  agents : list AgentAssignment;
}.

Record WaveGroup := {
  groupIssues : list Issue;   (* issues *)
  sharedFiles : gset string;
  similarity : Q;
}.

Record OrganizerConfig := {
  similarityThreshold : Q;
  maxIssuesPerWave : Z;
  tokenBudgetPerWave : Z;
  respectDependencies : bool;
}.

Definition DEFAULT_ORGANIZER_CONFIG : OrganizerConfig := {|
  similarityThreshold := 3 # 10;
  maxIssuesPerWave := 5;
  tokenBudgetPerWave := 150000;
  respectDependencies := true;
|}.

(** [Array.prototype.sort(compare)] is stable.  For a comparator that is a
    consistent ordering every stable sort returns the same array; the
    model inserts from the right, each element going before the first one
    that does not compare strictly smaller.  The comparator of
    [orderByDependencies] is not a consistent ordering when dependencies
    chain over three groups or more (it is 0 on groups that depend on one
    another only through a third); the array the engine returns then
    depends on its sorting algorithm and can differ from the model's, so
    that nothing is stated about the order of such groups. *)
Fixpoint insertStable {A} (compare : A -> A -> Z) (x : A) (l : list A)
  : list A :=
  match l with
  | [] => [x]
  | y :: l' =>
      if (0 <? compare x y)%Z then y :: insertStable compare x l'
      else x :: y :: l'
  end.

Fixpoint sort {A} (compare : A -> A -> Z) (l : list A) : list A :=
  match l with
  | [] => []
  | x :: l' => insertStable compare x (sort compare l')
  end.

(** *** Step 1: overlap matrix *)

Definition getFilesForIssue (issue : Issue)
    (contexts : gmap string CodebaseContext) : gset string :=
  match contexts !! id issue with
  | None => ∅
  | Some ctx => list_to_set (contextPaths ctx)
  end.

Definition jaccardSimilarity (setA setB : gset string) : Q :=
  if (size setA =? 0)%nat && (size setB =? 0)%nat then 0%Q
  else
    let intersection : gset string := filter (fun x => x ∈ setB) setA in
    let union := setA ∪ setB in
    (inject_Z (Z.of_nat (size intersection))
     / inject_Z (Z.of_nat (size union)))%Q.

(** The row of [issueA]: the inner loop over [issueB]. *)
Definition overlapRow (issues : list Issue)
    (contexts : gmap string CodebaseContext) (issueA : Issue)
  : gmap string Q :=
  let filesA := getFilesForIssue issueA contexts in
  fold_left
    (fun rowMap issueB =>
       if bool_decide (id issueA = id issueB)
       then <[id issueB := 1%Q]> rowMap
       else
         let filesB := getFilesForIssue issueB contexts in
         let similarity := jaccardSimilarity filesA filesB in
         <[id issueB := similarity]> rowMap)
    issues ∅.

Definition calculateOverlapMatrix (issues : list Issue)
    (contexts : gmap string CodebaseContext) : gmap string (gmap string Q) :=
  fold_left
    (fun matrix issueA =>
       <[id issueA := overlapRow issues contexts issueA]> matrix)
    issues ∅.

(** [overlapMatrix.get(a)?.get(b) || 0] *)
Definition matrixGet (overlapMatrix : gmap string (gmap string Q))
    (a b : string) : Q :=
  match overlapMatrix !! a with
  | Some row => default 0%Q (row !! b)
  | None => 0%Q
  end.

(** *** Step 2: grouping by shared context *)

Definition priorityOrder (p : Priority) : Z :=
  match p with
  | P0_Critical => 0
  | P1_High => 1
  | P2_Medium => 2
  | P3_Low => 3
  end.

Definition findSharedFiles (issues : list Issue)
    (overlapMatrix : gmap string (gmap string Q)) : gset string := ∅.

(** The similarities of the pairs [(i, j)], [i < j], in loop order. *)
Fixpoint pairSimilarities (overlapMatrix : gmap string (gmap string Q))
    (issues : list Issue) : list Q :=
  match issues with
  | [] => []
  | x :: rest =>
      map (fun y => matrixGet overlapMatrix (id x) (id y)) rest
      ++ pairSimilarities overlapMatrix rest
  end.

Definition calculateAvgSimilarity (issues : list Issue)
    (overlapMatrix : gmap string (gmap string Q)) : Q :=
  if (length issues <? 2)%nat then 1%Q
  else
    let sims := pairSimilarities overlapMatrix issues in
    let total := fold_left Qplus sims 0%Q in
    let count := length sims in
    if (0 <? count)%nat then (total / inject_Z (Z.of_nat count))%Q else 0%Q.

(** The filter that collects the group of the seed [issue]. *)
Definition isSimilar (cfg : OrganizerConfig)
    (overlapMatrix : gmap string (gmap string Q)) (assigned : gset string)
    (issue other : Issue) : bool :=
  if bool_decide (id other ∈ assigned) then false
  else if bool_decide (id other = id issue) then true
  else
    let similarity := matrixGet overlapMatrix (id issue) (id other) in
    Qle_bool (similarityThreshold cfg) similarity.

(** One turn of [for (const issue of sortedIssues)] on [(groups, assigned)]. *)
Definition groupStep (cfg : OrganizerConfig)
    (overlapMatrix : gmap string (gmap string Q)) (sortedIssues : list Issue)
    (st : list WaveGroup * gset string) (issue : Issue)
  : list WaveGroup * gset string :=
  let '(groups, assigned) := st in
  if bool_decide (id issue ∈ assigned) then (groups, assigned)
  else
    let similar :=
      List.filter (isSimilar cfg overlapMatrix assigned issue) sortedIssues in
    let group := {|
      groupIssues := similar;
      sharedFiles := findSharedFiles similar overlapMatrix;
      similarity := calculateAvgSimilarity similar overlapMatrix;
    |} in
    (groups ++ [group],
     fold_left (fun assigned s => {[id s]} ∪ assigned) similar assigned).

Definition groupByContext (cfg : OrganizerConfig) (issues : list Issue)
    (overlapMatrix : gmap string (gmap string Q)) : list WaveGroup :=
  let sortedIssues :=
    sort (fun a b => (priorityOrder (priority a) - priorityOrder (priority b))%Z)
         issues in
  fst (fold_left (groupStep cfg overlapMatrix sortedIssues) sortedIssues ([], ∅)).

(** *** Step 3: ordering by dependencies *)

Definition buildDependencyMap (issues : list Issue) : gmap string (gset string) :=
  fold_left
    (fun dependencyMap issue =>
       match parent issue with
       | Some parentId =>
           <[id issue := {[parentId]} ∪ default ∅ (dependencyMap !! id issue)]>
             dependencyMap
       | None => dependencyMap
       end)
    issues ∅.

(** [a.issues.some(x => b.issues.some(y => dependencyMap.get(x.id)?.has(y.id)))] *)
Definition groupDependsOn (dependencyMap : gmap string (gset string))
    (a b : WaveGroup) : bool :=
  existsb
    (fun issueA =>
       existsb
         (fun issueB =>
            match dependencyMap !! id issueA with
            | Some deps => bool_decide (id issueB ∈ deps)
            | None => false
            end)
         (groupIssues b))
    (groupIssues a).

Definition compareGroups (dependencyMap : gmap string (gset string))
    (a b : WaveGroup) : Z :=
  let aDependsOnB := groupDependsOn dependencyMap a b in
  let bDependsOnA := groupDependsOn dependencyMap b a in
  if aDependsOnB && negb bDependsOnA then 1%Z
  else if bDependsOnA && negb aDependsOnB then (-1)%Z
  else 0%Z.

Definition orderByDependencies (groups : list WaveGroup) (issues : list Issue)
  : list WaveGroup :=
  let dependencyMap := buildDependencyMap issues in
  sort (compareGroups dependencyMap) groups.

(** *** Step 4: groups to waves *)

(** One turn of the splitting loop on
    [(subGroups, currentIssues, currentTokens)]. *)
Definition splitStep (cfg : OrganizerConfig) (ecfg : EstimationConfig)
    (contexts : gmap string CodebaseContext) (group : WaveGroup)
    (st : list WaveGroup * list Issue * Z) (issue : Issue)
  : list WaveGroup * list Issue * Z :=
  let '(subGroups, currentIssues, currentTokens) := st in
  let ctx := default createEmptyContext (contexts !! id issue) in
  let issueEstimate := estimate ecfg issue ctx in
  let '(subGroups, currentIssues, currentTokens) :=
    if (maxIssuesPerWave cfg <=? Z.of_nat (length currentIssues))%Z
       || ((tokenBudgetPerWave cfg <? currentTokens + total issueEstimate)%Z
           && (0 <? length currentIssues)%nat)
    then
      (subGroups ++ [{| groupIssues := currentIssues;
                        sharedFiles := ∅;
                        similarity := similarity group |}],
       [], 0%Z)
    else (subGroups, currentIssues, currentTokens) in
  (subGroups, currentIssues ++ [issue],
   (currentTokens + total issueEstimate)%Z).

Definition splitGroupIfNeeded (cfg : OrganizerConfig) (ecfg : EstimationConfig)
    (group : WaveGroup) (contexts : gmap string CodebaseContext)
  : list WaveGroup :=
  if (Z.of_nat (length (groupIssues group)) <=? maxIssuesPerWave cfg)%Z
     && (total (estimateWave ecfg (groupIssues group) contexts)
         <=? tokenBudgetPerWave cfg)%Z
  then [group]
  else
    let '(subGroups, currentIssues, _) :=
      fold_left (splitStep cfg ecfg contexts group) (groupIssues group)
                ([], [], 0%Z) in
    if (0 <? length currentIssues)%nat
    then subGroups ++ [{| groupIssues := currentIssues;
                          sharedFiles := ∅;
                          similarity := similarity group |}]
    else subGroups.

(** [labelCounts]: a [Map] keeps its keys in insertion order. *)
Fixpoint countLabel (label : string) (labelCounts : list (string * nat))
  : list (string * nat) :=
  match labelCounts with
  | [] => [(label, 1%nat)]
  | (l, n) :: rest =>
      if String.eqb l label then (l, S n) :: rest
      else (l, n) :: countLabel label rest
  end.

Definition generateWaveName (issues : list Issue) (waveNumber : nat) : string :=
  let labelCounts :=
    fold_left
      (fun counts issue =>
         fold_left (fun counts label => countLabel (name label) counts)
                   (labels issue) counts)
      issues [] in
  let '(topLabel, topCount) :=
    fold_left
      (fun '(topLabel, topCount) '(label, count) =>
         if (topCount <? count)%nat then (label, count)
         else (topLabel, topCount))
      labelCounts (EmptyString, 0%nat) in
  if negb (String.eqb topLabel EmptyString)
     && (length issues <=? 2 * topCount)%nat
  then Text.capitalize topLabel
  else
    let defaultNames :=
      ["Foundation"; "Core Features"; "Integration"; "Enhancement"; "Polish";
       "Finalization"]%string in
    default ("Wave " +:+ pretty waveNumber) (defaultNames !! (waveNumber - 1)%nat).

(** [generateWaveDescription(group)]; the percentage is rounded exactly. *)
Definition generateWaveDescription (group : WaveGroup) : string :=
  let issueIds := Text.join ", " (map identifier (groupIssues group)) in
  let similarity := JS.round (similarity group * 100)%Q in
  "Issues: " +:+ issueIds +:+ " (" +:+ pretty similarity
  +:+ "% context overlap)".

(** [dependencies.add(n)] on a set kept in insertion order. *)
Definition addNumber (n : nat) (s : list nat) : list nat :=
  if bool_decide (n ∈ s) then s else s ++ [n].

Definition findWaveDependencies (issues : list Issue)
    (existingWaves : list WaveBody) : list nat :=
  let dependencies :=
    fold_left
      (fun deps issue =>
         match parent issue with
         | Some parentId =>
             fold_left
               (fun deps wave =>
                  if existsb (fun i => bool_decide (id i = parentId))
                             (Organizer.issues wave)
                  then addNumber (number wave) deps
                  else deps)
               existingWaves deps
         | None => deps
         end)
      issues [] in
  sort (fun a b => (Z.of_nat a - Z.of_nat b)%Z) dependencies.

Definition isParallelizable (issues : list Issue) : bool :=
  let ids : gset string := list_to_set (map id issues) in
  negb (existsb
          (fun issue =>
             match parent issue with
             | Some parentId => bool_decide (parentId ∈ ids)
             | None => false
             end)
          issues).

(** One turn of the inner loop of [groupsToWaves] on [(waves, waveNumber)]. *)
Definition waveStep (ecfg : EstimationConfig)
    (contexts : gmap string CodebaseContext)
    (st : list WaveBody * nat) (subGroup : WaveGroup) : list WaveBody * nat :=
  let '(waves, waveNumber) := st in
  let tokenEstimate := estimateWave ecfg (groupIssues subGroup) contexts in
  (waves ++ [{|
     number := waveNumber;
     waveName := generateWaveName (groupIssues subGroup) waveNumber;
     waveDescription := generateWaveDescription subGroup;
     issues := groupIssues subGroup;
     tokenEstimate := tokenEstimate;
     dependencies := findWaveDependencies (groupIssues subGroup) waves;
     parallelizable := isParallelizable (groupIssues subGroup);
   |}],
   S waveNumber).

Definition groupsToWaves (cfg : OrganizerConfig) (ecfg : EstimationConfig)
    (groups : list WaveGroup) (contexts : gmap string CodebaseContext)
  : list WaveBody :=
  fst (fold_left
         (fun st group =>
            let subGroups := splitGroupIfNeeded cfg ecfg group contexts in
            fold_left (waveStep ecfg contexts) subGroups st)
         groups ([], 1%nat)).

(** *** Step 5: agent assignment *)

(** [labels.some(l => names.includes(l))] *)
Definition someLabelIn (names labels : list string) : bool :=
  existsb (fun l => bool_decide (l ∈ names)) labels.

Definition securitySignals (labels : list string) (text : string) : bool :=
  someLabelIn ["security"; "auth"; "authentication"; "vulnerability"]%string labels
  || Regex.test_i
       (Regex.lits ["security"; "auth"; "encrypt"; "credential"; "permission";
                    "access control"; "xss"; "sql injection"; "csrf"]%string)
       text.

Definition frontendSignals (labels : list string) (text : string) : bool :=
  someLabelIn ["frontend"; "ui"; "ux"; "component"; "react"; "vue"; "css"]%string
              labels
  || Regex.test_i
       (Regex.lits ["component"; "ui"; "ux"; "react"; "vue"; "angular"; "css";
                    "style"; "layout"; "responsive"; "accessibility"]%string)
       text.

Definition backendSignals (labels : list string) (text : string) : bool :=
  someLabelIn ["backend"; "api"; "database"; "server"]%string labels
  || Regex.test_i
       (Regex.lits ["api"; "endpoint"; "database"; "query"; "migration";
                    "server"; "graphql"; "rest"]%string)
       text.

Definition devopsSignals (labels : list string) (text : string) : bool :=
  someLabelIn ["devops"; "ci"; "cd"; "infrastructure"; "deployment"]%string labels
  || Regex.test_i
       (Regex.lits ["ci/cd"; "pipeline"; "deploy"; "docker"; "kubernetes";
                    "terraform"; "aws"; "gcp"; "azure"]%string)
       text.

Definition testSignals (labels : list string) (text : string) : bool :=
  someLabelIn ["testing"; "test"; "qa"; "e2e"]%string labels
  || Regex.test_i
       (Regex.lits ["test"; "coverage"; "e2e"; "integration test"; "unit test";
                    "assertion"]%string)
       text.

Definition documentationSignals (labels : list string) (text : string) : bool :=
  someLabelIn ["documentation"; "docs"; "readme"]%string labels
  || Regex.test_i
       (Regex.lits ["documentation"; "readme"; "guide"; "tutorial";
                    "api doc"]%string)
       text.

Definition researchSignals (labels : list string) (text : string) : bool :=
  someLabelIn ["spike"; "research"; "investigation"; "exploration"]%string labels
  || Regex.test_i
       (Regex.lits ["research"; "investigate"; "explore"; "prototype"; "poc";
                    "proof of concept"]%string)
       text.

(** [`${issue.title} ${issue.description}`.toLowerCase()] *)
Definition issueText (issue : Issue) : string :=
  Text.toLowerCase (title issue +:+ " " +:+ description issue).

(** [issue.labels.map(l => l.name.toLowerCase())] *)
Definition issueLabels (issue : Issue) : list string :=
  map (fun l => Text.toLowerCase (name l)) (labels issue).

Definition inferAgentType (issue : Issue) : AgentType :=
  let text := issueText issue in
  let labels := issueLabels issue in
  if securitySignals labels text then security_specialist
  else if frontendSignals labels text then frontend_developer
  else if backendSignals labels text then backend_developer
  else if devopsSignals labels text then devops_engineer
  else if testSignals labels text then test_engineer
  else if documentationSignals labels text then documentation_writer
  else if researchSignals labels text then researcher
  else general_purpose.

Definition generateAgentRationale (issue : Issue) (agentType : AgentType)
  : string :=
  match agentType with
  | security_specialist => "Issue involves security-sensitive operations"
  | backend_developer => "Issue focuses on API/database/server-side work"
  | frontend_developer => "Issue involves UI components or user experience"
  | test_engineer => "Issue is primarily about testing coverage"
  | devops_engineer => "Issue involves CI/CD or infrastructure"
  | documentation_writer => "Issue focuses on documentation updates"
  | researcher => "Issue requires investigation or prototyping"
  | general_purpose => "Issue spans multiple domains"
  end.

Definition assignAgents (issues : list Issue) : list AgentAssignment :=
  map (fun issue =>
         let agentType := inferAgentType issue in
         {| issueId := id issue;
            issueIdentifier := identifier issue;
            agentType := agentType;
            rationale := generateAgentRationale issue agentType |})
      issues.

(** [organize(issues, contexts)] *)
Definition organize (cfg : OrganizerConfig) (ecfg : EstimationConfig)
    (issues : list Issue) (contexts : gmap string CodebaseContext)
  : list Wave :=
  if (length issues =? 0)%nat then []
  else
    let overlapMatrix := calculateOverlapMatrix issues contexts in
    let groups := groupByContext cfg issues overlapMatrix in
    let orderedGroups :=
      if respectDependencies cfg then orderByDependencies groups issues
      else groups in
    let waves := groupsToWaves cfg ecfg orderedGroups contexts in
    map (fun wave =>
           {| body := wave; agents := assignAgents (Organizer.issues wave) |})
        waves.

End Organizer.

(* ===================================================================== *)
(** ** Risk predictor (the [risk-predictor] module)                       *)
(* ===================================================================== *)

Module RiskPredictor.

Inductive RiskCategory :=
  | external_dependency
  | breaking_change
  | integration
  | performance
  | security
  | data_integrity
  | resource_constraint
  | timeline.

Inductive RiskLikelihood := likelihood_low | likelihood_medium | likelihood_high.
Inductive RiskImpact := impact_low | impact_medium | impact_high | impact_critical.

#[global] Instance RiskCategory_eq_dec : EqDecision RiskCategory.
Proof. solve_decision. Defined.
#[global] Instance RiskLikelihood_eq_dec : EqDecision RiskLikelihood.
Proof. solve_decision. Defined.
#[global] Instance RiskImpact_eq_dec : EqDecision RiskImpact.
Proof. solve_decision. Defined.

Record Risk := {
  riskId : string;            (* id *)
  category : RiskCategory;
  issueId : string;
  issueIdentifier : string;
  riskDescription : string;   (* description *)
  likelihood : RiskLikelihood;
  impact : RiskImpact;
  mitigation : string;
  affectedIssues : option (list string);
  suggestedWaveAdjustment : option string;
}.

Inductive AdjustmentType := reorder | split | add_dependency | add_buffer.

Record WaveAdjustment := {
  adjustmentType : AdjustmentType;         (* type *)
  reason : string;
  adjustmentIssues : list string;          (* affectedIssues *)
  recommendation : string;
}.

Record RiskAnalysisResult := {
  risks : list Risk;
  totalRiskScore : Z;
  highRisks : list Risk;
  waveAdjustments : list WaveAdjustment;
  summary : string;
}.

Record RiskPattern := {
  patternCategory : RiskCategory;          (* category *)
  keywords : list string;
  filePatterns : list Regex.re;
  descriptionPatterns : list Regex.re;
  defaultLikelihood : RiskLikelihood;
  defaultImpact : RiskImpact;
  mitigationTemplate : string;
}.

(** The issue as the predictor reads it: every label is used as a string
    ([join], [toLowerCase], [replace]), the parent is [parentId], and
    [priority] is compared with string literals.  An issue of the interface
    carries as [priority] one of the four strings of
    [Interface.priority_name]; its labels are objects and it has no
    [parentId]: what the code does on such an issue is in
    [RiskPredictorOnInterface] below. *)
Record Issue := {
  id : string;
  identifier : string;
  title : string;
  description : string;
  labels : list string;
  priority : string;
  parentId : option string;
}.

(** Modelled from the spec: the [CodebaseContext] that the predictor imports
    from [adapters/interface] is not declared in the sources.  The predictor
    reads its [filePaths] only, which the specification describes as the
    paths of the files the issue touches or relates to. *)
Record CodebaseContext := {
  filePaths : list string;
}.

Import Regex.

Definition externalDependencyPattern : RiskPattern :=
  {| patternCategory := external_dependency;
     keywords := ["api"; "external"; "third-party"; "integration"; "webhook";
                  "oauth"; "sdk"]%string;
     filePatterns := [lit "api/"; lit "integrations/"; lit "external/";
                      lit "clients/"];
     descriptionPatterns := [
       seqs [lit "call"; opt (lit "s"); plus space;
             lits ["external"; "third-party"; "remote"]%string];
       seqs [lit "integrat"; lits ["e"; "ion"]%string; plus space; lit "with"];
       seqs [lit "api"; plus space; lits ["call"; "request"; "endpoint"]%string];
       lits ["oauth"; "webhook"; "stripe"; "github"; "linear"]%string ];
     defaultLikelihood := likelihood_medium;
     defaultImpact := impact_high;
     mitigationTemplate := "Add fallback mechanism, implement retry logic with exponential backoff, cache responses where possible" |}.

Definition breakingChangePattern : RiskPattern :=
  {| patternCategory := breaking_change;
     keywords := ["schema"; "migration"; "refactor"; "rename"; "restructure";
                  "breaking"]%string;
     filePatterns := [lit "schema"; lit "migrations/"; lit "db/"; lit "models/"];
     descriptionPatterns := [
       seqs [lit "chang"; lits ["e"; "ing"]%string; plus space;
             lits ["schema"; "database"; "table"]%string];
       seqs [lit "migrat"; lits ["e"; "ion"]%string];
       seqs [lit "breaking"; plus space; lit "change"];
       lit "refactor";
       seqs [lit "renam"; lits ["e"; "ing"]%string] ];
     defaultLikelihood := likelihood_high;
     defaultImpact := impact_medium;
     mitigationTemplate := "Version the schema, create migration script, add backwards compatibility layer, test rollback procedure" |}.

Definition integrationPattern : RiskPattern :=
  {| patternCategory := integration;
     keywords := ["depends"; "dependency"; "requires"; "blocks"; "after";
                  "before"]%string;
     filePatterns := [];
     descriptionPatterns := [
       seqs [lit "depends"; plus space; lit "on"];
       seqs [lit "require"; opt (lit "s"); plus space;
             lits ["completion"; "implementation"]%string];
       seqs [lit "after"; plus space; Star dot; plus space; lit "is";
             plus space; lits ["done"; "complete"]%string];
       seqs [lit "block"; opt (lit "s"); plus space; lit "by"];
       lit "prerequisite" ];
     defaultLikelihood := likelihood_medium;
     defaultImpact := impact_high;
     mitigationTemplate := "Define interface contract first, create mock implementations for parallel development, establish clear handoff criteria" |}.

Definition performancePattern : RiskPattern :=
  {| patternCategory := performance;
     keywords := ["performance"; "scale"; "optimize"; "cache"; "load";
                  "concurrent"]%string;
     filePatterns := [lit "cache/"; lit "performance/"; lit "workers/"];
     descriptionPatterns := [
       lit "performance";
       seqs [lit "scal"; lits ["e"; "ability"; "ing"]%string];
       seqs [lit "optimi"; lits ["ze"; "zation"]%string];
       lits ["slow"; "fast"; "speed"]%string;
       lits ["concurrent"; "parallel"]%string;
       seqs [lit "large"; plus space; lits ["data"; "dataset"; "volume"]%string] ];
     defaultLikelihood := likelihood_medium;
     defaultImpact := impact_medium;
     mitigationTemplate := "Add performance benchmarks, implement caching strategy, set up monitoring alerts, define acceptable thresholds" |}.

Definition securityPattern : RiskPattern :=
  {| patternCategory := security;
     keywords := ["security"; "auth"; "permission"; "encrypt"; "vulnerability";
                  "credential"]%string;
     filePatterns := [lit "auth/"; lit "security/"; lit "permissions/"];
     descriptionPatterns := [
       lit "security";
       seqs [lit "auth"; opt (lits ["entication"; "orization"]%string)];
       alts [lit "permission"; seqs [lit "access"; plus space; lit "control"]];
       lits ["encrypt"; "decrypt"]%string;
       seqs [lit "vulnerabilit"; lits ["y"; "ies"]%string];
       lits ["credential"; "secret"; "key"]%string ];
     defaultLikelihood := likelihood_medium;
     defaultImpact := impact_critical;
     mitigationTemplate := "Conduct security review, add threat model, implement defense in depth, ensure secrets management compliance" |}.

Definition dataIntegrityPattern : RiskPattern :=
  {| patternCategory := data_integrity;
     keywords := ["data"; "consistency"; "transaction"; "atomic";
                  "rollback"]%string;
     filePatterns := [lit "db/"; lit "repositories/"; lit "transactions/"];
     descriptionPatterns := [
       seqs [lit "data"; plus space; lits ["integrity"; "consistency"]%string];
       lit "transaction";
       lit "atomic";
       lit "rollback";
       seqs [lit "race"; plus space; lit "condition"] ];
     defaultLikelihood := likelihood_low;
     defaultImpact := impact_high;
     mitigationTemplate := "Use database transactions, implement idempotency, add data validation layer, create rollback procedures" |}.

Definition resourceConstraintPattern : RiskPattern :=
  {| patternCategory := resource_constraint;
     keywords := ["memory"; "cpu"; "disk"; "quota"; "limit"; "timeout"]%string;
     filePatterns := [];
     descriptionPatterns := [
       lits ["memory"; "cpu"; "disk"]%string;
       lits ["quota"; "limit"]%string;
       lit "timeout";
       seqs [lit "resource"; plus space; lits ["constraint"; "limit"]%string];
       seqs [lit "out"; plus space; lit "of"; plus space;
             lits ["memory"; "space"]%string] ];
     defaultLikelihood := likelihood_low;
     defaultImpact := impact_medium;
     mitigationTemplate := "Add resource monitoring, implement graceful degradation, set up alerts, define resource budgets" |}.

Definition timelinePattern : RiskPattern :=
  {| patternCategory := timeline;
     keywords := ["deadline"; "urgent"; "critical"; "blocker"; "priority"]%string;
     filePatterns := [];
     descriptionPatterns := [
       lit "deadline";
       lits ["urgent"; "critical"; "blocker"]%string;
       seqs [lit "time"; plus space; lits ["sensitive"; "critical"]%string];
       seqs [lit "must"; plus space; lit "be"; plus space;
             lits ["done"; "complete"]%string] ];
     defaultLikelihood := likelihood_medium;
     defaultImpact := impact_medium;
     mitigationTemplate := "Break into smaller deliverables, identify MVP scope, establish checkpoints, prepare contingency plan" |}.

(** The pattern table, in its order. *)
Definition RISK_PATTERNS : list RiskPattern :=
  [ externalDependencyPattern;
    breakingChangePattern;
    integrationPattern;
    performancePattern;
    securityPattern;
    dataIntegrityPattern;
    resourceConstraintPattern;
    timelinePattern ].

(** [`${issue.title} ${issue.description || ''} ${issue.labels?.join(' ') || ''}`.toLowerCase()] *)
Definition issueContent (issue : Issue) : string :=
  Text.toLowerCase
    (title issue +:+ " " +:+ description issue +:+ " "
     +:+ Text.join " " (labels issue)).

(** [context?.filePaths || []] *)
Definition contextFiles (context : option CodebaseContext) : list string :=
  match context with
  | Some ctx => filePaths ctx
  | None => []
  end.

(** The three signals of a pattern. *)
Definition hasKeyword (pattern : RiskPattern) (content : string) : bool :=
  existsb (fun kw => Text.includes content kw) (keywords pattern).

Definition hasFileMatch (pattern : RiskPattern) (files : list string) : bool :=
  existsb (fun fp => existsb (fun f => Regex.test fp f) files)
          (filePatterns pattern).

Definition hasDescriptionMatch (pattern : RiskPattern) (content : string)
  : bool :=
  existsb (fun dp => Regex.test_i dp content) (descriptionPatterns pattern).

(** [issue.priority === 'urgent' || issue.priority === 'critical'] *)
Definition isUrgentOrCritical (issue : Issue) : bool :=
  String.eqb (priority issue) "urgent" || String.eqb (priority issue) "critical".

Definition categoryDescription (c : RiskCategory) : string :=
  match c with
  | external_dependency => "relies on external service/API"
  | breaking_change => "may introduce breaking changes"
  | integration => "has dependencies on other issues"
  | performance => "may impact system performance"
  | security => "has security implications"
  | data_integrity => "may affect data consistency"
  | resource_constraint => "may hit resource limits"
  | timeline => "has timeline constraints"
  end.

Definition generateRiskDescription (pattern : RiskPattern) (issue : Issue)
    (context : option CodebaseContext) : string :=
  let baseDescription := categoryDescription (patternCategory pattern) in
  let joined := Text.join ", " (take 3 (contextFiles context)) in
  let files := if String.eqb joined "" then "multiple files"%string else joined in
  identifier issue +:+ " " +:+ baseDescription +:+ " (affects: " +:+ files
  +:+ ")".

(** [/\.(test|spec)\.(ts|js)$/] *)
Definition testFilePattern : re :=
  seqs [lit "."; lits ["test"; "spec"]%string; lit ".";
        lits ["ts"; "js"]%string].

Definition generateMitigation (pattern : RiskPattern) (issue : Issue)
    (context : option CodebaseContext) : string :=
  let mitigation := mitigationTemplate pattern in
  let mitigation :=
    if (0 <? length (contextFiles context))%nat then
      let testFiles :=
        List.filter (fun f => Regex.testAtEnd testFilePattern f)
                    (contextFiles context) in
      if (length testFiles =? 0)%nat
      then mitigation +:+ ". Add test coverage for affected files"
      else mitigation
    else mitigation in
  if isUrgentOrCritical issue
  then mitigation +:+ ". Consider spike/POC first given high priority"
  else mitigation.

(** One turn of [for (const pattern of this.patterns)] on [risks]. *)
Definition analyzePattern (issue : Issue) (context : option CodebaseContext)
    (startId : nat) (risks : list Risk) (pattern : RiskPattern) : list Risk :=
  let content := issueContent issue in
  let files := contextFiles context in
  let hasKeyword := hasKeyword pattern content in
  let hasFileMatch := hasFileMatch pattern files in
  let hasDescriptionMatch := hasDescriptionMatch pattern content in
  if hasKeyword || hasFileMatch || hasDescriptionMatch then
    let likelihood := defaultLikelihood pattern in
    let evidenceCount :=
      ((if hasKeyword then 1 else 0) + (if hasFileMatch then 1 else 0)
       + (if hasDescriptionMatch then 1 else 0))%nat in
    let likelihood :=
      if (3 <=? evidenceCount)%nat then likelihood_high
      else if (evidenceCount =? 1)%nat
              && bool_decide (likelihood = likelihood_high)
      then likelihood_medium
      else likelihood in
    let impact := defaultImpact pattern in
    let impact :=
      if isUrgentOrCritical issue then
        match impact with
        | impact_medium => impact_high
        | impact_high => impact_critical
        | _ => impact
        end
      else impact in
    let mitigation := generateMitigation pattern issue context in
    risks ++ [{|
      riskId := "RISK-" +:+ pretty (startId + length risks)%nat;
      category := patternCategory pattern;
      issueId := id issue;
      issueIdentifier := identifier issue;
      riskDescription := generateRiskDescription pattern issue context;
      likelihood := likelihood;
      impact := impact;
      mitigation := mitigation;
      affectedIssues := None;
      suggestedWaveAdjustment := None;
    |}]
  else risks.

Definition analyzeIssue (patterns : list RiskPattern) (issue : Issue)
    (context : option CodebaseContext) (startId : nat) : list Risk :=
  fold_left (analyzePattern issue context startId) patterns [].

(** [if (issue.parentId)]: present and not the empty string. *)
Definition truthy_string (s : option string) : option string :=
  match s with
  | Some v => if String.eqb v "" then None else Some v
  | None => None
  end.

Definition parentRisk (issues : list Issue) (startId : nat)
    (risks : list Risk) (issue : Issue) : list Risk :=
  match truthy_string (parentId issue) with
  | Some pid =>
      match List.find (fun i => String.eqb (id i) pid) issues with
      | Some parent =>
          risks ++ [{|
            riskId := "RISK-" +:+ pretty (startId + length risks)%nat;
            category := integration;
            issueId := id issue;
            issueIdentifier := identifier issue;
            riskDescription :=
              identifier issue +:+ " depends on parent " +:+ identifier parent;
            likelihood := likelihood_high;
            impact := impact_high;
            mitigation :=
              "Ensure " +:+ identifier parent
              +:+ " is completed first or define clear interface contract";
            affectedIssues := Some [identifier issue; identifier parent];
            suggestedWaveAdjustment :=
              Some ("Place " +:+ identifier parent +:+ " in earlier wave than "
                    +:+ identifier issue);
          |}]
      | None => risks
      end
  | None => risks
  end.

Definition labelRisks (issues : list Issue) (startId : nat)
    (risks : list Risk) (issue : Issue) : list Risk :=
  let dependsLabels :=
    List.filter (fun l => Text.startsWith (Text.toLowerCase l) "depends:")
                (labels issue) in
  fold_left
    (fun risks label =>
       (* [label.replace(/^depends:/i, '')] on a label that starts so *)
       let dependsOn := Text.slice 8 label in
       match List.find
               (fun i => String.eqb (Text.toLowerCase (identifier i))
                                    (Text.toLowerCase dependsOn))
               issues with
       | Some dependency =>
           risks ++ [{|
             riskId := "RISK-" +:+ pretty (startId + length risks)%nat;
             category := integration;
             issueId := id issue;
             issueIdentifier := identifier issue;
             riskDescription :=
               identifier issue +:+ " explicitly depends on "
               +:+ identifier dependency;
             likelihood := likelihood_high;
             impact := impact_high;
             mitigation :=
               "Verify " +:+ identifier dependency
               +:+ " interface is stable before starting " +:+ identifier issue;
             affectedIssues := Some [identifier issue; identifier dependency];
             suggestedWaveAdjustment :=
               Some ("Place " +:+ identifier dependency +:+ " in earlier wave");
           |}]
       | None => risks
       end)
    dependsLabels risks.

Definition analyzeIntegrationRisks (issues : list Issue) (startId : nat)
  : list Risk :=
  let risks := fold_left (parentRisk issues startId) issues [] in
  fold_left (labelRisks issues startId) issues risks.

Definition impactWeight (i : RiskImpact) : Z :=
  match i with
  | impact_low => 1
  | impact_medium => 2
  | impact_high => 4
  | impact_critical => 8
  end.

Definition likelihoodWeight (l : RiskLikelihood) : Z :=
  match l with
  | likelihood_low => 1
  | likelihood_medium => 2
  | likelihood_high => 3
  end.

(** [totalScore] after the loop.  The terms are small integers, and an
    array holds fewer than 2^32 of them, so the sum stays an exact
    binary64 integer. *)
Definition totalScore (risks : list Risk) : Z :=
  fold_left
    (fun totalScore risk =>
       (totalScore + impactWeight (impact risk) * likelihoodWeight (likelihood risk))%Z)
    risks 0%Z.

(** [calculateRiskScore(risks)], with the division and the multiplication
    carried out in binary64 as the code does. *)
Definition calculateRiskScore (risks : list Risk) : Z :=
  if (length risks =? 0)%nat then 0%Z
  else
    let maxScore := (10 * 8 * 3)%Z in
    Z.min 100
      (JS.roundFloat
         (PrimFloat.mul
            (PrimFloat.div (JS.number (totalScore risks)) (JS.number maxScore))
            (JS.number 100))).

(** [risksByIssue]: a [Map] from issue identifier to its risks, in
    insertion order. *)
Fixpoint addRisk (key : string) (risk : Risk)
    (risksByIssue : list (string * list Risk)) : list (string * list Risk) :=
  match risksByIssue with
  | [] => [(key, [risk])]
  | (k, existing) :: rest =>
      if String.eqb k key then (k, existing ++ [risk]) :: rest
      else (k, existing) :: addRisk key risk rest
  end.

Definition adjustmentsFor (adjustments : list WaveAdjustment)
    (entry : string * list Risk) : list WaveAdjustment :=
  let '(issueId, issueRisks) := entry in
  let hasBreakingChange :=
    existsb (fun r => bool_decide (category r = breaking_change)) issueRisks in
  let hasIntegrationRisk :=
    existsb (fun r => bool_decide (category r = integration)) issueRisks in
  let adjustments :=
    if hasBreakingChange then
      adjustments ++ [{|
        adjustmentType := reorder;
        reason := issueId +:+ " has breaking change risk";
        adjustmentIssues := [issueId];
        recommendation :=
          "Place " +:+ issueId
          +:+ " earlier in wave sequence to allow dependent issues to adapt";
      |}]
    else adjustments in
  if hasIntegrationRisk then
    let dependencies :=
      flat_map (fun r => default [] (affectedIssues r))
        (List.filter (fun r => bool_decide (category r = integration))
                     issueRisks) in
    if (0 <? length dependencies)%nat then
      adjustments ++ [{|
        adjustmentType := add_dependency;
        reason := issueId +:+ " has integration dependencies";
        adjustmentIssues := issueId :: dependencies;
        recommendation :=
          "Ensure " +:+ Text.join ", " dependencies +:+ " complete before "
          +:+ issueId;
      |}]
    else adjustments
  else adjustments.

Definition generateWaveAdjustments (risks : list Risk) (issues : list Issue)
  : list WaveAdjustment :=
  let risksByIssue :=
    fold_left (fun m risk => addRisk (issueIdentifier risk) risk m) risks [] in
  let adjustments := fold_left adjustmentsFor risksByIssue [] in
  let totalScore := calculateRiskScore risks in
  if (50 <? totalScore)%Z then
    adjustments ++ [{|
      adjustmentType := add_buffer;
      reason := "High overall risk score";
      adjustmentIssues := [];
      recommendation :=
        "Add 20% buffer to token estimates for risk mitigation overhead";
    |}]
  else adjustments.

Definition categoryName (c : RiskCategory) : string :=
  match c with
  | external_dependency => "external_dependency"
  | breaking_change => "breaking_change"
  | integration => "integration"
  | performance => "performance"
  | security => "security"
  | data_integrity => "data_integrity"
  | resource_constraint => "resource_constraint"
  | timeline => "timeline"
  end.

(** [cat.replace(/_/g, ' ')] *)
Fixpoint underscoresToSpaces (s : string) : string :=
  match s with
  | EmptyString => EmptyString
  | String c s' =>
      String (if Ascii.eqb c "_" then " "%char else c) (underscoresToSpaces s')
  end.

(** [byCategory]: a [Map] from category to count, in insertion order. *)
Fixpoint countCategory (c : RiskCategory)
    (byCategory : list (RiskCategory * nat)) : list (RiskCategory * nat) :=
  match byCategory with
  | [] => [(c, 1%nat)]
  | (k, n) :: rest =>
      if bool_decide (k = c) then (k, S n) :: rest
      else (k, n) :: countCategory c rest
  end.

Definition generateSummary (risks highRisks : list Risk)
    (adjustments : list WaveAdjustment) : string :=
  if (length risks =? 0)%nat then "No significant risks identified."
  else
    let parts := ["Identified " +:+ pretty (length risks) +:+ " risk(s)."] in
    let parts :=
      if (0 <? length highRisks)%nat
      then parts ++ [pretty (length highRisks)
                     +:+ " high-impact risk(s) require attention."]
      else parts in
    let parts :=
      if (0 <? length adjustments)%nat
      then parts ++ [pretty (length adjustments)
                     +:+ " wave adjustment(s) recommended."]
      else parts in
    let byCategory :=
      fold_left (fun m risk => countCategory (category risk) m) risks [] in
    let categoryList :=
      Text.join ", "
        (map (fun '(cat, count) =>
                pretty count +:+ " " +:+ underscoresToSpaces (categoryName cat))
             byCategory) in
    let parts := parts ++ ["Categories: " +:+ categoryList +:+ "."] in
    Text.join " " parts.

(** One turn of the per-issue loop of [analyze] on [(risks, riskIdCounter)]. *)
Definition analyzeStep (patterns : list RiskPattern)
    (contexts : gmap string CodebaseContext)
    (st : list Risk * nat) (issue : Issue) : list Risk * nat :=
  let '(risks, riskIdCounter) := st in
  let context := contexts !! id issue in
  let issueRisks := analyzeIssue patterns issue context riskIdCounter in
  (risks ++ issueRisks, (riskIdCounter + length issueRisks)%nat).

(** [analyze(issues, contexts)] *)
Definition analyze (patterns : list RiskPattern) (issues : list Issue)
    (contexts : gmap string CodebaseContext) : RiskAnalysisResult :=
  let '(risks, riskIdCounter) :=
    fold_left (analyzeStep patterns contexts) issues ([], 1%nat) in
  let integrationRisks := analyzeIntegrationRisks issues riskIdCounter in
  let risks := risks ++ integrationRisks in
  let totalRiskScore := calculateRiskScore risks in
  let highRisks :=
    List.filter
      (fun r => bool_decide (impact r = impact_critical)
                || bool_decide (impact r = impact_high))
      risks in
  let waveAdjustments := generateWaveAdjustments risks issues in
  let summary := generateSummary risks highRisks waveAdjustments in
  {| risks := risks;
     totalRiskScore := totalRiskScore;
     highRisks := highRisks;
     waveAdjustments := waveAdjustments;
     summary := summary |}.

End RiskPredictor.

(* ===================================================================== *)
(** ** The risk predictor on issues of the interface                      *)
(* ===================================================================== *)

(** [analyze] is declared on the [Issue] of [adapters/interface], and the
    adapters build such issues: their [labels] are [Label] objects, and
    they have a [parent] and no [parentId].  The code treats the labels as
    strings and reads [parentId]; this module follows it on the issues it
    is given. *)
Module RiskPredictorOnInterface.
Import RiskPredictor.

(** What the reads of per-issue matching give on an issue of the
    interface: in [issue.labels?.join(' ')] every [Label] object is
    converted to the string [[object Object]]; [issue.parentId] is a
    property that the object does not have, [undefined]; [issue.priority]
    is one of the four priority names. *)
Definition readIssue (issue : Interface.Issue) : Issue := {|
  id := Interface.id issue;
  identifier := Interface.identifier issue;
  title := Interface.title issue;
  description := Interface.description issue;
  labels := map (fun _ => "[object Object]"%string) (Interface.labels issue);
  priority := Interface.priority_name (Interface.priority issue);
  parentId := None;
|}.

(** The outcome of a call that can throw. *)
Inductive Outcome (A : Type) :=
  | Returned (a : A)
  | TypeError.
Arguments Returned {A} a.
Arguments TypeError {A}.

(** One turn of the second loop of [analyzeIntegrationRisks].  The filter
    [issue.labels?.filter((l) => l.toLowerCase().startsWith('depends:'))]
    calls [l.toLowerCase()] on the first label: a [Label] is an object
    without that method, and the call throws.  On an empty array the
    callback is not called, the filtered array is empty and the loop over
    it has no turn. *)
Definition labelRisks (acc : Outcome (list Risk)) (issue : Interface.Issue)
  : Outcome (list Risk) :=
  match acc with
  | TypeError => TypeError
  | Returned risks =>
      match Interface.labels issue with
      | [] => Returned risks
      | _ :: _ => TypeError
      end
  end.

(** [analyzeIntegrationRisks(issues, startId)]: the first loop is the one
    of the code on what it reads. *)
Definition analyzeIntegrationRisks (issues : list Interface.Issue)
    (startId : nat) : Outcome (list Risk) :=
  let seen := map readIssue issues in
  let risks := fold_left (parentRisk seen startId) seen [] in
  fold_left labelRisks issues (Returned risks).

(** What [analyze] does with the risks once they are collected. *)
Definition report (risks : list Risk) (issues : list Issue)
  : RiskAnalysisResult :=
  let totalRiskScore := calculateRiskScore risks in
  let highRisks :=
    List.filter
      (fun r => bool_decide (impact r = impact_critical)
                || bool_decide (impact r = impact_high))
      risks in
  let waveAdjustments := generateWaveAdjustments risks issues in
  let summary := generateSummary risks highRisks waveAdjustments in
  {| risks := risks;
     totalRiskScore := totalRiskScore;
     highRisks := highRisks;
     waveAdjustments := waveAdjustments;
     summary := summary |}.

(** [analyze(issues, contexts)] *)
Definition analyze (patterns : list RiskPattern)
    (issues : list Interface.Issue) (contexts : gmap string CodebaseContext)
  : Outcome RiskAnalysisResult :=
  let seen := map readIssue issues in
  let '(risks, riskIdCounter) :=
    fold_left (analyzeStep patterns contexts) seen ([], 1%nat) in
  match analyzeIntegrationRisks issues riskIdCounter with
  | TypeError => TypeError
  | Returned integrationRisks => Returned (report (risks ++ integrationRisks) seen)
  end.

End RiskPredictorOnInterface.

(* ===================================================================== *)
(** ** The codebase analyzer ([lib/estimator.ts])                         *)
(* ===================================================================== *)

Module CodebaseAnalyzer.
Import Estimator Regex.

(** [/\.(test|spec)\.\w+$/] without the end anchor. *)
Definition testSuffixPattern : re :=
  seqs [lit "."; lits ["test"; "spec"]%string; lit "."; plus word].

Definition isTestFile (path : string) : bool :=
  Regex.testAtEnd testSuffixPattern path
  || Text.includes path "/tests/"
  || Text.includes path "/__tests__/".

(** [s.replace(/r$/, f)] without the [g] flag: the leftmost match that
    reaches the end of [s] is replaced by [f] of the matched text. *)
Fixpoint replaceAtEnd (r : re) (f : string -> string) (s : string) : string :=
  if Regex.matchesAll r s then f s
  else match s with
       | EmptyString => EmptyString
       | String c s' => String c (replaceAtEnd r f s')
       end.

(** [/\.(\w+)$/] without the end anchor. *)
Definition extensionPattern : re := Seq (Chr ".") (plus word).

(** On a path that starts with [src/], [replace(/^src\//, 'tests/')] swaps
    the first four characters; in ['.test.$1'] the group is the match
    without its dot. *)
Definition guessTestPath (path : string) : option string :=
  if Text.startsWith path "src/" then
    Some (replaceAtEnd extensionPattern
            (fun m => ".test." +:+ Text.slice 1 m)
            ("tests/" +:+ Text.slice 4 path))
  else None.

(** [if (testPath) related.push(testPath)]: a string counts unless it is
    empty. *)
Definition findRelatedFiles (paths : list string) : list string :=
  fold_left
    (fun related path =>
       match guessTestPath path with
       | Some testPath =>
           if String.eqb testPath "" then related else related ++ [testPath]
       | None => related
       end)
    paths [].

Definition complexityScore (c : Complexity) : Z :=
  match c with
  | high => 3
  | medium => 2
  | low => 1
  end.

(** The average is a quotient of two integers below 2^53 and is compared
    with 2.5 and 1.5, which binary64 holds exactly; the comparisons come
    out as on the exact quotient. *)
Definition calculateAvgComplexity (files : list FileInfo) : Complexity :=
  if (length files =? 0)%nat then medium
  else
    let scores := map (fun f => complexityScore (complexity f)) files in
    let avg := (inject_Z (fold_left Z.add scores 0%Z)
                / inject_Z (Z.of_nat (length scores)))%Q in
    if Qle_bool (25 # 10) avg then high
    else if Qle_bool (15 # 10) avg then medium
    else low.

End CodebaseAnalyzer.

(* ===================================================================== *)
(** ** The Linear adapter ([adapters/linear.ts])                          *)
(* ===================================================================== *)

Module LinearAdapter.
Import Interface.

(** [map[priority] || 3] *)
Definition priorityToNumber (priority : Priority) : Z :=
  let n := match priority with
           | P0_Critical => 1
           | P1_High => 2
           | P2_Medium => 3
           | P3_Low => 4
           end%Z in
  if (n =? 0)%Z then 3%Z else n.

(** [map[num] || 'P2-Medium'], for a whole number [num]. *)
Definition numberToPriority (num : Z) : Priority :=
  match num with
  | 0 => P3_Low
  | 1 => P0_Critical
  | 2 => P1_High
  | 3 => P2_Medium
  | 4 => P3_Low
  | _ => P2_Medium
  end%Z.

End LinearAdapter.

(* ===================================================================== *)
(** ** Facts about the helpers                                            *)
(* ===================================================================== *)

Module JSFacts.
Import JS.

Lemma round_inject_Z (z : Z) : round (inject_Z z) = z.
Proof.
  unfold round.
  assert (H : (inject_Z z + (1 # 2) == (2 * z + 1) # 2)%Q).
  { unfold Qeq, Qplus, inject_Z; simpl. lia. }
  rewrite H. simpl. symmetry.
  apply Z.div_unique with (r := 1%Z); lia.
Qed.

Lemma dedupe_from_NoDup {A} `{EqDecision A} (l seen : list A) :
  NoDup l -> (forall x, x ∈ l -> x ∉ seen) -> dedupe_from seen l = l.
Proof.
  revert seen. induction l as [|x l IH]; intros seen Hnd Hfresh; [done|].
  simpl. apply NoDup_cons in Hnd as [Hx Hnd].
  rewrite bool_decide_eq_false_2 by (apply Hfresh; left).
  f_equal. apply IH; [done|].
  intros y Hy [->|Hin]%elem_of_cons; [done|].
  apply (Hfresh y); [by right | done].
Qed.

Lemma dedupe_NoDup {A} `{EqDecision A} (l : list A) : NoDup l -> dedupe l = l.
Proof.
  intros Hnd. apply dedupe_from_NoDup; [done|]. intros x _ Hx. by inversion Hx.
Qed.

Lemma round_proper (p q : Q) : (p == q)%Q -> round p = round q.
Proof. intros H. unfold round. by rewrite H. Qed.

Lemma round_no_reduction (z : Z) : round (inject_Z z * (1 - 0))%Q = z.
Proof.
  rewrite <- (round_inject_Z z) at 2. apply round_proper. ring.
Qed.

End JSFacts.

(* ===================================================================== *)
(** ** Properties of the token estimator                                  *)
(* ===================================================================== *)

Module EstimatorFacts.
Import Interface Estimator JSFacts.

(** The sum of the five components of a breakdown. *)
Definition breakdownSum (b : TokenBreakdown) : Z :=
  (codebaseContext b + implementation b + tests b + review b
   + documentation b)%Z.

(** The scenario of the cost model: 200 lines of medium complexity and no
    known files. *)
Definition scenarioContext : CodebaseContext := {|
  filesLikelyTouched := [];
  relatedFiles := [];
  totalLines := 200;
  avgComplexity := medium;
|}.

Definition scenarioIssue : Issue := {|
  id := "issue-1";
  identifier := "SMI-1";
  title := "Add rate limiting";
  description := "";
  priority := P1_High;
  labels := [];
  parent := None;
  Interface.estimate := None;
|}.

Lemma estimate_total (cfg : EstimationConfig) (issue : Issue)
    (ctx : CodebaseContext) :
  total (estimate cfg issue ctx)
  = (BASE_OVERHEAD + breakdownSum (breakdown (estimate cfg issue ctx)))%Z.
Proof. unfold estimate, breakdownSum. simpl. lia. Qed.

Lemma estimate_assumptions_NoDup (cfg : EstimationConfig) (issue : Issue)
    (ctx : CodebaseContext) :
  NoDup (assumptions (estimate cfg issue ctx)).
Proof.
  unfold estimate. simpl.
  repeat (apply NoDup_cons; split;
          [rewrite ?elem_of_cons, elem_of_nil; intuition discriminate|]).
  apply NoDup_nil_2.
Qed.

(** C2. For every issue and context, the total of [estimate] is 5000 plus
    the sum of the five components of its breakdown; for a P1-High issue
    whose context has 200 total lines, medium complexity and no files, the
    breakdown is 0 / 72,000 / 43,200 / 69,120 / 7,200 and the total is
    196,520. *)
Theorem estimate_total_is_base_plus_breakdown :
  forall (issue : Issue) (ctx : CodebaseContext),
    (forall cfg,
       total (estimate cfg issue ctx)
       = (5000 + (codebaseContext (breakdown (estimate cfg issue ctx))
                  + implementation (breakdown (estimate cfg issue ctx))
                  + tests (breakdown (estimate cfg issue ctx))
                  + review (breakdown (estimate cfg issue ctx))
                  + documentation (breakdown (estimate cfg issue ctx))))%Z)
    /\ (priority issue = P1_High ->
        filesLikelyTouched ctx = [] ->
        relatedFiles ctx = [] ->
        totalLines ctx = 200%Z ->
        avgComplexity ctx = medium ->
        breakdown (estimate DEFAULT_CONFIG issue ctx)
        = {| codebaseContext := 0; implementation := 72000; tests := 43200;
             review := 69120; documentation := 7200 |}
        /\ total (estimate DEFAULT_CONFIG issue ctx) = 196520%Z).
Proof.
  intros issue ctx. split.
  - intros cfg. rewrite estimate_total. reflexivity.
  - intros Hp Ht Hr Hl Hc.
    unfold estimate, estimateContextTokens, estimateImplementationTokens.
    rewrite Hp, Ht, Hr, Hl, Hc. split; vm_compute; reflexivity.
Qed.

Lemma estimate_total_is_base_plus_breakdown_witness :
  (priority scenarioIssue = P1_High /\
   filesLikelyTouched scenarioContext = [] /\
   relatedFiles scenarioContext = [] /\
   totalLines scenarioContext = 200%Z /\
   avgComplexity scenarioContext = medium) /\
  total (estimate DEFAULT_CONFIG scenarioIssue scenarioContext) = 196520%Z.
Proof.
  split.
  - repeat split; reflexivity.
  - apply (estimate_total_is_base_plus_breakdown scenarioIssue scenarioContext);
      reflexivity.
Defined.

(** The scenario in binary64.  With the multipliers as the doubles nearest
    to 1.5, 1.2, 0.6, 0.3 and 0.1, the products that [estimate] rounds are
    within half a unit of the same integers. *)
Example scenario_in_binary64 :
  let impl := JS.roundFloat (40000 * 0x1.8p+0 * 0x1.3333333333333p+0)%float in
  let test := JS.roundFloat (72000 * 0x1.3333333333333p-1)%float in
  let review :=
    JS.roundFloat ((72000 + 43200) * 0x1.3333333333333p-2 * 2)%float in
  let doc := JS.roundFloat (72000 * 0x1.999999999999ap-4)%float in
  (impl, test, review, doc) = (72000, 43200, 69120, 7200)%Z.
Proof. vm_compute. reflexivity. Qed.

(** Of no estimate the average confidence score is [0 / 0], which is
    [NaN] and passes neither threshold. *)
Lemma aggregateConfidence_empty : aggregateConfidence [] = conf_low.
Proof. reflexivity. Qed.

Lemma calculateSharedContextReduction_few (issues : list Issue)
    (contexts : gmap string CodebaseContext) :
  length issues < 2 -> calculateSharedContextReduction issues contexts = 0%Q.
Proof.
  intros H. unfold calculateSharedContextReduction.
  by rewrite (proj2 (Nat.ltb_lt _ _) H).
Qed.

(** C10. On the empty list [estimateWave] returns the zero estimate: total
    0, every component 0, no file analysed, no assumption, and confidence
    low, the average of no score being [NaN]. *)
Theorem estimateWave_empty :
  forall (cfg : EstimationConfig) (contexts : gmap string CodebaseContext),
    estimateWave cfg [] contexts
    = {| total := 0;
         breakdown := {| codebaseContext := 0; implementation := 0;
                         tests := 0; review := 0; documentation := 0 |};
         confidence := conf_low;
         assumptions := [];
         filesAnalyzed := 0 |}.
Proof.
  intros cfg contexts. unfold estimateWave. simpl.
  rewrite calculateSharedContextReduction_few by (simpl; lia).
  rewrite aggregateConfidence_empty. reflexivity.
Qed.

Lemma aggregateConfidence_singleton (e : TokenEstimate) :
  aggregateConfidence [e] = confidence e.
Proof. unfold aggregateConfidence. simpl. by destruct (confidence e). Qed.

(** C1, counterexample. For the scenario issue the wave total is the sum of
    the components, 191,520, and not the 196,520 of [estimate]: the
    aggregate charges no base overhead. *)
Lemma estimateWave_singleton_total_differs :
  total (estimateWave DEFAULT_CONFIG [scenarioIssue]
           {[ "issue-1"%string := scenarioContext ]}) = 191520%Z
  /\ total (estimate DEFAULT_CONFIG scenarioIssue scenarioContext) = 196520%Z
  /\ estimateWave DEFAULT_CONFIG [scenarioIssue]
       {[ "issue-1"%string := scenarioContext ]}
     <> estimate DEFAULT_CONFIG scenarioIssue scenarioContext.
Proof.
  assert (H1 : total (estimateWave DEFAULT_CONFIG [scenarioIssue]
                        {[ "issue-1"%string := scenarioContext ]}) = 191520%Z)
    by (vm_compute; reflexivity).
  assert (H2 : total (estimate DEFAULT_CONFIG scenarioIssue scenarioContext)
               = 196520%Z) by (vm_compute; reflexivity).
  split; [exact H1 | split; [exact H2 |]].
  intros Heq. rewrite Heq, H2 in H1. discriminate.
Qed.

(** C1, as the code has it. For every issue and context map, [estimateWave]
    of the one-element list agrees with [estimate] of that issue (on the
    context of the map, or the default context when the map has none) in
    the breakdown, component by component, in the confidence, in the
    assumptions and in the number of files analysed, the shared-context
    discount being 0; its total is the sum of the five components, that is
    the total of [estimate] less the 5,000 of base overhead, which the
    aggregate does not charge. *)
Theorem estimateWave_singleton :
  forall (cfg : EstimationConfig) (issue : Issue)
         (contexts : gmap string CodebaseContext),
    let ctx := default createEmptyContext (contexts !! id issue) in
    let single := estimate cfg issue ctx in
    let wave := estimateWave cfg [issue] contexts in
    calculateSharedContextReduction [issue] contexts = 0%Q
    /\ breakdown wave = breakdown single
    /\ confidence wave = confidence single
    /\ assumptions wave = assumptions single
    /\ filesAnalyzed wave = filesAnalyzed single
    /\ total wave = breakdownSum (breakdown single)
    /\ total wave = (total single - 5000)%Z.
Proof.
  intros cfg issue contexts ctx single wave.
  assert (Hb : breakdown wave = breakdown single).
  { unfold wave, estimateWave. simpl. fold ctx. fold single.
    rewrite round_no_reduction. by destruct (breakdown single). }
  assert (Ht : total wave = breakdownSum (breakdown single)).
  { transitivity (breakdownSum (breakdown wave)); [|by rewrite Hb].
    unfold wave, estimateWave, breakdownSum. simpl. lia. }
  split_and!.
  - reflexivity.
  - exact Hb.
  - apply aggregateConfidence_singleton.
  - change (assumptions wave) with (JS.dedupe ([] ++ assumptions single)).
    apply dedupe_NoDup, estimate_assumptions_NoDup.
  - reflexivity.
  - exact Ht.
  - rewrite Ht. unfold single. rewrite estimate_total. unfold BASE_OVERHEAD. lia.
Qed.

(** *** The shared-context discount *)

(** The file paths of an issue's context, none when the map has no context
    for it. *)
Definition filesOf (contexts : gmap string CodebaseContext) (issue : Issue)
  : list string :=
  match contexts !! id issue with
  | Some ctx => contextPaths ctx
  | None => []
  end.

(** In how many of the issues' contexts the path [p] appears. *)
Definition occurrences (contexts : gmap string CodebaseContext) (p : string)
    (issues : list Issue) : nat :=
  length (List.filter (fun i => bool_decide (p ∈ filesOf contexts i)) issues).

(** The distinct file paths across all issues. *)
Definition distinctFiles (contexts : gmap string CodebaseContext)
    (issues : list Issue) : gset string :=
  list_to_set (flat_map (filesOf contexts) issues).

(** The distinct file paths that appear in the contexts of at least two
    issues. *)
Definition filesInSeveral (contexts : gmap string CodebaseContext)
    (issues : list Issue) : gset string :=
  filter (fun p => 2 <= occurrences contexts p issues)
         (distinctFiles contexts issues).

Definition overlapRatio (contexts : gmap string CodebaseContext)
    (issues : list Issue) : Q :=
  (inject_Z (Z.of_nat (size (filesInSeveral contexts issues)))
   / inject_Z (Z.of_nat (size (distinctFiles contexts issues))))%Q.

Definition sumZ (l : list Z) : Z := fold_right Z.add 0%Z l.

(** The per-issue estimates that [estimateWave] adds up. *)
Definition estimatesOf (cfg : EstimationConfig) (issues : list Issue)
    (contexts : gmap string CodebaseContext) : list TokenEstimate :=
  map (fun issue =>
         estimate cfg issue (default createEmptyContext (contexts !! id issue)))
      issues.

Lemma scanFiles_cons (f : string) (fs : list string) (a s : gset string) :
  scanFiles (f :: fs) (a, s)
  = scanFiles fs ({[f]} ∪ a,
                  if bool_decide (f ∈ a) then {[f]} ∪ s else s).
Proof. reflexivity. Qed.

Lemma scanFiles_NoDup (fs : list string) :
  forall a s : gset string,
    NoDup fs ->
    scanFiles fs (a, s) = (list_to_set fs ∪ a, (list_to_set fs ∩ a) ∪ s).
Proof.
  induction fs as [|f fs IH]; intros a s Hnd.
  - unfold scanFiles. simpl. f_equal; set_solver.
  - apply NoDup_cons in Hnd as [Hf Hnd].
    rewrite scanFiles_cons, IH by done.
    case_bool_decide; f_equal; set_solver.
Qed.

Lemma scanIssues_filesOf (issues : list Issue)
    (contexts : gmap string CodebaseContext) :
  scanIssues issues contexts
  = fold_left (fun st issue => scanFiles (filesOf contexts issue) st)
              issues (∅, ∅).
Proof.
  unfold scanIssues. generalize ((∅, ∅) : gset string * gset string).
  induction issues as [|i issues IH]; intros st; [done|].
  simpl. rewrite IH. f_equal. unfold filesOf.
  destruct (contexts !! id i); [done|]. by destruct st.
Qed.

Lemma occurrences_snoc contexts p issues i :
  occurrences contexts p (issues ++ [i])
  = (occurrences contexts p issues
     + if bool_decide (p ∈ filesOf contexts i) then 1 else 0)%nat.
Proof.
  unfold occurrences. rewrite List.filter_app, length_app. simpl.
  by case_bool_decide.
Qed.

Lemma elem_of_distinctFiles contexts p issues :
  p ∈ distinctFiles contexts issues <-> 1 <= occurrences contexts p issues.
Proof.
  unfold distinctFiles.
  induction issues as [|i issues IH] using rev_ind.
  - unfold occurrences. simpl. set_solver by lia.
  - rewrite occurrences_snoc, flat_map_app. simpl. rewrite app_nil_r.
    rewrite list_to_set_app_L, elem_of_union, IH, elem_of_list_to_set.
    case_bool_decide; intuition lia.
Qed.

(** The two sets that the scan builds are the distinct files and the files
    met in at least two contexts. *)
Lemma scanIssues_spec (contexts : gmap string CodebaseContext)
    (issues : list Issue) :
  (forall i, i ∈ issues -> NoDup (filesOf contexts i)) ->
  scanIssues issues contexts
  = (distinctFiles contexts issues, filesInSeveral contexts issues).
Proof.
  rewrite scanIssues_filesOf.
  induction issues as [|i issues IH] using rev_ind; intros Hnd.
  - reflexivity.
  - rewrite fold_left_app. simpl.
    rewrite IH by (intros j Hj; apply Hnd; set_solver).
    rewrite scanFiles_NoDup by (apply Hnd; set_solver).
    f_equal.
    + unfold distinctFiles. rewrite flat_map_app. simpl. rewrite app_nil_r.
      rewrite list_to_set_app_L. set_solver.
    + apply set_eq. intros p.
      unfold filesInSeveral.
      rewrite elem_of_union, elem_of_intersection, !elem_of_filter.
      rewrite !elem_of_distinctFiles, elem_of_list_to_set.
      rewrite occurrences_snoc.
      case_bool_decide; intuition lia.
Qed.

Lemma accumulate_sums (estimates : list TokenEstimate) :
  forall (b : TokenBreakdown) (a : list Assumption),
    fst (fold_left accumulate estimates (b, a))
    = {| codebaseContext :=
           codebaseContext b
           + sumZ (map (fun e => codebaseContext (breakdown e)) estimates);
         implementation :=
           implementation b
           + sumZ (map (fun e => implementation (breakdown e)) estimates);
         tests := tests b + sumZ (map (fun e => tests (breakdown e)) estimates);
         review :=
           review b + sumZ (map (fun e => review (breakdown e)) estimates);
         documentation :=
           documentation b
           + sumZ (map (fun e => documentation (breakdown e)) estimates) |}%Z.
Proof.
  induction estimates as [|e estimates IH]; intros b a.
  - simpl. destruct b; simpl. f_equal; lia.
  - simpl. rewrite IH. simpl. f_equal; lia.
Qed.

Lemma estimateWave_breakdown (cfg : EstimationConfig) (issues : list Issue)
    (contexts : gmap string CodebaseContext) :
  breakdown (estimateWave cfg issues contexts)
  = {| codebaseContext :=
         JS.round
           (inject_Z (sumZ (map (fun e => codebaseContext (breakdown e))
                                (estimatesOf cfg issues contexts)))
            * (1 - calculateSharedContextReduction issues contexts))%Q;
       implementation :=
         sumZ (map (fun e => implementation (breakdown e))
                   (estimatesOf cfg issues contexts));
       tests := sumZ (map (fun e => tests (breakdown e))
                          (estimatesOf cfg issues contexts));
       review := sumZ (map (fun e => review (breakdown e))
                           (estimatesOf cfg issues contexts));
       documentation :=
         sumZ (map (fun e => documentation (breakdown e))
                   (estimatesOf cfg issues contexts)) |}.
Proof.
  unfold estimateWave. fold (estimatesOf cfg issues contexts).
  pose proof (accumulate_sums (estimatesOf cfg issues contexts)
                zeroBreakdown []) as Hs.
  destruct (fold_left accumulate (estimatesOf cfg issues contexts)
              (zeroBreakdown, [])) as [tb aa].
  simpl in Hs. subst tb. reflexivity.
Qed.

Lemma calculateSharedContextReduction_spec
    (contexts : gmap string CodebaseContext) (issues : list Issue) :
  2 <= length issues ->
  (forall i, i ∈ issues -> NoDup (filesOf contexts i)) ->
  calculateSharedContextReduction issues contexts
  = if (size (distinctFiles contexts issues) =? 0)%nat then 0%Q
    else Qmin (overlapRatio contexts issues * (7 # 10))%Q (5 # 10)%Q.
Proof.
  intros Hlen Hnd. unfold calculateSharedContextReduction.
  destruct (length issues <? 2)%nat eqn:E; [apply Nat.ltb_lt in E; lia|].
  rewrite scanIssues_spec by done. reflexivity.
Qed.

(** Two issues that share one of two distinct touched files. *)
Definition sharedFile : FileInfo :=
  {| path := "src/lib/shared.ts"; lines := 120; language := "typescript";
     complexity := medium |}.

Definition otherFile : FileInfo :=
  {| path := "src/lib/other.ts"; lines := 80; language := "typescript";
     complexity := low |}.

Definition issueA : Issue := {|
  id := "a"; identifier := "SMI-10"; title := "Extract shared helper";
  description := ""; priority := P2_Medium; labels := []; parent := None;
  Interface.estimate := None |}.

Definition issueB : Issue := {|
  id := "b"; identifier := "SMI-11"; title := "Use shared helper";
  description := ""; priority := P2_Medium; labels := []; parent := None;
  Interface.estimate := None |}.

Definition twoContexts : gmap string CodebaseContext :=
  {[ "a"%string := {| filesLikelyTouched := [sharedFile]; relatedFiles := [];
                      totalLines := 120; avgComplexity := medium |};
     "b"%string := {| filesLikelyTouched := [sharedFile; otherFile];
                      relatedFiles := []; totalLines := 200;
                      avgComplexity := medium |} ]}.

(** *** The discount as the code computes it, in binary64 *)

Lemma estimateWave64_breakdown (cfg : EstimationConfig) (issues : list Issue)
    (contexts : gmap string CodebaseContext) :
  breakdown (Estimator64.estimateWave cfg issues contexts)
  = {| codebaseContext :=
         Estimator64.reduceContext
           (sumZ (map (fun e => codebaseContext (breakdown e))
                      (estimatesOf cfg issues contexts)))
           (Estimator64.calculateSharedContextReduction issues contexts);
       implementation :=
         sumZ (map (fun e => implementation (breakdown e))
                   (estimatesOf cfg issues contexts));
       tests := sumZ (map (fun e => tests (breakdown e))
                          (estimatesOf cfg issues contexts));
       review := sumZ (map (fun e => review (breakdown e))
                           (estimatesOf cfg issues contexts));
       documentation :=
         sumZ (map (fun e => documentation (breakdown e))
                   (estimatesOf cfg issues contexts)) |}.
Proof.
  unfold Estimator64.estimateWave. fold (estimatesOf cfg issues contexts).
  pose proof (accumulate_sums (estimatesOf cfg issues contexts)
                zeroBreakdown []) as Hs.
  destruct (fold_left accumulate (estimatesOf cfg issues contexts)
              (zeroBreakdown, [])) as [tb aa].
  simpl in Hs. subst tb. reflexivity.
Qed.





(** The agreement of the two readings of [estimateWave]: the exact one and
    the binary64 one differ in the discounted context tokens only, and in
    what follows from them, the total and the note on the discount. *)
Lemma estimateWave_readings_agree (cfg : EstimationConfig)
    (issues : list Issue) (contexts : gmap string CodebaseContext) :
  let exact := Estimator.estimateWave cfg issues contexts in
  let wave := Estimator64.estimateWave cfg issues contexts in
  implementation (breakdown wave) = implementation (breakdown exact)
  /\ tests (breakdown wave) = tests (breakdown exact)
  /\ review (breakdown wave) = review (breakdown exact)
  /\ documentation (breakdown wave) = documentation (breakdown exact)
  /\ confidence wave = confidence exact
  /\ filesAnalyzed wave = filesAnalyzed exact.
Proof.
  simpl. rewrite estimateWave64_breakdown, estimateWave_breakdown.
  split_and!; try reflexivity.
  - unfold Estimator64.estimateWave, Estimator.estimateWave.
    by destruct (fold_left accumulate _ _).
  - unfold Estimator64.estimateWave, Estimator.estimateWave.
    by destruct (fold_left accumulate _ _).
Qed.



(** Two issues with twelve distinct files between them, five of them
    shared, and 76,500 context tokens in all. *)
Definition fileOf (name : string) (n : Z) : FileInfo :=
  {| path := name; lines := n; language := "typescript"; complexity := medium |}.

Definition fiveShared : list FileInfo :=
  [fileOf "src/s1.ts" 50; fileOf "src/s2.ts" 50; fileOf "src/s3.ts" 50;
   fileOf "src/s4.ts" 50; fileOf "src/s5.ts" 50].

Definition twelveFiles : gmap string CodebaseContext :=
  {[ "a"%string :=
       {| filesLikelyTouched :=
            fiveShared ++ [fileOf "src/a1.ts" 40; fileOf "src/a2.ts" 40;
                           fileOf "src/a3.ts" 40];
          relatedFiles := []; totalLines := 370; avgComplexity := medium |};
     "b"%string :=
       {| filesLikelyTouched :=
            fiveShared ++ [fileOf "src/b1.ts" 40; fileOf "src/b2.ts" 40;
                           fileOf "src/b3.ts" 40; fileOf "src/b4.ts" 25];
          relatedFiles := []; totalLines := 395; avgComplexity := medium |} ]}.

(** With five of twelve files shared the discount is the binary64 number
    next to 7/24 and shows as 29%; the product with 76,500 falls just
    below 54,187.5 and is rounded down, where exact arithmetic would have
    the tie and round up. *)
Example wave_context_five_of_twelve :
  sumZ (map (fun e => codebaseContext (breakdown e))
            (estimatesOf DEFAULT_CONFIG [issueA; issueB] twelveFiles))
  = 76500%Z
  /\ size (filesInSeveral twelveFiles [issueA; issueB]) = 5
  /\ size (distinctFiles twelveFiles [issueA; issueB]) = 12
  /\ codebaseContext
       (breakdown (Estimator64.estimateWave DEFAULT_CONFIG [issueA; issueB]
                     twelveFiles))
     = 54187%Z
  /\ note_shared 29
     ∈ assumptions (Estimator64.estimateWave DEFAULT_CONFIG [issueA; issueB]
                      twelveFiles)
  /\ JS.round (76500 * (1 - (5 # 12) * (7 # 10)))%Q = 54188%Z.
Proof.
  split_and!; try (vm_compute; reflexivity).
  apply (bool_decide_unpack _). vm_compute. exact I.
Qed.

End EstimatorFacts.

(* ===================================================================== *)
(** ** Patterns that are alternatives of words                            *)
(* ===================================================================== *)

(** A pattern [/w1|w2|.../] matches a text exactly when the text contains
    one of the words. *)
Module RegexFacts.

Lemma matchesPrefix_Void (s : string) : Regex.matchesPrefix Regex.Void s = false.
Proof. induction s as [|c s IH]; [done|]. exact IH. Qed.

Lemma matchesPrefix_Alt (s : string) :
  forall r1 r2 : Regex.re,
    Regex.matchesPrefix (Regex.Alt r1 r2) s
    = Regex.matchesPrefix r1 s || Regex.matchesPrefix r2 s.
Proof.
  induction s as [|c s IH]; intros r1 r2.
  - simpl. by destruct (Regex.nullable r1), (Regex.nullable r2).
  - assert (Halt : forall x y,
              Regex.matchesPrefix (Regex.alt x y) s
              = Regex.matchesPrefix x s || Regex.matchesPrefix y s).
    { intros x y. destruct x, y; unfold Regex.alt;
        rewrite ?IH, ?matchesPrefix_Void, ?orb_false_r; reflexivity. }
    cbn [Regex.matchesPrefix Regex.nullable Regex.deriv]. rewrite Halt.
    destruct (Regex.nullable r1), (Regex.nullable r2),
      (Regex.matchesPrefix (Regex.deriv c r1) s),
      (Regex.matchesPrefix (Regex.deriv c r2) s); reflexivity.
Qed.

Lemma matchesPrefix_alts (rs : list Regex.re) (s : string) :
  Regex.matchesPrefix (Regex.alts rs) s
  = existsb (fun r => Regex.matchesPrefix r s) rs.
Proof.
  induction rs as [|r rs IH]; [apply matchesPrefix_Void|].
  destruct rs as [|r' rs].
  - simpl. by rewrite orb_false_r.
  - change (Regex.alts (r :: r' :: rs))
      with (Regex.Alt r (Regex.alts (r' :: rs))).
    rewrite matchesPrefix_Alt, IH. reflexivity.
Qed.

Lemma seq_Eps_lit (w : string) :
  Regex.seq Regex.Eps (Regex.lit w) = Regex.lit w.
Proof. by destruct w. Qed.

Lemma matchesPrefix_lit (w : string) :
  forall s : string, Regex.matchesPrefix (Regex.lit w) s = String.prefix w s.
Proof.
  induction w as [|c w IH]; intros s.
  - by destruct s.
  - destruct s as [|d s]; [reflexivity|].
    cbn [Regex.lit Regex.matchesPrefix Regex.nullable Regex.deriv andb orb
         String.prefix].
    destruct (Ascii.eqb_spec d c) as [->|Hne].
    + rewrite seq_Eps_lit, IH. by destruct (ascii_dec c c).
    + change (Regex.seq Regex.Void (Regex.lit w)) with Regex.Void.
      rewrite matchesPrefix_Void. destruct (ascii_dec c d); congruence.
Qed.

Lemma existsb_orb {A} (f g : A -> bool) (l : list A) :
  existsb (fun x => f x || g x) l = existsb f l || existsb g l.
Proof.
  induction l as [|x l IH]; [done|]. simpl. rewrite IH.
  destruct (f x), (g x), (existsb f l), (existsb g l); reflexivity.
Qed.

Lemma existsb_ext {A} (f g : A -> bool) (l : list A) :
  (forall x, f x = g x) -> existsb f l = existsb g l.
Proof.
  intros H. induction l as [|x l IH]; [done|]. simpl. by rewrite H, IH.
Qed.

Lemma existsb_fmap {A B} (f : A -> B) (p : B -> bool) (l : list A) :
  existsb p (map f l) = existsb (fun x => p (f x)) l.
Proof. induction l as [|x l IH]; [done|]. simpl. by rewrite IH. Qed.

Lemma matchesPrefix_lits (ws : list string) (s : string) :
  Regex.matchesPrefix (Regex.lits ws) s
  = existsb (fun w => String.prefix w s) ws.
Proof.
  unfold Regex.lits. rewrite matchesPrefix_alts, existsb_fmap.
  apply existsb_ext. intros w. apply matchesPrefix_lit.
Qed.

(** [/w1|w2|.../.test(s)] is [s.includes(w1) || s.includes(w2) || ...]. *)
Lemma test_lits (ws : list string) (s : string) :
  Regex.test (Regex.lits ws) s = existsb (fun w => Text.includes s w) ws.
Proof.
  induction s as [|c s IH].
  - cbn [Regex.test Text.includes]. rewrite matchesPrefix_lits, orb_false_r.
    apply existsb_ext. intros w. by rewrite orb_false_r.
  - cbn [Regex.test Text.includes].
    rewrite matchesPrefix_lits, IH, <- existsb_orb. reflexivity.
Qed.

Lemma lower_ascii_idem (c : ascii) :
  Text.lower_ascii (Text.lower_ascii c) = Text.lower_ascii c.
Proof.
  destruct c as [[] [] [] [] [] [] [] []]; vm_compute; reflexivity.
Qed.

Lemma toLowerCase_idem (s : string) :
  Text.toLowerCase (Text.toLowerCase s) = Text.toLowerCase s.
Proof.
  induction s as [|c s IH]; [done|]. simpl. by rewrite lower_ascii_idem, IH.
Qed.

(** On a text that is in lower case already the [i] flag changes nothing. *)
Lemma test_i_lits (ws : list string) (s : string) :
  Regex.test_i (Regex.lits ws) (Text.toLowerCase s)
  = existsb (fun w => Text.includes (Text.toLowerCase s) w) ws.
Proof. unfold Regex.test_i. by rewrite toLowerCase_idem, test_lits. Qed.

End RegexFacts.

(* ===================================================================== *)
(** ** Properties of the wave organizer                                   *)
(* ===================================================================== *)

Module OrganizerFacts.
Import Interface Estimator Organizer.

(** *** Jaccard similarity and the overlap matrix *)

Lemma intersection_as_filter (setA setB : gset string) :
  filter (fun x => x ∈ setB) setA = setA ∩ setB.
Proof. apply set_eq. intros x. rewrite elem_of_filter. set_solver. Qed.

Lemma jaccardSimilarity_unfold (setA setB : gset string) :
  jaccardSimilarity setA setB
  = if (size setA =? 0)%nat && (size setB =? 0)%nat then 0%Q
    else (inject_Z (Z.of_nat (size (setA ∩ setB)))
          / inject_Z (Z.of_nat (size (setA ∪ setB))))%Q.
Proof. unfold jaccardSimilarity. by rewrite intersection_as_filter. Qed.

Lemma jaccardSimilarity_sym (setA setB : gset string) :
  jaccardSimilarity setA setB = jaccardSimilarity setB setA.
Proof.
  rewrite !jaccardSimilarity_unfold.
  rewrite (comm_L (∩) setA setB), (comm_L (∪) setA setB).
  by rewrite (andb_comm (size setA =? 0)%nat).
Qed.

Lemma jaccardSimilarity_range (setA setB : gset string) :
  (0 <= jaccardSimilarity setA setB)%Q /\ (jaccardSimilarity setA setB <= 1)%Q.
Proof.
  rewrite jaccardSimilarity_unfold.
  destruct ((size setA =? 0)%nat && (size setB =? 0)%nat) eqn:E.
  - split; [apply Qle_refl | discriminate].
  - assert (Hpos : (0 < size (setA ∪ setB))%nat).
    { apply andb_false_iff in E as [E|E]; apply Nat.eqb_neq in E.
      - pose proof (subseteq_size setA (setA ∪ setB)) as H.
        assert (setA ⊆ setA ∪ setB) by set_solver. specialize (H ltac:(done)). lia.
      - pose proof (subseteq_size setB (setA ∪ setB)) as H.
        assert (setB ⊆ setA ∪ setB) by set_solver. specialize (H ltac:(done)). lia. }
    assert (Hle : (size (setA ∩ setB) <= size (setA ∪ setB))%nat)
      by (apply subseteq_size; set_solver).
    assert (HposQ : (0 < inject_Z (Z.of_nat (size (setA ∪ setB))))%Q).
    { change 0%Q with (inject_Z 0). rewrite <- Zlt_Qlt. lia. }
    split.
    + apply Qle_shift_div_l; [done|]. rewrite Qmult_0_l.
      change 0%Q with (inject_Z 0). rewrite <- Zle_Qle. lia.
    + apply Qle_shift_div_r; [done|]. rewrite Qmult_1_l.
      rewrite <- Zle_Qle. lia.
Qed.

(** A loop of [map.set(key(b), val(b))]: the entry of [k] at the end. *)
Lemma fold_set_lookup {A V} (step : gmap string V -> A -> gmap string V)
    (key : A -> string) (val : A -> V) (P : V -> Prop) (k : string) :
  (forall m b, step m b = <[key b := val b]> m) ->
  forall (l : list A) (m0 : gmap string V),
    (forall b, b ∈ l -> key b = k -> P (val b)) ->
    ((exists b, b ∈ l /\ key b = k) \/ (exists v, m0 !! k = Some v /\ P v)) ->
    exists v, fold_left step l m0 !! k = Some v /\ P v.
Proof.
  intros Hstep. induction l as [|b l IH]; intros m0 Hval Hsrc.
  - simpl. destruct Hsrc as [(b & Hb & _)|Hm]; [by inversion Hb | done].
  - simpl. apply IH.
    + intros b' Hb'. apply Hval. by right.
    + rewrite Hstep. destruct (decide (key b = k)) as [Hk|Hk].
      * right. exists (val b). rewrite <- Hk, lookup_insert_eq.
        split; [done|]. apply Hval; [by left | done].
      * destruct Hsrc as [(b' & Hb' & Hk')|(v & Hv & HP)].
        -- apply elem_of_cons in Hb' as [->|Hb']; [done|]. left. eauto.
        -- right. exists v. by rewrite lookup_insert_ne.
Qed.

Lemma overlapRow_self (issues : list Issue)
    (contexts : gmap string CodebaseContext) (issueA : Issue) :
  issueA ∈ issues ->
  overlapRow issues contexts issueA !! id issueA = Some 1%Q.
Proof.
  intros Hin. unfold overlapRow.
  set (val := fun issueB : Issue =>
         if bool_decide (id issueA = id issueB) then 1%Q
         else jaccardSimilarity (getFilesForIssue issueA contexts)
                                (getFilesForIssue issueB contexts)).
  set (step := fun (rowMap : gmap string Q) (issueB : Issue) =>
         if bool_decide (id issueA = id issueB)
         then <[id issueB := 1%Q]> rowMap
         else <[id issueB :=
                  jaccardSimilarity (getFilesForIssue issueA contexts)
                    (getFilesForIssue issueB contexts)]> rowMap).
  assert (Hstep : forall m b, step m b = <[id b := val b]> m).
  { intros m b. unfold step, val. by case_bool_decide. }
  assert (Hval : forall b, b ∈ issues -> id b = id issueA -> val b = 1%Q).
  { intros b _ Hb. unfold val.
    rewrite bool_decide_eq_true_2 by (symmetry; exact Hb). reflexivity. }
  destruct (fold_set_lookup step id val (fun v => v = 1%Q) (id issueA)
              Hstep issues ∅ Hval) as (v & Hv & ->); [left; eauto|].
  exact Hv.
Qed.

Lemma overlapMatrix_self (issues : list Issue)
    (contexts : gmap string CodebaseContext) (issue : Issue) :
  issue ∈ issues ->
  exists row,
    calculateOverlapMatrix issues contexts !! id issue = Some row
    /\ row !! id issue = Some 1%Q.
Proof.
  intros Hin. unfold calculateOverlapMatrix.
  apply (fold_set_lookup
           (fun matrix issueA =>
              <[id issueA := overlapRow issues contexts issueA]> matrix)
           id (overlapRow issues contexts)
           (fun row => row !! id issue = Some 1%Q) (id issue)).
  - done.
  - intros b Hb Hk. rewrite <- Hk. by apply overlapRow_self.
  - left. eauto.
Qed.

(** C4. The Jaccard similarity of the organizer is symmetric, lies between
    0 and 1, and is 0 on two empty sets; in the overlap matrix the entry of
    every issue with itself is 1. *)
Theorem jaccard_similarity_properties :
  (forall setA setB : gset string,
     jaccardSimilarity setA setB = jaccardSimilarity setB setA
     /\ (0 <= jaccardSimilarity setA setB)%Q
     /\ (jaccardSimilarity setA setB <= 1)%Q)
  /\ jaccardSimilarity ∅ ∅ = 0%Q
  /\ (forall (issues : list Issue) (contexts : gmap string CodebaseContext)
             (issue : Issue),
        issue ∈ issues ->
        matrixGet (calculateOverlapMatrix issues contexts) (id issue) (id issue)
        = 1%Q
        /\ exists row,
             calculateOverlapMatrix issues contexts !! id issue = Some row
             /\ row !! id issue = Some 1%Q).
Proof.
  split_and!.
  - intros setA setB. split; [apply jaccardSimilarity_sym|].
    apply jaccardSimilarity_range.
  - reflexivity.
  - intros issues contexts issue Hin.
    destruct (overlapMatrix_self issues contexts issue Hin) as (row & Hm & Hr).
    split; [|eauto]. unfold matrixGet. by rewrite Hm, Hr.
Qed.

Lemma jaccard_similarity_properties_witness :
  EstimatorFacts.issueA ∈ [EstimatorFacts.issueA; EstimatorFacts.issueB]
  /\ matrixGet
       (calculateOverlapMatrix [EstimatorFacts.issueA; EstimatorFacts.issueB]
          EstimatorFacts.twoContexts)
       (id EstimatorFacts.issueA) (id EstimatorFacts.issueA) = 1%Q.
Proof.
  assert (Hin : EstimatorFacts.issueA
                ∈ [EstimatorFacts.issueA; EstimatorFacts.issueB])
    by (apply elem_of_cons; left; reflexivity).
  split; [exact Hin|].
  destruct jaccard_similarity_properties as (_ & _ & Hself).
  exact (proj1 (Hself _ EstimatorFacts.twoContexts _ Hin)).
Defined.

(** *** Agent inference *)

(** The categories of agent inference as the specification describes
    them: in order of precedence, each with its set of label names and
    the words of its text pattern. *)
Record Category := {
  categoryAgent : AgentType;
  categoryLabels : list string;
  categoryWords : list string;
}.

Definition securityCategory : Category := {|
  categoryAgent := security_specialist;
  categoryLabels := ["security"; "auth"; "authentication"; "vulnerability"];
  categoryWords := ["security"; "auth"; "encrypt"; "credential"; "permission";
                    "access control"; "xss"; "sql injection"; "csrf"] |}%string.

Definition frontendCategory : Category := {|
  categoryAgent := frontend_developer;
  categoryLabels := ["frontend"; "ui"; "ux"; "component"; "react"; "vue"; "css"];
  categoryWords := ["component"; "ui"; "ux"; "react"; "vue"; "angular"; "css";
                    "style"; "layout"; "responsive"; "accessibility"] |}%string.

Definition backendCategory : Category := {|
  categoryAgent := backend_developer;
  categoryLabels := ["backend"; "api"; "database"; "server"];
  categoryWords := ["api"; "endpoint"; "database"; "query"; "migration";
                    "server"; "graphql"; "rest"] |}%string.

Definition devopsCategory : Category := {|
  categoryAgent := devops_engineer;
  categoryLabels := ["devops"; "ci"; "cd"; "infrastructure"; "deployment"];
  categoryWords := ["ci/cd"; "pipeline"; "deploy"; "docker"; "kubernetes";
                    "terraform"; "aws"; "gcp"; "azure"] |}%string.

Definition testCategory : Category := {|
  categoryAgent := test_engineer;
  categoryLabels := ["testing"; "test"; "qa"; "e2e"];
  categoryWords := ["test"; "coverage"; "e2e"; "integration test"; "unit test";
                    "assertion"] |}%string.

Definition documentationCategory : Category := {|
  categoryAgent := documentation_writer;
  categoryLabels := ["documentation"; "docs"; "readme"];
  categoryWords := ["documentation"; "readme"; "guide"; "tutorial";
                    "api doc"] |}%string.

Definition researchCategory : Category := {|
  categoryAgent := researcher;
  categoryLabels := ["spike"; "research"; "investigation"; "exploration"];
  categoryWords := ["research"; "investigate"; "explore"; "prototype"; "poc";
                    "proof of concept"] |}%string.

Definition categories : list Category :=
  [securityCategory; frontendCategory; backendCategory; devopsCategory;
   testCategory; documentationCategory; researchCategory].

(** The name of one of the issue's labels, in lower case, is in the label
    set of the category. *)
Definition labelMatches (c : Category) (issue : Issue) : bool :=
  existsb (fun l => bool_decide (Text.toLowerCase (name l) ∈ categoryLabels c))
          (labels issue).

(** The title and the description, joined by a space and in lower case,
    contain one of the words of the category. *)
Definition textMatches (c : Category) (issue : Issue) : bool :=
  existsb (fun w =>
             Text.includes
               (Text.toLowerCase (title issue +:+ " " +:+ description issue)) w)
          (categoryWords c).

Definition matchesCategory (c : Category) (issue : Issue) : bool :=
  labelMatches c issue || textMatches c issue.

(** The agent of the first category that matches, [general-purpose] when
    none does. *)
Fixpoint firstCategory (cs : list Category) (issue : Issue) : AgentType :=
  match cs with
  | [] => general_purpose
  | c :: rest =>
      if matchesCategory c issue then categoryAgent c
      else firstCategory rest issue
  end.

Definition securityFrontendIssue : Issue := {|
  id := "c"; identifier := "SMI-12";
  title := "Harden the login component";
  description := "Escape user input in the React form to prevent XSS";
  priority := P1_High;
  labels := [{| label_id := "l1"; name := "Frontend"; color := None |}];
  parent := None; Interface.estimate := None |}.

Definition plainIssue : Issue := {|
  id := "d"; identifier := "SMI-13";
  title := "Tidy changelog";
  description := "Sort the entries by date";
  priority := P3_Low;
  labels := [];
  parent := None; Interface.estimate := None |}.

(** An issue whose only security signal is a label, written with a capital
    letter; its text matches no category. *)
Definition securityLabelIssue : Issue := {|
  id := "e"; identifier := "SMI-14";
  title := "Tidy changelog";
  description := "Sort the entries by date";
  priority := P3_Low;
  labels := [{| label_id := "l2"; name := "Security"; color := None |}];
  parent := None; Interface.estimate := None |}.

(** An issue that only its label makes a frontend issue. *)
Definition frontendLabelIssue : Issue := {|
  id := "f"; identifier := "SMI-15";
  title := "Tidy changelog";
  description := "Sort the entries by date";
  priority := P3_Low;
  labels := [{| label_id := "l3"; name := "UX"; color := None |}];
  parent := None; Interface.estimate := None |}.

Lemma someLabelIn_labels (names : list string) (issue : Issue) :
  someLabelIn names (issueLabels issue)
  = existsb (fun l => bool_decide (Text.toLowerCase (name l) ∈ names))
            (labels issue).
Proof. unfold someLabelIn, issueLabels. apply RegexFacts.existsb_fmap. Qed.

Lemma words_in_text (ws : list string) (issue : Issue) :
  Regex.test_i (Regex.lits ws) (issueText issue)
  = existsb (fun w =>
               Text.includes
                 (Text.toLowerCase (title issue +:+ " " +:+ description issue))
                 w) ws.
Proof. unfold issueText. apply RegexFacts.test_i_lits. Qed.

(** The signals of the code are the matches of the categories. *)
Lemma signals_match (issue : Issue) :
  securitySignals (issueLabels issue) (issueText issue)
  = matchesCategory securityCategory issue
  /\ frontendSignals (issueLabels issue) (issueText issue)
     = matchesCategory frontendCategory issue
  /\ backendSignals (issueLabels issue) (issueText issue)
     = matchesCategory backendCategory issue
  /\ devopsSignals (issueLabels issue) (issueText issue)
     = matchesCategory devopsCategory issue
  /\ testSignals (issueLabels issue) (issueText issue)
     = matchesCategory testCategory issue
  /\ documentationSignals (issueLabels issue) (issueText issue)
     = matchesCategory documentationCategory issue
  /\ researchSignals (issueLabels issue) (issueText issue)
     = matchesCategory researchCategory issue.
Proof.
  unfold securitySignals, frontendSignals, backendSignals, devopsSignals,
    testSignals, documentationSignals, researchSignals.
  rewrite !someLabelIn_labels, !words_in_text.
  split_and!; reflexivity.
Qed.

Lemma inferAgentType_firstCategory (issue : Issue) :
  inferAgentType issue = firstCategory categories issue.
Proof.
  destruct (signals_match issue) as (H1 & H2 & H3 & H4 & H5 & H6 & H7).
  unfold inferAgentType. cbv zeta. rewrite H1, H2, H3, H4, H5, H6, H7.
  reflexivity.
Qed.

Lemma AgentType_eq_dec (a b : AgentType) : {a = b} + {a <> b}.
Proof. decide equality. Defined.

(** C9. [inferAgentType] assigns the agent of the first category, in the
    order security, frontend, backend, devops, test, documentation,
    research, for which the lower-case name of one of the issue's labels
    is in the category's label set or the lower-case title and
    description contain one of the words of its text pattern, and
    [general-purpose] when there is no such category.  A label alone
    decides as well as the text does; an issue that matches security and
    frontend is assigned [security-specialist]. *)
Theorem inferAgentType_first_match :
  map categoryAgent categories
  = [security_specialist; frontend_developer; backend_developer;
     devops_engineer; test_engineer; documentation_writer; researcher]
  /\ forall issue : Issue,
       inferAgentType issue = firstCategory categories issue
       /\ (forall c l,
             c ∈ categories -> l ∈ labels issue ->
             Text.toLowerCase (name l) ∈ categoryLabels c ->
             (forall c', c' ∈ categories -> categoryAgent c' <> categoryAgent c ->
                         matchesCategory c' issue = false) ->
             inferAgentType issue = categoryAgent c)
       /\ (matchesCategory securityCategory issue = true ->
           matchesCategory frontendCategory issue = true ->
           inferAgentType issue = security_specialist)
       /\ ((forall c, c ∈ categories -> matchesCategory c issue = false) ->
           inferAgentType issue = general_purpose).
Proof.
  split; [reflexivity|]. intros issue.
  rewrite inferAgentType_firstCategory. split_and!.
  - reflexivity.
  - intros c l Hc Hl Hin Hothers.
    assert (Hm : matchesCategory c issue = true).
    { unfold matchesCategory, labelMatches. apply orb_true_iff. left.
      apply existsb_exists. exists l. rewrite <- list_elem_of_In.
      split; [done|]. by apply bool_decide_eq_true. }
    assert (Hstep : forall c',
              c' ∈ categories ->
              (if matchesCategory c' issue then categoryAgent c'
               else categoryAgent c) = categoryAgent c).
    { intros c' Hc'. destruct (matchesCategory c' issue) eqn:E; [|done].
      destruct (AgentType_eq_dec (categoryAgent c') (categoryAgent c))
        as [Heq|Hne];
        [done|]. rewrite (Hothers c' Hc' Hne) in E. done. }
    assert (Hfold : forall cs,
              (forall c', c' ∈ cs -> c' ∈ categories) -> c ∈ cs ->
              firstCategory cs issue = categoryAgent c).
    { induction cs as [|c' cs IH]; intros Hsub Hcs; [by inversion Hcs|].
      simpl. apply elem_of_cons in Hcs as [<-|Hcs]; [by rewrite Hm|].
      pose proof (Hstep c' (Hsub c' ltac:(by left))) as Hs.
      destruct (matchesCategory c' issue); [exact Hs|].
      apply IH; [|done]. intros x Hx. apply Hsub. by right. }
    by apply Hfold.
  - intros Hsec _. simpl. by rewrite Hsec.
  - intros Hnone.
    assert (Hfold : forall cs,
              (forall c, c ∈ cs -> c ∈ categories) ->
              firstCategory cs issue = general_purpose).
    { induction cs as [|c cs IH]; intros Hsub; [done|].
      simpl. rewrite (Hnone c) by (apply Hsub; by left).
      apply IH. intros x Hx. apply Hsub. by right. }
    by apply Hfold.
Qed.

Lemma inferAgentType_first_match_witness :
  (securityCategory ∈ categories
   /\ Text.toLowerCase "Security" ∈ categoryLabels securityCategory
   /\ textMatches securityCategory securityLabelIssue = false
   /\ inferAgentType securityLabelIssue = security_specialist)
  /\ (matchesCategory securityCategory securityFrontendIssue = true
      /\ matchesCategory frontendCategory securityFrontendIssue = true
      /\ inferAgentType securityFrontendIssue = security_specialist)
  /\ ((forall c, c ∈ categories -> matchesCategory c plainIssue = false)
      /\ inferAgentType plainIssue = general_purpose).
Proof.
  destruct inferAgentType_first_match as [_ H].
  assert (Hcat : securityCategory ∈ categories) by (by left).
  assert (Hname : Text.toLowerCase "Security" ∈ categoryLabels securityCategory)
    by (by left).
  assert (Hothers : forall c', c' ∈ categories ->
            categoryAgent c' <> categoryAgent securityCategory ->
            matchesCategory c' securityLabelIssue = false).
  { intros c' Hc' Hne. apply list_elem_of_In in Hc'. simpl in Hc'.
    destruct Hc' as [<-|Hc']; [done|].
    repeat (destruct Hc' as [<-|Hc']; [vm_compute; reflexivity|]).
    destruct Hc'. }
  assert (Hsec : matchesCategory securityCategory securityFrontendIssue = true)
    by (vm_compute; reflexivity).
  assert (Hfe : matchesCategory frontendCategory securityFrontendIssue = true)
    by (vm_compute; reflexivity).
  assert (Hnone : forall c, c ∈ categories ->
                            matchesCategory c plainIssue = false).
  { intros c Hc. apply list_elem_of_In in Hc. simpl in Hc.
    repeat (destruct Hc as [<-|Hc]; [vm_compute; reflexivity|]).
    destruct Hc. }
  split_and!.
  - exact Hcat.
  - exact Hname.
  - vm_compute. reflexivity.
  - apply (proj1 (proj2 (H securityLabelIssue)) securityCategory
             {| label_id := "l2"; name := "Security"; color := None |});
      [exact Hcat | by left | exact Hname | exact Hothers].
  - exact Hsec.
  - exact Hfe.
  - exact (proj1 (proj2 (proj2 (H securityFrontendIssue))) Hsec Hfe).
  - exact Hnone.
  - exact (proj2 (proj2 (proj2 (H plainIssue))) Hnone).
Defined.

(** A label alone assigns the agent: with the text of an issue that is
    otherwise [general-purpose], the label [UX] makes a frontend issue and
    the label [Security] a security issue. *)
Example inferAgentType_by_label :
  inferAgentType plainIssue = general_purpose
  /\ inferAgentType frontendLabelIssue = frontend_developer
  /\ inferAgentType securityLabelIssue = security_specialist.
Proof. split_and!; vm_compute; reflexivity. Qed.

(** *** Every issue lands in exactly one wave *)

Lemma insertStable_Permutation {A} (compare : A -> A -> Z) (x : A) (l : list A) :
  insertStable compare x l ≡ₚ x :: l.
Proof.
  induction l as [|y l IH]; simpl; [done|].
  destruct (0 <? compare x y)%Z; [|done].
  rewrite IH. apply perm_swap.
Qed.

Lemma sort_Permutation {A} (compare : A -> A -> Z) (l : list A) :
  sort compare l ≡ₚ l.
Proof.
  induction l as [|x l IH]; simpl; [done|].
  by rewrite insertStable_Permutation, IH.
Qed.

(** A filter on the union of two exclusive conditions. *)
Lemma filter_exclusive_union {A} (p q r : A -> bool) (l : list A) :
  (forall x, x ∈ l -> r x = p x || q x) ->
  (forall x, x ∈ l -> p x && q x = false) ->
  List.filter r l ≡ₚ List.filter p l ++ List.filter q l.
Proof.
  induction l as [|x l IH]; intros Hr Hpq; simpl; [done|].
  assert (IH' : List.filter r l ≡ₚ List.filter p l ++ List.filter q l).
  { apply IH; intros y Hy; [apply Hr | apply Hpq]; by right. }
  pose proof (Hr x ltac:(by left)) as Hrx.
  pose proof (Hpq x ltac:(by left)) as Hpqx.
  rewrite Hrx. destruct (p x), (q x); simpl in *; try done.
  - by rewrite IH'.
  - rewrite IH'. apply Permutation_middle.
Qed.

Lemma filter_all {A} (p : A -> bool) (l : list A) :
  (forall x, x ∈ l -> p x = true) -> List.filter p l = l.
Proof.
  induction l as [|x l IH]; intros Hp; simpl; [done|].
  rewrite (Hp x) by (by left). f_equal. apply IH. intros y Hy. apply Hp. by right.
Qed.

Lemma filter_none {A} (p : A -> bool) (l : list A) :
  (forall x, x ∈ l -> p x = false) -> List.filter p l = [].
Proof.
  induction l as [|x l IH]; intros Hp; simpl; [done|].
  rewrite (Hp x) by (by left). apply IH. intros y Hy. apply Hp. by right.
Qed.

Lemma elem_of_filter_bool {A} (p : A -> bool) (l : list A) (x : A) :
  x ∈ List.filter p l <-> x ∈ l /\ p x = true.
Proof. rewrite !list_elem_of_In. apply List.filter_In. Qed.

(** The identifiers marked by [for (const s of similar) assigned.add(s.id)]. *)
Lemma assigned_after (similar : list Issue) (assigned : gset string) :
  fold_left (fun assigned s => {[id s]} ∪ assigned) similar assigned
  = list_to_set (map id similar) ∪ assigned.
Proof.
  revert assigned. induction similar as [|s similar IH]; intros assigned; simpl.
  - set_solver.
  - rewrite IH. set_solver.
Qed.

(** Whether an issue joins the group of a seed depends on its identifier
    only. *)
Lemma isSimilar_id cfg overlapMatrix assigned issue (o o' : Issue) :
  id o = id o' ->
  isSimilar cfg overlapMatrix assigned issue o
  = isSimilar cfg overlapMatrix assigned issue o'.
Proof. intros H. unfold isSimilar. by rewrite H. Qed.

Section Grouping.
Variable cfg : OrganizerConfig.
Variable overlapMatrix : gmap string (gmap string Q).
Variable sortedIssues : list Issue.

(** The groups built so far hold exactly the issues whose identifier is
    marked as assigned. *)
Definition groupsCover (st : list WaveGroup * gset string) : Prop :=
  flat_map groupIssues st.1
  ≡ₚ List.filter (fun o => bool_decide (id o ∈ st.2)) sortedIssues.

Lemma groupStep_cover (st : list WaveGroup * gset string) (issue : Issue) :
  issue ∈ sortedIssues ->
  groupsCover st ->
  groupsCover (groupStep cfg overlapMatrix sortedIssues st issue)
  /\ st.2 ⊆ (groupStep cfg overlapMatrix sortedIssues st issue).2
  /\ id issue ∈ (groupStep cfg overlapMatrix sortedIssues st issue).2.
Proof.
  destruct st as [groups assigned]. intros Hin Hcover.
  unfold groupStep. case_bool_decide as Hassigned; [done|].
  set (similar := List.filter (isSimilar cfg overlapMatrix assigned issue)
                              sortedIssues).
  rewrite assigned_after.
  assert (Hself : issue ∈ similar).
  { apply elem_of_filter_bool. split; [done|]. unfold isSimilar.
    rewrite bool_decide_eq_false_2 by done.
    by rewrite bool_decide_eq_true_2. }
  split_and!; simpl.
  - unfold groupsCover in *. simpl in *.
    rewrite flat_map_app. simpl. rewrite app_nil_r, Hcover.
    symmetry. apply filter_exclusive_union.
    + intros o Ho.
      destruct (isSimilar cfg overlapMatrix assigned issue o) eqn:Hsim.
      * rewrite orb_true_r. apply bool_decide_eq_true_2.
        apply elem_of_union_l, elem_of_list_to_set, list_elem_of_fmap.
        exists o. split; [done|]. by apply elem_of_filter_bool.
      * rewrite orb_false_r. apply bool_decide_ext.
        rewrite elem_of_union, elem_of_list_to_set, list_elem_of_fmap.
        split; [|by right]. intros [(o' & Hid & Ho')|H]; [|done].
        apply elem_of_filter_bool in Ho' as [_ Ho'].
        rewrite (isSimilar_id _ _ _ _ o o') in Hsim by done. congruence.
    + intros o Ho. unfold isSimilar. by case_bool_decide.
  - set_solver.
  - apply elem_of_union_l, elem_of_list_to_set, list_elem_of_fmap. eauto.
Qed.

Lemma groupFold_cover (rest : list Issue) :
  forall st : list WaveGroup * gset string,
    (forall x, x ∈ rest -> x ∈ sortedIssues) ->
    groupsCover st ->
    let st' := fold_left (groupStep cfg overlapMatrix sortedIssues) rest st in
    groupsCover st' /\ st.2 ⊆ st'.2 /\ (forall x, x ∈ rest -> id x ∈ st'.2).
Proof.
  induction rest as [|x rest IH]; intros st Hin Hcover; simpl.
  - split_and!; [done | done |]. intros x Hx. by inversion Hx.
  - destruct (groupStep_cover st x) as (Hc1 & Hsub1 & Hx1);
      [apply Hin; by left | done |].
    destruct (IH (groupStep cfg overlapMatrix sortedIssues st x))
      as (Hc2 & Hsub2 & Hall2); [intros y Hy; apply Hin; by right | done |].
    split_and!; [done | set_solver |].
    intros y [->|Hy]%elem_of_cons; [set_solver | by apply Hall2].
Qed.

End Grouping.

Lemma groupByContext_Permutation (cfg : OrganizerConfig) (issues : list Issue)
    (overlapMatrix : gmap string (gmap string Q)) :
  flat_map groupIssues (groupByContext cfg issues overlapMatrix) ≡ₚ issues.
Proof.
  unfold groupByContext.
  set (sortedIssues := sort _ issues).
  destruct (groupFold_cover cfg overlapMatrix sortedIssues sortedIssues ([], ∅))
    as (Hcover & _ & Hall); [done | |].
  { unfold groupsCover. simpl. rewrite filter_none; [done|].
    intros x _. by apply bool_decide_eq_false_2. }
  unfold groupsCover in Hcover. rewrite Hcover.
  rewrite filter_all by (intros x Hx; apply bool_decide_eq_true_2; by apply Hall).
  apply sort_Permutation.
Qed.

Lemma orderByDependencies_Permutation (groups : list WaveGroup)
    (issues : list Issue) :
  orderByDependencies groups issues ≡ₚ groups.
Proof. apply sort_Permutation. Qed.

(** The splitting loop keeps the issues and their order. *)
Lemma splitFold_issues cfg ecfg contexts group (rest : list Issue) :
  forall (subGroups : list WaveGroup) (currentIssues : list Issue) (tokens : Z),
    let st' := fold_left (splitStep cfg ecfg contexts group) rest
                         (subGroups, currentIssues, tokens) in
    flat_map groupIssues st'.1.1 ++ st'.1.2
    = flat_map groupIssues subGroups ++ currentIssues ++ rest.
Proof.
  induction rest as [|x rest IH]; intros subGroups currentIssues tokens; simpl.
  - by rewrite app_nil_r.
  - unfold splitStep at 2.
    destruct (_ || _).
    + rewrite IH. rewrite flat_map_app. simpl.
      by rewrite app_nil_r, <- !app_assoc.
    + rewrite IH. by rewrite <- !app_assoc.
Qed.

Lemma splitGroupIfNeeded_issues cfg ecfg group contexts :
  flat_map groupIssues (splitGroupIfNeeded cfg ecfg group contexts)
  = groupIssues group.
Proof.
  unfold splitGroupIfNeeded. destruct (_ && _).
  - simpl. apply app_nil_r.
  - pose proof (splitFold_issues cfg ecfg contexts group (groupIssues group)
                  [] [] 0%Z) as H.
    destruct (fold_left _ _ _) as [[subGroups currentIssues] tokens].
    simpl in H. destruct currentIssues as [|c currentIssues]; simpl.
    + by rewrite app_nil_r in H.
    + rewrite flat_map_app. simpl. by rewrite app_nil_r.
Qed.

(** The nested loops of [groupsToWaves] are one loop over all sub-groups. *)
Lemma fold_left_flat_map {A B S} (f : S -> B -> S) (h : A -> list B)
    (l : list A) (st : S) :
  fold_left (fun st a => fold_left f (h a) st) l st
  = fold_left f (flat_map h l) st.
Proof.
  revert st. induction l as [|a l IH]; intros st; simpl; [done|].
  by rewrite fold_left_app, IH.
Qed.

Lemma waveFold_spec ecfg contexts (subGroups : list WaveGroup) :
  forall (waves : list WaveBody) (waveNumber : nat),
    let st' := fold_left (waveStep ecfg contexts) subGroups (waves, waveNumber) in
    map number st'.1 = map number waves ++ seq waveNumber (length subGroups)
    /\ map Organizer.issues st'.1
       = map Organizer.issues waves ++ map groupIssues subGroups.
Proof.
  induction subGroups as [|g subGroups IH]; intros waves waveNumber; simpl.
  - by rewrite !app_nil_r.
  - destruct (IH (waves ++ [{|
        number := waveNumber;
        waveName := generateWaveName (groupIssues g) waveNumber;
        waveDescription := generateWaveDescription g;
        Organizer.issues := groupIssues g;
        tokenEstimate := estimateWave ecfg (groupIssues g) contexts;
        dependencies := findWaveDependencies (groupIssues g) waves;
        parallelizable := isParallelizable (groupIssues g) |}])
                 (S waveNumber)) as [Hn Hi].
    split.
    + rewrite Hn, map_app. simpl. by rewrite <- app_assoc.
    + rewrite Hi, map_app. simpl. by rewrite <- app_assoc.
Qed.

Lemma groupsToWaves_spec cfg ecfg groups contexts :
  let waves := groupsToWaves cfg ecfg groups contexts in
  map number waves = seq 1 (length waves)
  /\ flat_map Organizer.issues waves = flat_map groupIssues groups.
Proof.
  unfold groupsToWaves.
  rewrite (fold_left_flat_map (waveStep ecfg contexts)
             (fun group => splitGroupIfNeeded cfg ecfg group contexts)).
  destruct (waveFold_spec ecfg contexts
              (flat_map (fun group => splitGroupIfNeeded cfg ecfg group contexts)
                        groups) [] 1) as [Hn Hi].
  simpl in *. split.
  - rewrite Hn. f_equal.
    rewrite <- (length_map number), Hn. by rewrite length_seq.
  - rewrite (flat_map_concat_map Organizer.issues), Hi.
    rewrite <- flat_map_concat_map. clear Hn Hi.
    induction groups as [|g groups IH]; simpl; [done|].
    rewrite flat_map_app, splitGroupIfNeeded_issues. by rewrite IH.
Qed.

(** In a duplicate-free concatenation an element lies in exactly one of the
    lists. *)
Lemma exactly_one_part {A B} `{EqDecision B} (f : A -> list B) (l : list A)
    (x : B) :
  NoDup (flat_map f l) ->
  x ∈ flat_map f l ->
  length (List.filter (fun a => bool_decide (x ∈ f a)) l) = 1.
Proof.
  induction l as [|a l IH]; simpl; intros Hnd Hx; [by inversion Hx|].
  apply NoDup_app in Hnd as (Hnda & Hdisj & Hndl).
  apply elem_of_app in Hx as [Hx|Hx].
  - rewrite bool_decide_eq_true_2 by done. simpl. f_equal.
    rewrite filter_none; [done|].
    intros a' Ha'. apply bool_decide_eq_false_2. intros Hxa'.
    apply (Hdisj x Hx). apply list_elem_of_In, in_flat_map.
    exists a'. by rewrite <- !list_elem_of_In.
  - rewrite bool_decide_eq_false_2; [by apply IH|].
    intros Hxa. by apply (Hdisj x Hxa).
Qed.

Lemma organize_bodies cfg ecfg issues contexts :
  map body (organize cfg ecfg issues contexts)
  = if (length issues =? 0)%nat then []
    else groupsToWaves cfg ecfg
           (if respectDependencies cfg
            then orderByDependencies
                   (groupByContext cfg issues
                      (calculateOverlapMatrix issues contexts)) issues
            else groupByContext cfg issues
                   (calculateOverlapMatrix issues contexts))
           contexts.
Proof.
  unfold organize. destruct (length issues =? 0)%nat; [done|].
  rewrite map_map. simpl. apply map_id.
Qed.

Lemma organize_spec cfg ecfg issues contexts :
  let bodies := map body (organize cfg ecfg issues contexts) in
  map number bodies = seq 1 (length bodies)
  /\ flat_map Organizer.issues bodies ≡ₚ issues.
Proof.
  simpl. rewrite organize_bodies.
  destruct (length issues =? 0)%nat eqn:E.
  - apply Nat.eqb_eq, length_zero_iff_nil in E. subst. by split.
  - match goal with
    | |- context [groupsToWaves cfg ecfg ?gs contexts] =>
        destruct (groupsToWaves_spec cfg ecfg gs contexts) as [Hn Hi];
        assert (Hg : flat_map groupIssues gs ≡ₚ issues)
    end.
    { destruct (respectDependencies cfg).
      - rewrite orderByDependencies_Permutation.
        apply groupByContext_Permutation.
      - apply groupByContext_Permutation. }
    split; [exact Hn|]. by rewrite Hi.
Qed.

Definition threeIssues : list Issue :=
  [plainIssue; EstimatorFacts.issueB; EstimatorFacts.issueA].

(** C3. For issues with distinct ids, the waves of [organize] are numbered
    1, 2, ..., N in the order in which they are emitted, the issues of the
    waves taken together are the input issues, and every input issue is in
    exactly one wave. *)
Theorem organize_every_issue_in_one_wave :
  forall (cfg : OrganizerConfig) (ecfg : EstimationConfig)
         (issues : list Issue) (contexts : gmap string CodebaseContext),
    NoDup (map id issues) ->
    let waves := organize cfg ecfg issues contexts in
    map (fun w => number (body w)) waves = seq 1 (length waves)
    /\ flat_map (fun w => Organizer.issues (body w)) waves ≡ₚ issues
    /\ forall issue, issue ∈ issues ->
         length (List.filter
                   (fun w => bool_decide (issue ∈ Organizer.issues (body w)))
                   waves) = 1.
Proof.
  intros cfg ecfg issues contexts Hids waves.
  destruct (organize_spec cfg ecfg issues contexts) as [Hn Hp].
  fold waves in Hn, Hp.
  rewrite map_map, length_map in Hn.
  rewrite flat_map_concat_map, map_map, <- flat_map_concat_map in Hp.
  split_and!; [exact Hn | exact Hp |].
  intros issue Hin.
  apply (exactly_one_part (fun w => Organizer.issues (body w))).
  - rewrite Hp. by apply (NoDup_fmap_1 id).
  - by rewrite Hp.
Qed.

Lemma organize_every_issue_in_one_wave_witness :
  NoDup (map id threeIssues)
  /\ map (fun w => number (body w))
         (organize DEFAULT_ORGANIZER_CONFIG DEFAULT_CONFIG threeIssues
            EstimatorFacts.twoContexts)
     = seq 1 (length (organize DEFAULT_ORGANIZER_CONFIG DEFAULT_CONFIG
                        threeIssues EstimatorFacts.twoContexts))
  /\ length (List.filter
               (fun w => bool_decide
                           (plainIssue ∈ Organizer.issues (body w)))
               (organize DEFAULT_ORGANIZER_CONFIG DEFAULT_CONFIG threeIssues
                  EstimatorFacts.twoContexts)) = 1.
Proof.
  assert (Hids : NoDup (map id threeIssues))
    by (apply (bool_decide_unpack _); vm_compute; exact I).
  destruct (organize_every_issue_in_one_wave DEFAULT_ORGANIZER_CONFIG
              DEFAULT_CONFIG threeIssues EstimatorFacts.twoContexts Hids)
    as (Hn & _ & Hone).
  split_and!; [exact Hids | exact Hn |].
  apply Hone. apply elem_of_cons. left. reflexivity.
Defined.

(** The three issues above make three waves: the two issues that share a
    file form one group, which exceeds the token budget and is split, and
    the issue without context follows. *)
Example organize_threeIssues :
  map (fun w => (number (body w), map id (Organizer.issues (body w))))
      (organize DEFAULT_ORGANIZER_CONFIG DEFAULT_CONFIG threeIssues
         EstimatorFacts.twoContexts)
  = [(1, ["b"]%string); (2, ["a"]%string); (3, ["d"]%string)].
Proof. vm_compute. reflexivity. Qed.

End OrganizerFacts.

(* ===================================================================== *)
(** ** Properties of the risk predictor                                   *)
(* ===================================================================== *)

Module RiskPredictorFacts.
Import RiskPredictor.

(** *** Per-issue pattern matching *)

(** At least one of the three signals of [pattern] fires for the issue. *)
Definition fires (issue : Issue) (context : option CodebaseContext)
    (pattern : RiskPattern) : bool :=
  hasKeyword pattern (issueContent issue)
  || hasFileMatch pattern (contextFiles context)
  || hasDescriptionMatch pattern (issueContent issue).

(** The impact that [analyzeIssue] gives to a risk of [pattern]. *)
Definition adjustedImpact (issue : Issue) (pattern : RiskPattern) : RiskImpact :=
  if isUrgentOrCritical issue then
    match defaultImpact pattern with
    | impact_medium => impact_high
    | impact_high => impact_critical
    | _ => defaultImpact pattern
    end
  else defaultImpact pattern.

(** What identifies a risk for counting: its issue and its category. *)
Definition riskKey (r : Risk) : string * RiskCategory := (issueId r, category r).

(** How many risks of [risks] are for the issue [issue] in category [c]. *)
Definition countRisks (issue : string) (c : RiskCategory) (risks : list Risk)
  : nat :=
  length (List.filter (fun r => bool_decide (riskKey r = (issue, c))) risks).

Lemma analyzePattern_cases issue context startId risks pattern :
  analyzePattern issue context startId risks pattern
  = if fires issue context pattern
    then risks ++ [{|
      riskId := "RISK-" +:+ pretty (startId + length risks)%nat;
      category := patternCategory pattern;
      issueId := id issue;
      issueIdentifier := identifier issue;
      riskDescription := generateRiskDescription pattern issue context;
      likelihood :=
        (let evidenceCount :=
           ((if hasKeyword pattern (issueContent issue) then 1 else 0)
            + (if hasFileMatch pattern (contextFiles context) then 1 else 0)
            + (if hasDescriptionMatch pattern (issueContent issue) then 1 else 0))%nat in
         if (3 <=? evidenceCount)%nat then likelihood_high
         else if (evidenceCount =? 1)%nat
                 && bool_decide (defaultLikelihood pattern = likelihood_high)
         then likelihood_medium
         else defaultLikelihood pattern);
      impact := adjustedImpact issue pattern;
      mitigation := generateMitigation pattern issue context;
      affectedIssues := None;
      suggestedWaveAdjustment := None |}]
    else risks.
Proof. reflexivity. Qed.

(** The risks of one issue, pattern by pattern: one risk for each pattern
    that fires, in table order, with the pattern's category and the
    adjusted impact. *)
Lemma analyzeFold_summary issue context startId (patterns : list RiskPattern) :
  forall risks : list Risk,
    map (fun r => (riskKey r, impact r))
        (fold_left (analyzePattern issue context startId) patterns risks)
    = map (fun r => (riskKey r, impact r)) risks
      ++ map (fun p => ((id issue, patternCategory p), adjustedImpact issue p))
             (List.filter (fires issue context) patterns).
Proof.
  induction patterns as [|p patterns IH]; intros risks; simpl.
  - by rewrite app_nil_r.
  - rewrite IH, analyzePattern_cases.
    destruct (fires issue context p); [|done].
    rewrite map_app. simpl. by rewrite <- app_assoc.
Qed.

Lemma analyzeIssue_summary patterns issue context startId :
  map (fun r => (riskKey r, impact r))
      (analyzeIssue patterns issue context startId)
  = map (fun p => ((id issue, patternCategory p), adjustedImpact issue p))
        (List.filter (fires issue context) patterns).
Proof. unfold analyzeIssue. by rewrite analyzeFold_summary. Qed.

Lemma analyzeIssue_keys patterns issue context startId :
  map riskKey (analyzeIssue patterns issue context startId)
  = map (fun p => (id issue, patternCategory p))
        (List.filter (fires issue context) patterns).
Proof.
  pose proof (f_equal (map fst)
                (analyzeIssue_summary patterns issue context startId)) as H.
  by rewrite !map_map in H.
Qed.

Lemma countRisks_keys issue c risks :
  countRisks issue c risks
  = length (List.filter (fun k => bool_decide (k = (issue, c)))
                        (map riskKey risks)).
Proof.
  unfold countRisks. induction risks as [|r risks IH]; simpl; [done|].
  destruct (bool_decide (riskKey r = (issue, c))); simpl; by rewrite IH.
Qed.

Lemma countRisks_app issue c risks1 risks2 :
  countRisks issue c (risks1 ++ risks2)
  = (countRisks issue c risks1 + countRisks issue c risks2)%nat.
Proof. unfold countRisks. by rewrite List.filter_app, length_app. Qed.

(** In a table with distinct categories, exactly the pattern itself has
    its category. *)
Lemma count_fired_pattern (issue : Issue) (context : option CodebaseContext)
    (patterns : list RiskPattern) (pattern : RiskPattern) :
  NoDup (map patternCategory patterns) ->
  pattern ∈ patterns ->
  length (List.filter
            (fun k => bool_decide (k = (id issue, patternCategory pattern)))
            (map (fun p => (id issue, patternCategory p))
                 (List.filter (fires issue context) patterns)))
  = if fires issue context pattern then 1 else 0.
Proof.
  induction patterns as [|p patterns IH]; intros Hnd Hin; [by inversion Hin|].
  simpl in Hnd. apply NoDup_cons in Hnd as [Hp Hnd].
  assert (Hrest : forall q, q ∈ patterns ->
            patternCategory q = patternCategory p -> False).
  { intros q Hq Heq. apply Hp. rewrite <- Heq.
    apply list_elem_of_fmap. eauto. }
  apply elem_of_cons in Hin as [->|Hin].
  - assert (Hnone :
      List.filter (fun k => bool_decide (k = (id issue, patternCategory p)))
        (map (fun q => (id issue, patternCategory q))
             (List.filter (fires issue context) patterns)) = []).
    { apply OrganizerFacts.filter_none. intros k Hk.
      apply list_elem_of_fmap in Hk as (q & -> & Hq).
      apply OrganizerFacts.elem_of_filter_bool in Hq as [Hq _].
      apply bool_decide_eq_false_2. intros [= Heq]. by apply (Hrest q). }
    simpl. destruct (fires issue context p); simpl.
    + rewrite bool_decide_eq_true_2 by done. simpl. by rewrite Hnone.
    + by rewrite Hnone.
  - simpl. destruct (fires issue context p); simpl; [|by apply IH].
    rewrite bool_decide_eq_false_2; [by apply IH|].
    intros [= Heq]. by apply (Hrest pattern).
Qed.

Lemma RISK_PATTERNS_categories :
  map patternCategory RISK_PATTERNS
  = [external_dependency; breaking_change; integration; performance; security;
     data_integrity; resource_constraint; timeline].
Proof. reflexivity. Qed.

Lemma RISK_PATTERNS_NoDup : NoDup (map patternCategory RISK_PATTERNS).
Proof.
  rewrite RISK_PATTERNS_categories.
  apply (bool_decide_unpack _). vm_compute. exact I.
Qed.

Lemma analyzeIssue_count issue context startId pattern :
  pattern ∈ RISK_PATTERNS ->
  countRisks (id issue) (patternCategory pattern)
             (analyzeIssue RISK_PATTERNS issue context startId)
  = if fires issue context pattern then 1 else 0.
Proof.
  intros Hin. rewrite countRisks_keys, analyzeIssue_keys.
  by apply count_fired_pattern; [apply RISK_PATTERNS_NoDup|].
Qed.

(** *** The whole analysis *)

(** The keys of the risks that per-issue matching emits for [issue]. *)
Definition firedKeys (patterns : list RiskPattern)
    (contexts : gmap string CodebaseContext) (issue : Issue)
  : list (string * RiskCategory) :=
  map (fun p => (id issue, patternCategory p))
      (List.filter (fires issue (contexts !! id issue)) patterns).

Lemma analyzeSteps_keys patterns contexts (issues : list Issue) :
  forall (risks : list Risk) (riskIdCounter : nat),
    map riskKey
        (fold_left (analyzeStep patterns contexts) issues
                   (risks, riskIdCounter)).1
    = map riskKey risks ++ flat_map (firedKeys patterns contexts) issues.
Proof.
  induction issues as [|issue issues IH]; intros risks n; simpl.
  - by rewrite app_nil_r.
  - rewrite IH, map_app, analyzeIssue_keys. by rewrite <- app_assoc.
Qed.

Lemma analyze_risks patterns issues contexts :
  risks (analyze patterns issues contexts)
  = (fold_left (analyzeStep patterns contexts) issues ([], 1)).1
    ++ analyzeIntegrationRisks issues
         (fold_left (analyzeStep patterns contexts) issues ([], 1)).2.
Proof.
  unfold analyze.
  by destruct (fold_left (analyzeStep patterns contexts) issues ([], 1)).
Qed.

(** With distinct ids, the keys for an issue come from that issue alone. *)
Lemma filter_own_keys patterns contexts (issues : list Issue) issue c :
  NoDup (map id issues) ->
  issue ∈ issues ->
  List.filter (fun k => bool_decide (k = (id issue, c)))
              (flat_map (firedKeys patterns contexts) issues)
  = List.filter (fun k => bool_decide (k = (id issue, c)))
                (firedKeys patterns contexts issue).
Proof.
  assert (Hother : forall other : Issue, id other <> id issue ->
            List.filter (fun k => bool_decide (k = (id issue, c)))
                        (firedKeys patterns contexts other) = []).
  { intros other Hne. apply OrganizerFacts.filter_none. intros k Hk.
    unfold firedKeys in Hk. apply list_elem_of_fmap in Hk as (q & -> & _).
    apply bool_decide_eq_false_2. intros [= Heq]. done. }
  induction issues as [|x issues IH]; intros Hnd Hin; [by inversion Hin|].
  simpl in *. apply NoDup_cons in Hnd as [Hx Hnd].
  rewrite List.filter_app.
  assert (Hrest : forall y, y ∈ issues -> id y <> id x).
  { intros y Hy Heq. apply Hx. rewrite <- Heq. apply list_elem_of_fmap. eauto. }
  apply elem_of_cons in Hin as [->|Hin].
  - assert (Hnil : List.filter (fun k => bool_decide (k = (id x, c)))
                     (flat_map (firedKeys patterns contexts) issues) = []).
    { apply OrganizerFacts.filter_none. intros k Hk.
      apply list_elem_of_In, in_flat_map in Hk as (y & Hy & Hk).
      apply list_elem_of_In in Hy. apply list_elem_of_In in Hk.
      unfold firedKeys in Hk. apply list_elem_of_fmap in Hk as (q & -> & _).
      apply bool_decide_eq_false_2. intros [= Heq]. by apply (Hrest y). }
    by rewrite Hnil, app_nil_r.
  - rewrite Hother; [by apply IH|].
    intros Heq. by apply (Hrest issue).
Qed.

(** *** Impact and the priority of the issue *)

(** An issue of the highest priority of the interface, for which the
    breaking-change pattern (default impact medium) fires. *)
Definition criticalIssue : Issue := {|
  id := "r4"; identifier := "SMI-23";
  title := "Refactor the schema module";
  description := ""; labels := [];
  priority := Interface.priority_name Interface.P0_Critical;
  parentId := None |}.

(** The same issue with the priority string that the predictor tests for. *)
Definition urgentIssue : Issue := {|
  id := "r4"; identifier := "SMI-23";
  title := "Refactor the schema module";
  description := ""; labels := [];
  priority := "urgent";
  parentId := None |}.

(** No priority of the interface is one of the strings that trigger the
    escalation. *)
Lemma interface_priority_not_urgent (p : Interface.Priority) (issue : Issue) :
  priority issue = Interface.priority_name p ->
  isUrgentOrCritical issue = false.
Proof. intros H. unfold isUrgentOrCritical. rewrite H. by destruct p. Qed.

(** For an issue with a priority of the interface, P0-Critical included,
    every risk of per-issue matching has the default impact of its
    pattern. *)
Lemma impact_is_pattern_default (p : Interface.Priority) (issue : Issue)
    (context : option CodebaseContext) (startId : nat) :
  priority issue = Interface.priority_name p ->
  map (fun r => (category r, impact r))
      (analyzeIssue RISK_PATTERNS issue context startId)
  = map (fun pattern => (patternCategory pattern, defaultImpact pattern))
        (List.filter (fires issue context) RISK_PATTERNS).
Proof.
  intros Hp.
  pose proof (f_equal (map (fun x : string * RiskCategory * RiskImpact =>
                              (x.1.2, x.2)))
                (analyzeIssue_summary RISK_PATTERNS issue context startId)) as H.
  rewrite !map_map in H. simpl in H. rewrite H.
  apply map_ext. intros pattern. unfold adjustedImpact.
  by rewrite (interface_priority_not_urgent p issue Hp).
Qed.

(** C7, the code at the failing input. For the P0-Critical issue the
    breaking-change risk keeps the default impact, medium, where the
    escalation would give high; the escalation is taken only for the
    priority strings "urgent" and "critical", which are no values of the
    interface's [Priority]. *)
Theorem critical_priority_impact_not_escalated :
  map (fun r => (category r, impact r))
      (analyzeIssue RISK_PATTERNS criticalIssue None 1)
  = [(breaking_change, impact_medium)]
  /\ map (fun r => (category r, impact r))
         (analyzeIssue RISK_PATTERNS urgentIssue None 1)
     = [(breaking_change, impact_high)].
Proof. split; vm_compute; reflexivity. Qed.

(** *** The aggregate score *)

(** The normalisation of a total score, as [calculateRiskScore] computes
    it. *)
Definition normalise (total : Z) : Z :=
  Z.min 100
    (JS.roundFloat
       (PrimFloat.mul (PrimFloat.div (JS.number total) (JS.number 240))
                      (JS.number 100))).

(** The score as the formula [min(100, round(100 * total / 240))] gives it
    in exact arithmetic. *)
Definition formulaScore (total : Z) : Z :=
  Z.min 100 (JS.round (inject_Z (100 * total) / inject_Z 240)%Q).

(** The sum of [impactWeight * likelihoodWeight] over the risks. *)
Definition weightedSum (risks : list Risk) : Z :=
  fold_right
    (fun r sum => (impactWeight (impact r) * likelihoodWeight (likelihood r) + sum)%Z)
    0%Z risks.

Definition riskOf (i : RiskImpact) (l : RiskLikelihood) : Risk := {|
  riskId := "RISK-1"; category := timeline; issueId := "r1";
  issueIdentifier := "SMI-20"; riskDescription := ""; likelihood := l;
  impact := i; mitigation := ""; affectedIssues := None;
  suggestedWaveAdjustment := None |}.

(** Seven risks whose weights add up to 5 * 24 + 12 + 6 = 138. *)
Definition risks138 : list Risk :=
  replicate 5 (riskOf impact_critical likelihood_high)
  ++ [riskOf impact_high likelihood_high; riskOf impact_medium likelihood_high].

Lemma calculateRiskScore_normalise (risks : list Risk) :
  calculateRiskScore risks
  = if (length risks =? 0)%nat then 0%Z else normalise (totalScore risks).
Proof. reflexivity. Qed.

Lemma weight_range (r : Risk) :
  (1 <= impactWeight (impact r) * likelihoodWeight (likelihood r) <= 24)%Z.
Proof. destruct (impact r), (likelihood r); simpl; lia. Qed.

Lemma totalScore_fold (risks : list Risk) :
  forall acc : Z,
    fold_left
      (fun totalScore risk =>
         (totalScore
          + impactWeight (impact risk) * likelihoodWeight (likelihood risk))%Z)
      risks acc
    = (acc + weightedSum risks)%Z.
Proof.
  induction risks as [|r risks IH]; intros acc; simpl; [lia|].
  rewrite IH. lia.
Qed.

Lemma totalScore_weightedSum (risks : list Risk) :
  totalScore risks = weightedSum risks.
Proof. unfold totalScore. by rewrite totalScore_fold. Qed.

Lemma weightedSum_nonneg (risks : list Risk) : (0 <= weightedSum risks)%Z.
Proof.
  induction risks as [|r risks IH]; simpl; [lia|].
  pose proof (weight_range r). lia.
Qed.

Lemma weightedSum_snoc (risks : list Risk) (r : Risk) :
  weightedSum (risks ++ [r])
  = (weightedSum risks
     + impactWeight (impact r) * likelihoodWeight (likelihood r))%Z.
Proof. induction risks as [|x risks IH]; simpl; [lia|]. rewrite IH. lia. Qed.

(** Up to the saturation point the binary64 computation agrees with the
    exact formula on every total but 138, stays within 0..100 and does
    not decrease when 1 to 24 is added. *)
Definition tableRow (total : Z) : bool :=
  ((total =? 138) || (normalise total =? formulaScore total))%Z
  && (0 <=? normalise total)%Z && (normalise total <=? 100)%Z
  && forallb (fun w => (normalise total <=? normalise (total + Z.of_nat w))%Z)
             (seq 1 24).

Lemma normalise_table :
  forallb (fun n => tableRow (Z.of_nat n)) (seq 0 241) = true.
Proof. vm_compute. reflexivity. Qed.

Lemma normalise_below_saturation (total : Z) :
  (0 <= total <= 240)%Z ->
  (total <> 138%Z -> normalise total = formulaScore total)
  /\ (0 <= normalise total <= 100)%Z
  /\ (forall w, (1 <= w <= 24)%Z -> (normalise total <= normalise (total + w))%Z).
Proof.
  intros Hrange. pose proof normalise_table as Ht.
  rewrite forallb_forall in Ht.
  specialize (Ht (Z.to_nat total)).
  rewrite Z2Nat.id in Ht by lia.
  assert (Hin : In (Z.to_nat total) (seq 0 241)) by (apply in_seq; lia).
  specialize (Ht Hin). unfold tableRow in Ht.
  apply andb_prop in Ht as [Ht Hmono]. apply andb_prop in Ht as [Ht Hhi].
  apply andb_prop in Ht as [Heq Hlo].
  split_and!.
  - intros Hne. apply orb_prop in Heq as [Heq|Heq]; lia.
  - lia.
  - lia.
  - intros w Hw. rewrite forallb_forall in Hmono.
    specialize (Hmono (Z.to_nat w)). rewrite Z2Nat.id in Hmono by lia.
    assert (Hinw : In (Z.to_nat w) (seq 1 24)) by (apply in_seq; lia).
    specialize (Hmono Hinw). lia.
Qed.

(** Below saturation the score of the code is the formula's, except at
    a total of 138; it lies in 0..100 and appending a risk does not
    decrease it. *)
Lemma calculateRiskScore_below_saturation (risks : list Risk) (r : Risk) :
  (totalScore (risks ++ [r]) <= 240)%Z ->
  (totalScore risks <> 138%Z ->
   calculateRiskScore risks = formulaScore (totalScore risks))
  /\ (0 <= calculateRiskScore risks <= calculateRiskScore (risks ++ [r]))%Z
  /\ (calculateRiskScore (risks ++ [r]) <= 100)%Z.
Proof.
  rewrite !totalScore_weightedSum, weightedSum_snoc. intros Hle.
  pose proof (weightedSum_nonneg risks) as H0.
  pose proof (weight_range r) as Hw.
  destruct (normalise_below_saturation (weightedSum risks) ltac:(lia))
    as (Heq & Hr & Hmono).
  destruct (normalise_below_saturation
              (weightedSum risks
               + impactWeight (impact r) * likelihoodWeight (likelihood r))
              ltac:(lia)) as (_ & Hr' & _).
  specialize (Hmono _ Hw).
  rewrite !calculateRiskScore_normalise, !totalScore_weightedSum,
    weightedSum_snoc, length_app. simpl.
  replace (length risks + 1 =? 0)%nat with false
    by (symmetry; apply Nat.eqb_neq; lia).
  destruct risks as [|x risks]; simpl length.
  - simpl in *. split_and!; try lia. intros _. reflexivity.
  - simpl Nat.eqb. cbv iota. split_and!; first [exact Heq | lia].
Qed.

(** C5, the code at the failing input. For seven risks whose weights add
    up to 138 the code returns 57: in binary64, 138 / 240 is a little
    less than 0.575 and its product with 100 is 57.49999999999999, which
    [Math.round] takes down; the formula [min(100, round(100 * 138 / 240))]
    is [round(57.5) = 58]. *)
Theorem riskScore_at_138 :
  totalScore risks138 = 138%Z
  /\ calculateRiskScore risks138 = 57%Z
  /\ formulaScore (totalScore risks138) = 58%Z
  /\ Prim2SF (PrimFloat.mul (PrimFloat.div (JS.number 138) (JS.number 240))
                            (JS.number 100))
     = S754_finite false 8092405580431359 (-47).
Proof. split_and!; vm_compute; reflexivity. Qed.

End RiskPredictorFacts.

(* ===================================================================== *)
(** ** The risk predictor on issues of the interface: claims              *)
(* ===================================================================== *)

Module RiskPredictorOnInterfaceFacts.
Import RiskPredictor RiskPredictorFacts RiskPredictorOnInterface.

(** Every issue of a list has no label. *)
Definition labelFree (issues : list Interface.Issue) : bool :=
  forallb (fun issue => bool_decide (Interface.labels issue = [])) issues.

Lemma labelFree_Forall issues :
  labelFree issues = true
  <-> Forall (fun issue => Interface.labels issue = []) issues.
Proof.
  unfold labelFree. rewrite forallb_forall, Forall_forall. split.
  - intros H issue Hin. apply list_elem_of_In in Hin.
    exact (bool_decide_eq_true_1 _ (H issue Hin)).
  - intros H issue Hin. apply list_elem_of_In in Hin.
    exact (bool_decide_eq_true_2 _ (H issue Hin)).
Qed.

Lemma labelFree_false issues :
  labelFree issues = false
  <-> exists issue, issue ∈ issues /\ Interface.labels issue <> [].
Proof.
  unfold labelFree. induction issues as [|x issues IH]; simpl.
  - split; [done|]. intros (issue & Hin & _). by inversion Hin.
  - rewrite andb_false_iff, IH. split.
    + intros [Hx|(issue & Hin & Hl)].
      * exists x. split; [by left|]. exact (bool_decide_eq_false_1 _ Hx).
      * exists issue. split; [by right|done].
    + intros (issue & Hin & Hl). apply elem_of_cons in Hin as [->|Hin].
      * left. exact (bool_decide_eq_false_2 _ Hl).
      * right. by exists issue.
Qed.

(** The first loop of the cross-issue pass adds nothing for an issue read
    from the interface: [issue.parentId] is [undefined]. *)
Lemma parentRisk_readIssue seen startId (issues : list Interface.Issue) :
  forall risks,
    fold_left (parentRisk seen startId) (map readIssue issues) risks = risks.
Proof. induction issues as [|issue issues IH]; intros risks; simpl; [done|]. apply IH. Qed.

(** The second loop throws at the first issue that has a label. *)
Lemma labelRisks_TypeError (issues : list Interface.Issue) :
  fold_left RiskPredictorOnInterface.labelRisks issues TypeError
  = @TypeError (list Risk).
Proof. induction issues as [|issue issues IH]; simpl; [done|]. apply IH. Qed.

Lemma labelRisks_fold (issues : list Interface.Issue) (risks : list Risk) :
  fold_left RiskPredictorOnInterface.labelRisks issues (Returned risks)
  = if labelFree issues then Returned risks else TypeError.
Proof.
  unfold labelFree. induction issues as [|issue issues IH]; simpl; [done|].
  destruct (Interface.labels issue) as [|l ls] eqn:Hl.
  - by rewrite bool_decide_eq_true_2.
  - rewrite bool_decide_eq_false_2 by done. simpl. apply labelRisks_TypeError.
Qed.

Lemma analyzeIntegrationRisks_outcome (issues : list Interface.Issue) startId :
  RiskPredictorOnInterface.analyzeIntegrationRisks issues startId
  = if labelFree issues then Returned [] else TypeError.
Proof.
  unfold RiskPredictorOnInterface.analyzeIntegrationRisks. simpl.
  by rewrite parentRisk_readIssue, labelRisks_fold.
Qed.

(** On issues without labels the loops over the labels have no turn
    either. *)
Lemma labelRisks_readIssue seen startId (issues : list Interface.Issue) :
  Forall (fun issue => Interface.labels issue = []) issues ->
  forall risks,
    fold_left (RiskPredictor.labelRisks seen startId) (map readIssue issues) risks
    = risks.
Proof.
  induction 1 as [|issue issues Hl _ IH]; intros risks; simpl; [done|].
  unfold RiskPredictor.labelRisks at 2. simpl. rewrite Hl. simpl. apply IH.
Qed.

Lemma analyzeIntegrationRisks_readIssue (issues : list Interface.Issue) startId :
  labelFree issues = true ->
  RiskPredictor.analyzeIntegrationRisks (map readIssue issues) startId = [].
Proof.
  intros Hfree. apply labelFree_Forall in Hfree.
  unfold RiskPredictor.analyzeIntegrationRisks.
  by rewrite parentRisk_readIssue, labelRisks_readIssue.
Qed.

(** [analyze] on issues of the interface: it throws when an issue has a
    label, and otherwise returns the risks of per-issue matching. *)
Lemma analyze_outcome patterns (issues : list Interface.Issue) contexts :
  RiskPredictorOnInterface.analyze patterns issues contexts
  = if labelFree issues
    then Returned
           (report (fold_left (analyzeStep patterns contexts)
                              (map readIssue issues) ([], 1)).1
                   (map readIssue issues))
    else TypeError.
Proof.
  unfold RiskPredictorOnInterface.analyze.
  destruct (fold_left (analyzeStep patterns contexts) (map readIssue issues)
                      ([], 1)) as [risks n].
  rewrite analyzeIntegrationRisks_outcome.
  destruct (labelFree issues); [|done]. by rewrite app_nil_r.
Qed.

(** The haystack as the claim has it: the lower-case concatenation of the
    title, the description and the labels of the issue, a label being its
    name. *)
Definition claimedContent (issue : Interface.Issue) : string :=
  Text.toLowerCase
    (Interface.title issue +:+ " " +:+ Interface.description issue +:+ " "
     +:+ Text.join " " (map Interface.name (Interface.labels issue))).

(** At least one of the three signals fires on that haystack. *)
Definition claimedFires (issue : Interface.Issue)
    (context : option CodebaseContext) (pattern : RiskPattern) : bool :=
  hasKeyword pattern (claimedContent issue)
  || hasFileMatch pattern (contextFiles context)
  || hasDescriptionMatch pattern (claimedContent issue).

Lemma fires_label_free (issue : Interface.Issue) context pattern :
  Interface.labels issue = [] ->
  fires (readIssue issue) context pattern = claimedFires issue context pattern.
Proof.
  intros Hl. unfold fires, claimedFires, issueContent, claimedContent.
  simpl. by rewrite Hl.
Qed.

(** The code's haystack does not depend on the names of the labels. *)
Lemma issueContent_ignores_label_names (issue : Interface.Issue) :
  issueContent (readIssue issue)
  = Text.toLowerCase
      (Interface.title issue +:+ " " +:+ Interface.description issue +:+ " "
       +:+ Text.join " " (map (fun _ => "[object Object]"%string)
                              (Interface.labels issue))).
Proof. reflexivity. Qed.

(** An issue whose only mention of a webhook is the name of its label. *)
Definition webhookLabel : Interface.Label := {|
  Interface.label_id := "l1"; Interface.name := "webhook";
  Interface.color := None |}.

Definition webhookIssue : Interface.Issue := {|
  Interface.id := "r1"; Interface.identifier := "SMI-20";
  Interface.title := "Polish footer";
  Interface.description := "Align the links";
  Interface.priority := Interface.P2_Medium;
  Interface.labels := [webhookLabel];
  Interface.parent := None; Interface.estimate := None |}.

(** C6, the code at the failing input. On issues of the interface without
    labels and with distinct ids, [analyze] returns, and for every issue
    and every pattern of the risk table its result has exactly one risk of
    the pattern's category for the issue when one of the three signals
    fires on the lower-case text of title, description and labels or on
    the context's file paths, and none otherwise.  For the issue whose
    label is named webhook the keyword signal of the external-dependency
    pattern fires on that text; the code builds the text
    [polish footer align the links [object object]], on which no signal of
    any pattern fires, per-issue matching emits no risk, and [analyze]
    throws. *)
Theorem label_names_not_in_haystack :
  (forall (issues : list Interface.Issue)
          (contexts : gmap string CodebaseContext),
     NoDup (map Interface.id issues) ->
     Forall (fun issue => Interface.labels issue = []) issues ->
     exists result,
       RiskPredictorOnInterface.analyze RISK_PATTERNS issues contexts
       = Returned result
       /\ forall issue pattern,
            issue ∈ issues -> pattern ∈ RISK_PATTERNS ->
            countRisks (Interface.id issue) (patternCategory pattern)
                       (risks result)
            = if claimedFires issue (contexts !! Interface.id issue) pattern
              then 1 else 0)
  /\ (forall (issue : Interface.Issue) (context : option CodebaseContext)
             (startId : nat) (pattern : RiskPattern),
        pattern ∈ RISK_PATTERNS ->
        countRisks (Interface.id issue) (patternCategory pattern)
                   (analyzeIssue RISK_PATTERNS (readIssue issue) context startId)
        = if fires (readIssue issue) context pattern then 1 else 0)
  /\ hasKeyword externalDependencyPattern (claimedContent webhookIssue) = true
  /\ claimedFires webhookIssue None externalDependencyPattern = true
  /\ issueContent (readIssue webhookIssue)
     = "polish footer align the links [object object]"
  /\ Forall (fun pattern => fires (readIssue webhookIssue) None pattern = false)
            RISK_PATTERNS
  /\ analyzeIssue RISK_PATTERNS (readIssue webhookIssue) None 1 = []
  /\ RiskPredictorOnInterface.analyze RISK_PATTERNS [webhookIssue] ∅
     = TypeError.
Proof.
  split_and!.
  - intros issues contexts Hnd Hfree.
    pose proof (proj2 (labelFree_Forall issues) Hfree) as Hlf.
    eexists. split.
    { rewrite analyze_outcome, Hlf. reflexivity. }
    intros issue pattern Hin Hp.
    change (risks (report ?r ?i)) with r.
    rewrite countRisks_keys, analyzeSteps_keys. simpl.
    assert (Hnd' : NoDup (map id (map readIssue issues))).
    { by rewrite map_map. }
    assert (Hin' : readIssue issue ∈ map readIssue issues).
    { apply list_elem_of_fmap. by exists issue. }
    change (Interface.id issue) with (id (readIssue issue)).
    rewrite (filter_own_keys _ _ _ _ _ Hnd' Hin').
    rewrite <- (fires_label_free issue _ pattern).
    + by apply count_fired_pattern; [apply RISK_PATTERNS_NoDup|].
    + rewrite Forall_forall in Hfree. by apply Hfree.
  - intros issue context startId pattern Hp.
    by apply (analyzeIssue_count (readIssue issue)).
  - vm_compute; reflexivity.
  - vm_compute; reflexivity.
  - vm_compute; reflexivity.
  - apply (bool_decide_unpack _). vm_compute. exact I.
  - vm_compute; reflexivity.
  - rewrite analyze_outcome. reflexivity.
Qed.

End RiskPredictorOnInterfaceFacts.

(* ===================================================================== *)
(** ** Further properties of the token estimator                          *)
(* ===================================================================== *)

Module EstimatorProperties.
Import Interface Estimator JSFacts EstimatorFacts.

Lemma round_mono (p q : Q) : (p <= q)%Q -> (JS.round p <= JS.round q)%Z.
Proof.
  intros H. unfold JS.round. apply Qfloor_resp_le.
  apply Qplus_le_compat; [exact H | apply Qle_refl].
Qed.

Lemma round_nonneg (q : Q) : (0 <= q)%Q -> (0 <= JS.round q)%Z.
Proof.
  intros H. change 0%Z with (JS.round 0). by apply round_mono.
Qed.

Lemma inject_Z_nonneg (z : Z) : (0 <= z)%Z -> (0 <= inject_Z z)%Q.
Proof. intros H. change 0%Q with (inject_Z 0). by rewrite <- Zle_Qle. Qed.

Lemma or_default_nonneg (a d : Q) :
  (0 <= a)%Q -> (0 <= d)%Q -> (0 <= JS.or_default a d)%Q.
Proof. intros Ha Hd. unfold JS.or_default. by destruct (Qeq_bool a 0). Qed.

Lemma Qmult_le_nonneg_l (x y z : Q) :
  (x <= y)%Q -> (0 <= z)%Q -> (z * x <= z * y)%Q.
Proof.
  intros Hxy Hz. rewrite (Qmult_comm z x), (Qmult_comm z y).
  by apply Qmult_le_compat_r.
Qed.

(** *** The discount is capped *)

Lemma calculateSharedContextReduction_range (issues : list Issue)
    (contexts : gmap string CodebaseContext) :
  (0 <= calculateSharedContextReduction issues contexts)%Q
  /\ (calculateSharedContextReduction issues contexts <= 1 # 2)%Q.
Proof.
  unfold calculateSharedContextReduction.
  destruct (length issues <? 2)%nat; [split; [apply Qle_refl | discriminate]|].
  destruct (scanIssues issues contexts) as [allFiles sharedFiles].
  destruct (size allFiles =? 0)%nat eqn:E;
    [split; [apply Qle_refl | discriminate]|].
  apply Nat.eqb_neq in E. split.
  - apply Q.min_glb; [|discriminate].
    apply Qmult_le_0_compat; [|discriminate].
    apply Qle_shift_div_l.
    + change 0%Q with (inject_Z 0). rewrite <- Zlt_Qlt. lia.
    + rewrite Qmult_0_l. apply inject_Z_nonneg. lia.
  - eapply Qle_trans; [apply Q.le_min_r | discriminate].
Qed.

Lemma estimateWave_total (cfg : EstimationConfig) (issues : list Issue)
    (contexts : gmap string CodebaseContext) :
  total (estimateWave cfg issues contexts)
  = breakdownSum (breakdown (estimateWave cfg issues contexts)).
Proof.
  unfold estimateWave.
  destruct (fold_left accumulate _ _) as [tb aa].
  unfold breakdownSum. simpl. lia.
Qed.

(** X1. Whatever the issues and contexts, the shared-context discount lies
    between 0 and one half, and the total of the wave is the sum of its
    five components.  When the summed context tokens are not negative,
    the context tokens of the wave are at most that sum and at least half
    of it. *)
Theorem shared_context_discount_capped :
  forall (cfg : EstimationConfig) (issues : list Issue)
         (contexts : gmap string CodebaseContext),
    let discount := calculateSharedContextReduction issues contexts in
    let wave := estimateWave cfg issues contexts in
    let contextSum :=
      sumZ (map (fun e => codebaseContext (breakdown e))
                (estimatesOf cfg issues contexts)) in
    (0 <= discount)%Q /\ (discount <= 1 # 2)%Q
    /\ total wave
       = (codebaseContext (breakdown wave) + implementation (breakdown wave)
          + tests (breakdown wave) + review (breakdown wave)
          + documentation (breakdown wave))%Z
    /\ ((0 <= contextSum)%Z ->
        (codebaseContext (breakdown wave) <= contextSum)%Z
        /\ (contextSum <= 2 * codebaseContext (breakdown wave))%Z).
Proof.
  intros cfg issues contexts discount wave contextSum.
  destruct (calculateSharedContextReduction_range issues contexts) as [H0 H1].
  fold discount in H0, H1.
  split_and!; [done | done | apply estimateWave_total |].
  intros Hsum. unfold wave. rewrite estimateWave_breakdown. simpl.
  fold contextSum discount.
  assert (Hq : (0 <= inject_Z contextSum)%Q) by by apply inject_Z_nonneg.
  split.
  - rewrite <- (round_inject_Z contextSum) at 2. apply round_mono.
    rewrite <- (Qmult_1_r (inject_Z contextSum)) at 2.
    apply Qmult_le_nonneg_l; [|done].
    apply (Qplus_le_l _ _ discount). ring_simplify.
    apply (Qplus_le_l _ _ (-(1))). ring_simplify. exact H0.
  - assert (Hhalf : (JS.round (inject_Z contextSum * (1 # 2))
                     <= JS.round (inject_Z contextSum * (1 - discount)))%Z).
    { apply round_mono. apply Qmult_le_nonneg_l; [|done].
      apply (Qplus_le_l _ _ (discount - (1 # 2))). ring_simplify. exact H1. }
    assert (Hr : JS.round (inject_Z contextSum * (1 # 2))
                 = ((contextSum + 1) / 2)%Z).
    { unfold JS.round.
      assert (He : (inject_Z contextSum * (1 # 2) + (1 # 2)
                    == (contextSum + 1) # 2)%Q).
      { unfold Qeq, Qmult, Qplus, inject_Z. simpl. lia. }
      rewrite He. reflexivity. }
    rewrite Hr in Hhalf.
    pose proof (Z.mul_div_le (contextSum + 1) 2 ltac:(lia)).
    pose proof (Z.mod_pos_bound (contextSum + 1) 2 ltac:(lia)).
    pose proof (Z.div_mod (contextSum + 1) 2 ltac:(lia)). lia.
Qed.

Lemma shared_context_discount_capped_witness :
  (0 <= sumZ (map (fun e => codebaseContext (breakdown e))
                  (estimatesOf DEFAULT_CONFIG [issueA; issueB] twoContexts)))%Z
  /\ (codebaseContext
        (breakdown (estimateWave DEFAULT_CONFIG [issueA; issueB] twoContexts))
      <= 32000)%Z
  /\ (32000 <= 2 * codebaseContext
                     (breakdown (estimateWave DEFAULT_CONFIG [issueA; issueB]
                                   twoContexts)))%Z.
Proof.
  assert (H : (0 <= sumZ (map (fun e => codebaseContext (breakdown e))
                 (estimatesOf DEFAULT_CONFIG [issueA; issueB] twoContexts)))%Z)
    by (vm_compute; discriminate).
  split; [exact H|].
  destruct (shared_context_discount_capped DEFAULT_CONFIG [issueA; issueB]
              twoContexts) as (_ & _ & _ & Hb).
  exact (Hb H).
Defined.

(** *** Estimates are not negative *)

(** A configuration without negative multipliers or weights. *)
Definition nonnegConfig (cfg : EstimationConfig) : Prop :=
  (0 <= contextExpansion (multipliers cfg))%Q
  /\ (0 <= testOverhead (multipliers cfg))%Q
  /\ (0 <= reviewOverhead (multipliers cfg))%Q
  /\ (0 <= documentationShare (multipliers cfg))%Q
  /\ (forall c, 0 <= complexityWeight cfg c)%Q
  /\ (forall p, 0 <= priorityWeight cfg p)%Q
  /\ (0 <= reviewCycles cfg)%Q.

(** A context without negative line counts. *)
Definition nonnegContext (ctx : CodebaseContext) : Prop :=
  (0 <= totalLines ctx)%Z
  /\ Forall (fun f => 0 <= lines f)%Z (filesLikelyTouched ctx)
  /\ Forall (fun f => 0 <= lines f)%Z (relatedFiles ctx).

Lemma DEFAULT_CONFIG_nonneg : nonnegConfig DEFAULT_CONFIG.
Proof.
  unfold nonnegConfig. simpl. split_and!; try discriminate.
  - intros []; discriminate.
  - intros []; discriminate.
Qed.

Lemma lineTokens_fold_nonneg (files : list FileInfo) :
  Forall (fun f => 0 <= lines f)%Z files ->
  forall acc : Z,
    (0 <= acc)%Z ->
    (0 <= fold_left (fun sum f => sum + lines f * TOKENS_PER_LINE) files acc)%Z.
Proof.
  induction 1 as [|f files Hf _ IH]; intros acc Hacc; simpl; [done|].
  apply IH. unfold TOKENS_PER_LINE. lia.
Qed.

Lemma lineTokens_nonneg (files : list FileInfo) :
  Forall (fun f => 0 <= lines f)%Z files -> (0 <= lineTokens files)%Z.
Proof. intros H. by apply lineTokens_fold_nonneg. Qed.

(** X2. With a configuration that has no negative multiplier and a context
    that has no negative line count, no component of [estimate] is
    negative and the total is at least the 5,000 of base overhead. *)
Theorem estimate_nonnegative :
  forall (cfg : EstimationConfig) (issue : Issue) (ctx : CodebaseContext),
    nonnegConfig cfg ->
    nonnegContext ctx ->
    let b := breakdown (estimate cfg issue ctx) in
    (0 <= codebaseContext b)%Z /\ (0 <= implementation b)%Z
    /\ (0 <= tests b)%Z /\ (0 <= review b)%Z /\ (0 <= documentation b)%Z
    /\ (5000 <= total (estimate cfg issue ctx))%Z.
Proof.
  intros cfg issue ctx (Hce & Hto & Hro & Hdo & Hcw & Hpw & Hrc)
         (Hlines & Htouched & Hrelated) b.
  assert (Hctx : (0 <= codebaseContext b)%Z).
  { unfold b, estimate. simpl.
    pose proof (lineTokens_nonneg _ Htouched).
    assert (0 <= JS.round (inject_Z (lineTokens (relatedFiles ctx))
                           * contextExpansion (multipliers cfg)))%Z; [|lia].
    apply round_nonneg, Qmult_le_0_compat; [|done].
    by apply inject_Z_nonneg, lineTokens_nonneg. }
  assert (Himpl : (0 <= implementation b)%Z).
  { unfold b, estimate. simpl. apply round_nonneg.
    repeat apply Qmult_le_0_compat; try done.
    - apply inject_Z_nonneg. unfold TOKENS_PER_LINE. lia.
    - by apply or_default_nonneg. }
  assert (Htests : (0 <= tests b)%Z).
  { unfold b, estimate. simpl. apply round_nonneg, Qmult_le_0_compat; [|done].
    by apply inject_Z_nonneg. }
  assert (Hreview : (0 <= review b)%Z).
  { unfold b, estimate. simpl. apply round_nonneg.
    repeat apply Qmult_le_0_compat; try done.
    apply inject_Z_nonneg. unfold b, estimate in Himpl, Htests. simpl in *. lia. }
  assert (Hdoc : (0 <= documentation b)%Z).
  { unfold b, estimate. simpl. apply round_nonneg, Qmult_le_0_compat; [|done].
    by apply inject_Z_nonneg. }
  split_and!; try done.
  rewrite estimate_total. unfold BASE_OVERHEAD, breakdownSum. fold b. lia.
Qed.

Lemma estimate_nonnegative_witness :
  (nonnegConfig DEFAULT_CONFIG /\ nonnegContext scenarioContext)
  /\ (5000 <= total (estimate DEFAULT_CONFIG scenarioIssue scenarioContext))%Z.
Proof.
  assert (Hc : nonnegContext scenarioContext).
  { unfold nonnegContext. simpl. split_and!; [lia | constructor | constructor]. }
  split; [split; [exact DEFAULT_CONFIG_nonneg | exact Hc]|].
  apply (estimate_nonnegative DEFAULT_CONFIG scenarioIssue scenarioContext
           DEFAULT_CONFIG_nonneg Hc).
Defined.

(** *** The order of the issues does not matter *)

(** How often [p] occurs in a list of paths. *)
Definition occurrencesIn (p : string) (paths : list string) : nat :=
  count_occ String.string_dec paths p.

Lemma scanFiles_app (l1 l2 : list string) (st : gset string * gset string) :
  scanFiles (l1 ++ l2) st = scanFiles l2 (scanFiles l1 st).
Proof. unfold scanFiles. apply fold_left_app. Qed.

Lemma scanIssues_flat (issues : list Issue)
    (contexts : gmap string CodebaseContext) :
  scanIssues issues contexts
  = scanFiles (flat_map (filesOf contexts) issues) (∅, ∅).
Proof.
  rewrite scanIssues_filesOf.
  generalize ((∅, ∅) : gset string * gset string).
  induction issues as [|i issues IH]; intros st; simpl; [done|].
  by rewrite scanFiles_app, IH.
Qed.

Lemma occurrencesIn_elem (p : string) (paths : list string) :
  p ∈ paths <-> 1 <= occurrencesIn p paths.
Proof.
  unfold occurrencesIn. rewrite list_elem_of_In.
  rewrite (count_occ_In String.string_dec). lia.
Qed.

(** The scan of a list of paths: every path is recorded, and a path is
    shared when it was known before or occurs twice. *)
Lemma scanFiles_general (paths : list string) :
  forall a s : gset string,
    (scanFiles paths (a, s)).1 = list_to_set paths ∪ a
    /\ forall p,
         p ∈ (scanFiles paths (a, s)).2
         <-> p ∈ s \/ (p ∈ paths /\ p ∈ a) \/ 2 <= occurrencesIn p paths.
Proof.
  induction paths as [|f paths IH]; intros a s.
  - unfold scanFiles, occurrencesIn. simpl. split; [set_solver|].
    intros p. split; [by left|]. intros [H|[[H _]|H]]; [done | inversion H | lia].
  - rewrite scanFiles_cons.
    destruct (IH ({[f]} ∪ a) (if bool_decide (f ∈ a) then {[f]} ∪ s else s))
      as [Ha Hs].
    split; [rewrite Ha; set_solver|].
    intros p. rewrite Hs. clear Hs Ha IH.
    rewrite elem_of_cons, !occurrencesIn_elem.
    assert (Hc : occurrencesIn p (f :: paths)
                 = ((if decide (f = p) then 1 else 0)
                    + occurrencesIn p paths)%nat).
    { unfold occurrencesIn. simpl.
      destruct (String.string_dec f p); case_decide; try done. }
    rewrite Hc. clear Hc.
    rewrite elem_of_union, elem_of_singleton.
    case_bool_decide as Hfa; case_decide as Hfp;
      rewrite ?elem_of_union, ?elem_of_singleton; naive_solver lia.
Qed.

Lemma scanIssues_Permutation (issues issues' : list Issue)
    (contexts : gmap string CodebaseContext) :
  issues ≡ₚ issues' ->
  scanIssues issues contexts = scanIssues issues' contexts.
Proof.
  intros Hp. rewrite !scanIssues_flat.
  assert (HL : flat_map (filesOf contexts) issues
               ≡ₚ flat_map (filesOf contexts) issues')
    by by apply Permutation_flat_map.
  destruct (scanFiles_general (flat_map (filesOf contexts) issues) ∅ ∅)
    as [Ha Hs].
  destruct (scanFiles_general (flat_map (filesOf contexts) issues') ∅ ∅)
    as [Ha' Hs'].
  destruct (scanFiles _ _) as [a s], (scanFiles _ _) as [a' s']. simpl in *.
  f_equal.
  - rewrite Ha, Ha'. apply set_eq. intros p.
    rewrite !elem_of_union, !elem_of_list_to_set. by rewrite HL.
  - apply set_eq. intros p. rewrite Hs, Hs'.
    unfold occurrencesIn.
    rewrite (Permutation_count_occ String.string_dec) in HL.
    rewrite (HL p). set_solver.
Qed.

Lemma sumZ_Permutation (l l' : list Z) : l ≡ₚ l' -> sumZ l = sumZ l'.
Proof. induction 1; simpl; lia. Qed.

Lemma fold_left_add_sumZ (l : list Z) (acc : Z) :
  fold_left Z.add l acc = (acc + sumZ l)%Z.
Proof. revert acc. induction l as [|x l IH]; intros acc; simpl; [lia|]. rewrite IH. lia. Qed.

Lemma aggregateConfidence_Permutation (es es' : list TokenEstimate) :
  es ≡ₚ es' -> aggregateConfidence es = aggregateConfidence es'.
Proof.
  intros Hp. unfold aggregateConfidence.
  rewrite !fold_left_add_sumZ, !length_map.
  rewrite (Permutation_length Hp).
  by rewrite (sumZ_Permutation _ _ (Permutation_map _ Hp)).
Qed.

Lemma filesAnalyzed_fold (es : list TokenEstimate) (acc : nat) :
  fold_left (fun sum e => (sum + filesAnalyzed e)%nat) es acc
  = (acc + foldr (fun e sum => filesAnalyzed e + sum) 0 es)%nat.
Proof.
  revert acc. induction es as [|e es IH]; intros acc; simpl; [lia|].
  rewrite IH. lia.
Qed.

Lemma filesAnalyzed_Permutation (es es' : list TokenEstimate) :
  es ≡ₚ es' ->
  fold_left (fun sum e => (sum + filesAnalyzed e)%nat) es 0
  = fold_left (fun sum e => (sum + filesAnalyzed e)%nat) es' 0.
Proof.
  intros Hp. rewrite !filesAnalyzed_fold. f_equal.
  induction Hp; simpl; lia.
Qed.

(** X3. [estimateWave] does not depend on the order of the issues: for two
    lists that are permutations of each other the discount, the breakdown,
    the total, the confidence and the number of files analysed are the
    same (only the order of the assumptions can differ). *)
Theorem estimateWave_order_independent :
  forall (cfg : EstimationConfig) (issues issues' : list Issue)
         (contexts : gmap string CodebaseContext),
    issues ≡ₚ issues' ->
    calculateSharedContextReduction issues contexts
    = calculateSharedContextReduction issues' contexts
    /\ breakdown (estimateWave cfg issues contexts)
       = breakdown (estimateWave cfg issues' contexts)
    /\ total (estimateWave cfg issues contexts)
       = total (estimateWave cfg issues' contexts)
    /\ confidence (estimateWave cfg issues contexts)
       = confidence (estimateWave cfg issues' contexts)
    /\ filesAnalyzed (estimateWave cfg issues contexts)
       = filesAnalyzed (estimateWave cfg issues' contexts).
Proof.
  intros cfg issues issues' contexts Hp.
  assert (Hd : calculateSharedContextReduction issues contexts
               = calculateSharedContextReduction issues' contexts).
  { unfold calculateSharedContextReduction.
    by rewrite (Permutation_length Hp), (scanIssues_Permutation _ _ _ Hp). }
  assert (He : estimatesOf cfg issues contexts ≡ₚ estimatesOf cfg issues' contexts)
    by by apply Permutation_map.
  assert (Hb : breakdown (estimateWave cfg issues contexts)
               = breakdown (estimateWave cfg issues' contexts)).
  { rewrite !estimateWave_breakdown, Hd.
    by rewrite !(sumZ_Permutation _ _ (Permutation_map _ He)). }
  split_and!; [exact Hd | exact Hb | | |].
  - by rewrite !estimateWave_total, Hb.
  - unfold estimateWave. fold (estimatesOf cfg issues contexts).
    fold (estimatesOf cfg issues' contexts).
    destruct (fold_left accumulate (estimatesOf cfg issues contexts) _),
      (fold_left accumulate (estimatesOf cfg issues' contexts) _). simpl.
    by apply aggregateConfidence_Permutation.
  - unfold estimateWave. fold (estimatesOf cfg issues contexts).
    fold (estimatesOf cfg issues' contexts).
    destruct (fold_left accumulate (estimatesOf cfg issues contexts) _),
      (fold_left accumulate (estimatesOf cfg issues' contexts) _). simpl.
    by apply filesAnalyzed_Permutation.
Qed.

Lemma estimateWave_order_independent_witness :
  [issueA; issueB] ≡ₚ [issueB; issueA]
  /\ total (estimateWave DEFAULT_CONFIG [issueA; issueB] twoContexts)
     = total (estimateWave DEFAULT_CONFIG [issueB; issueA] twoContexts).
Proof.
  assert (Hp : [issueA; issueB] ≡ₚ [issueB; issueA]) by apply perm_swap.
  split; [exact Hp|].
  apply (estimateWave_order_independent DEFAULT_CONFIG _ _ twoContexts Hp).
Defined.

(** X4. The scan of [calculateSharedContextReduction] records as shared
    exactly the paths that occur at least twice in the path lists of the
    contexts taken together, in one context or in several: a path listed
    both as touched and as related by a single issue counts as shared. *)
Theorem shared_files_are_repeated_paths :
  forall (issues : list Issue) (contexts : gmap string CodebaseContext),
    let paths := flat_map (filesOf contexts) issues in
    (scanIssues issues contexts).1 = list_to_set paths
    /\ forall p,
         p ∈ (scanIssues issues contexts).2 <-> 2 <= occurrencesIn p paths.
Proof.
  intros issues contexts paths. rewrite scanIssues_flat. fold paths.
  destruct (scanFiles_general paths ∅ ∅) as [Ha Hs]. split.
  - rewrite Ha. set_solver.
  - intros p. rewrite Hs. set_solver.
Qed.

(** *** Confidence *)

(** X5. [calculateConfidence] is high only for an issue with at least one
    touched file and a description of more than 50 characters, and it is
    low whenever the context has no touched file and the description has
    at most 50 characters. *)
Theorem confidence_needs_files_and_description :
  forall (issue : Issue) (ctx : CodebaseContext),
    (calculateConfidence issue ctx = conf_high ->
     1 <= length (filesLikelyTouched ctx)
     /\ 50 < String.length (description issue))
    /\ (length (filesLikelyTouched ctx) = 0 ->
        String.length (description issue) <= 50 ->
        calculateConfidence issue ctx = conf_low).
Proof.
  intros issue ctx. unfold calculateConfidence.
  destruct (3 <=? length (filesLikelyTouched ctx))%nat eqn:E3;
    destruct (1 <=? length (filesLikelyTouched ctx))%nat eqn:E1;
    destruct (200 <? String.length (description issue))%nat eqn:D2;
    destruct (50 <? String.length (description issue))%nat eqn:D1;
    destruct (2 <=? length (labels issue))%nat;
    destruct (truthy_number (Interface.estimate issue));
    simpl;
    repeat match goal with
           | H : (_ <=? _)%nat = true |- _ => apply Nat.leb_le in H
           | H : (_ <=? _)%nat = false |- _ => apply Nat.leb_gt in H
           | H : (_ <? _)%nat = true |- _ => apply Nat.ltb_lt in H
           | H : (_ <? _)%nat = false |- _ => apply Nat.ltb_ge in H
           end;
    split; intros; try discriminate; try done; try lia.
Qed.

Lemma confidence_needs_files_and_description_witness :
  (length (filesLikelyTouched createEmptyContext) = 0
   /\ String.length (description scenarioIssue) <= 50)
  /\ calculateConfidence scenarioIssue createEmptyContext = conf_low.
Proof.
  assert (H1 : length (filesLikelyTouched createEmptyContext) = 0)
    by reflexivity.
  assert (H2 : String.length (description scenarioIssue) <= 50)
    by (simpl; lia).
  split; [by split|].
  exact (proj2 (confidence_needs_files_and_description scenarioIssue
                  createEmptyContext) H1 H2).
Defined.

Definition confidenceScore (c : Confidence) : Z :=
  match c with conf_high => 3 | conf_medium => 2 | conf_low => 1 end.

Lemma sumZ_constant (k : Z) (l : list Z) :
  Forall (fun x => x = k) l -> sumZ l = (k * Z.of_nat (length l))%Z.
Proof. induction 1 as [|x l -> _ IH]; simpl length; simpl sumZ; [lia|]. rewrite IH. lia. Qed.

(** X6. When all estimates of a non-empty list have the same confidence,
    [aggregateConfidence] returns that confidence. *)
Theorem aggregateConfidence_uniform :
  forall (c : Confidence) (estimates : list TokenEstimate),
    estimates <> [] ->
    Forall (fun e => confidence e = c) estimates ->
    aggregateConfidence estimates = c.
Proof.
  intros c estimates Hne Hall. unfold aggregateConfidence.
  rewrite fold_left_add_sumZ, length_map.
  rewrite (sumZ_constant (confidenceScore c)).
  2:{ apply Forall_fmap. eapply Forall_impl; [exact Hall|].
      simpl. intros e ->. by destruct c. }
  rewrite length_map.
  destruct estimates as [|e estimates]; [done|].
  set (n := length (e :: estimates)).
  assert (Hn : (0 < Z.of_nat n)%Z) by (unfold n; simpl; lia).
  unfold JS.div_length. change (length (e :: estimates)) with n.
  assert (Havg : (inject_Z (0 + confidenceScore c * Z.of_nat n)
                  / inject_Z (Z.of_nat n) == inject_Z (confidenceScore c))%Q).
  { rewrite Z.add_0_l, inject_Z_mult. field.
    intros H0. unfold Qeq, inject_Z in H0. simpl in H0. lia. }
  destruct n as [|n]; [simpl in Hn; lia|].
  unfold JS.ge_nan.
  assert (Hcmp : forall t,
            Qle_bool t (inject_Z (0 + confidenceScore c * Z.of_nat (S n))
                        / inject_Z (Z.of_nat (S n)))
            = Qle_bool t (inject_Z (confidenceScore c))).
  { intros t. destruct (Qle_bool t (inject_Z (confidenceScore c))) eqn:E.
    - apply Qle_bool_iff. rewrite Havg. by apply Qle_bool_iff.
    - apply not_true_is_false. intros E'.
      apply Qle_bool_iff in E'. rewrite Havg in E'.
      apply Qle_bool_iff in E'. congruence. }
  rewrite !Hcmp. by destruct c.
Qed.

Lemma aggregateConfidence_uniform_witness :
  aggregateConfidence
    [estimate DEFAULT_CONFIG scenarioIssue scenarioContext;
     estimate DEFAULT_CONFIG scenarioIssue createEmptyContext]
  = conf_low.
Proof.
  apply aggregateConfidence_uniform; [discriminate|].
  repeat constructor.
Defined.

End EstimatorProperties.

(* ===================================================================== *)
(** ** Further properties of the wave organizer                           *)
(* ===================================================================== *)

Module OrganizerProperties.
Import Interface Estimator Organizer OrganizerFacts.

(** *** What the waves of [organize] are made of *)

(** The sub-groups from which [organize] makes its waves, in order. *)
Definition subGroupsOf (cfg : OrganizerConfig) (ecfg : EstimationConfig)
    (issues : list Issue) (contexts : gmap string CodebaseContext)
  : list WaveGroup :=
  let groups := groupByContext cfg issues (calculateOverlapMatrix issues contexts) in
  flat_map (fun group => splitGroupIfNeeded cfg ecfg group contexts)
           (if respectDependencies cfg then orderByDependencies groups issues
            else groups).

Lemma waveFold_estimates ecfg contexts (subGroups : list WaveGroup) :
  forall (waves : list WaveBody) (waveNumber : nat),
    map (fun w => (Organizer.issues w, tokenEstimate w))
        (fold_left (waveStep ecfg contexts) subGroups (waves, waveNumber)).1
    = map (fun w => (Organizer.issues w, tokenEstimate w)) waves
      ++ map (fun g => (groupIssues g, estimateWave ecfg (groupIssues g) contexts))
             subGroups.
Proof.
  induction subGroups as [|g subGroups IH]; intros waves n; simpl.
  - by rewrite app_nil_r.
  - rewrite IH, map_app. simpl. by rewrite <- app_assoc.
Qed.

(** Every wave is one sub-group, with the wave estimate of its issues. *)
Lemma organize_waves cfg ecfg issues contexts :
  map (fun w => (Organizer.issues (body w), tokenEstimate (body w)))
      (organize cfg ecfg issues contexts)
  = map (fun g => (groupIssues g, estimateWave ecfg (groupIssues g) contexts))
        (subGroupsOf cfg ecfg issues contexts).
Proof.
  rewrite <- (map_map body (fun w => (Organizer.issues w, tokenEstimate w))).
  rewrite organize_bodies.
  destruct (length issues =? 0)%nat eqn:E.
  - apply Nat.eqb_eq, length_zero_iff_nil in E. subst.
    unfold subGroupsOf. by destruct (respectDependencies cfg).
  - unfold groupsToWaves, subGroupsOf.
    rewrite (fold_left_flat_map (waveStep ecfg contexts)
               (fun group => splitGroupIfNeeded cfg ecfg group contexts)).
    by rewrite waveFold_estimates.
Qed.

Lemma Forall_organize_waves cfg ecfg issues contexts
    (P : list Issue -> TokenEstimate -> Prop) :
  Forall (fun g => P (groupIssues g) (estimateWave ecfg (groupIssues g) contexts))
         (subGroupsOf cfg ecfg issues contexts) ->
  Forall (fun w => P (Organizer.issues (body w)) (tokenEstimate (body w)))
         (organize cfg ecfg issues contexts).
Proof.
  intros H.
  assert (H' : Forall (fun x : list Issue * TokenEstimate => P x.1 x.2)
                 (map (fun w => (Organizer.issues (body w), tokenEstimate (body w)))
                      (organize cfg ecfg issues contexts))).
  { rewrite organize_waves. apply Forall_fmap. exact H. }
  apply Forall_fmap in H'. exact H'.
Qed.

(** Every group of [groupByContext] holds its seed. *)
Lemma groupFold_nonempty cfg overlapMatrix sortedIssues (rest : list Issue) :
  forall st : list WaveGroup * gset string,
    (forall x, x ∈ rest -> x ∈ sortedIssues) ->
    Forall (fun g => groupIssues g <> []) st.1 ->
    Forall (fun g => groupIssues g <> [])
           (fold_left (groupStep cfg overlapMatrix sortedIssues) rest st).1.
Proof.
  induction rest as [|x rest IH]; intros [groups assigned] Hin Hall; simpl;
    [done|].
  apply IH; [intros y Hy; apply Hin; by right|].
  unfold groupStep. case_bool_decide as Ha; [done|]. simpl.
  apply Forall_app. split; [done|]. apply Forall_singleton. simpl.
  assert (Hx : x ∈ List.filter (isSimilar cfg overlapMatrix assigned x)
                               sortedIssues).
  { apply elem_of_filter_bool. split; [apply Hin; by left|].
    unfold isSimilar. rewrite bool_decide_eq_false_2 by done.
    by rewrite bool_decide_eq_true_2. }
  intros Hnil. rewrite Hnil in Hx. by inversion Hx.
Qed.

Lemma groupByContext_nonempty cfg issues overlapMatrix :
  Forall (fun g => groupIssues g <> []) (groupByContext cfg issues overlapMatrix).
Proof.
  unfold groupByContext. by apply groupFold_nonempty.
Qed.

Lemma Forall_subGroupsOf cfg ecfg issues contexts (P : WaveGroup -> Prop) :
  (forall group, groupIssues group <> [] ->
     Forall P (splitGroupIfNeeded cfg ecfg group contexts)) ->
  Forall P (subGroupsOf cfg ecfg issues contexts).
Proof.
  intros Hsplit. unfold subGroupsOf.
  set (groups := groupByContext cfg issues _).
  assert (Hne : Forall (fun g => groupIssues g <> [])
                  (if respectDependencies cfg
                   then orderByDependencies groups issues else groups)).
  { destruct (respectDependencies cfg);
      [rewrite orderByDependencies_Permutation|];
      apply groupByContext_nonempty. }
  induction Hne as [|g gs Hg _ IH]; simpl; [constructor|].
  apply Forall_app. split; [by apply Hsplit | exact IH].
Qed.

(** *** Size and budget of a wave *)

(** The estimate of one issue on its own, as the splitting loop takes it. *)
Definition issueTotal (ecfg : EstimationConfig)
    (contexts : gmap string CodebaseContext) (issue : Issue) : Z :=
  total (estimate ecfg issue (default createEmptyContext (contexts !! id issue))).

(** The sum of the issues' own estimates. *)
Definition issueTotals (ecfg : EstimationConfig)
    (contexts : gmap string CodebaseContext) (issues : list Issue) : Z :=
  EstimatorFacts.sumZ (map (issueTotal ecfg contexts) issues).

Lemma issueTotals_snoc ecfg contexts issues issue :
  issueTotals ecfg contexts (issues ++ [issue])
  = (issueTotals ecfg contexts issues + issueTotal ecfg contexts issue)%Z.
Proof.
  unfold issueTotals. induction issues as [|x issues IH]; simpl; [lia|].
  rewrite IH. lia.
Qed.

Lemma splitStep_unfold cfg ecfg contexts group subGroups currentIssues tokens issue :
  splitStep cfg ecfg contexts group (subGroups, currentIssues, tokens) issue
  = if (maxIssuesPerWave cfg <=? Z.of_nat (length currentIssues))%Z
       || ((tokenBudgetPerWave cfg <? tokens + issueTotal ecfg contexts issue)%Z
           && (0 <? length currentIssues)%nat)
    then (subGroups ++ [{| groupIssues := currentIssues; sharedFiles := ∅;
                           similarity := similarity group |}],
          [issue], (0 + issueTotal ecfg contexts issue)%Z)
    else (subGroups, currentIssues ++ [issue],
          (tokens + issueTotal ecfg contexts issue)%Z).
Proof. unfold splitStep, issueTotal. by destruct (_ || _). Qed.

(** The size invariant of the splitting loop. *)
Lemma splitFold_sizes cfg ecfg contexts group (rest : list Issue) :
  (1 <= maxIssuesPerWave cfg)%Z ->
  forall subGroups currentIssues tokens,
    Forall (fun g => 1 <= length (groupIssues g)
                     /\ (Z.of_nat (length (groupIssues g))
                         <= maxIssuesPerWave cfg)%Z) subGroups ->
    (Z.of_nat (length currentIssues) <= maxIssuesPerWave cfg)%Z ->
    let st' := fold_left (splitStep cfg ecfg contexts group) rest
                         (subGroups, currentIssues, tokens) in
    Forall (fun g => 1 <= length (groupIssues g)
                     /\ (Z.of_nat (length (groupIssues g))
                         <= maxIssuesPerWave cfg)%Z) st'.1.1
    /\ (Z.of_nat (length st'.1.2) <= maxIssuesPerWave cfg)%Z.
Proof.
  intros Hmax. induction rest as [|x rest IH];
    intros subGroups currentIssues tokens Hsg Hcur; [by simpl|].
  cbv zeta. cbn [fold_left]. rewrite splitStep_unfold.
  destruct (_ || _) eqn:Hflush.
  - apply IH; [|simpl; lia].
    apply Forall_app. split; [done|]. apply Forall_singleton. simpl.
    split; [|done].
    apply orb_true_iff in Hflush as [H|H].
    + apply Z.leb_le in H. lia.
    + apply andb_true_iff in H as [_ H]. apply Nat.ltb_lt in H. lia.
  - apply IH; [done|].
    apply orb_false_iff in Hflush as [H _]. apply Z.leb_gt in H.
    rewrite length_app. simpl. lia.
Qed.

(** The budget invariant of the splitting loop. *)
Lemma splitFold_budget cfg ecfg contexts group (rest : list Issue) :
  forall subGroups currentIssues tokens,
    Forall (fun g => length (groupIssues g) <= 1
                     \/ (issueTotals ecfg contexts (groupIssues g)
                         <= tokenBudgetPerWave cfg)%Z) subGroups ->
    tokens = issueTotals ecfg contexts currentIssues ->
    (length currentIssues <= 1 \/ (tokens <= tokenBudgetPerWave cfg)%Z) ->
    let st' := fold_left (splitStep cfg ecfg contexts group) rest
                         (subGroups, currentIssues, tokens) in
    Forall (fun g => length (groupIssues g) <= 1
                     \/ (issueTotals ecfg contexts (groupIssues g)
                         <= tokenBudgetPerWave cfg)%Z) st'.1.1
    /\ (length st'.1.2 <= 1
        \/ (issueTotals ecfg contexts st'.1.2 <= tokenBudgetPerWave cfg)%Z).
Proof.
  induction rest as [|x rest IH];
    intros subGroups currentIssues tokens Hsg Htok Hcur.
  - simpl. subst tokens. by split.
  - cbv zeta. cbn [fold_left]. rewrite splitStep_unfold.
    destruct (_ || _) eqn:Hflush.
    + apply IH.
      * apply Forall_app. split; [done|]. apply Forall_singleton. simpl.
        by subst tokens.
      * unfold issueTotals. simpl. lia.
      * left. simpl. lia.
    + apply IH; [done | by rewrite issueTotals_snoc, Htok |].
      apply orb_false_iff in Hflush as [_ H].
      apply andb_false_iff in H as [H|H].
      * right. apply Z.ltb_ge in H. lia.
      * left. apply Nat.ltb_ge in H. rewrite length_app. simpl. lia.
Qed.

Lemma splitGroupIfNeeded_sizes cfg ecfg group contexts :
  (1 <= maxIssuesPerWave cfg)%Z ->
  groupIssues group <> [] ->
  Forall (fun g => 1 <= length (groupIssues g)
                   /\ (Z.of_nat (length (groupIssues g))
                       <= maxIssuesPerWave cfg)%Z)
         (splitGroupIfNeeded cfg ecfg group contexts).
Proof.
  intros Hmax Hne. unfold splitGroupIfNeeded.
  destruct (_ && _) eqn:Hfits.
  - apply Forall_singleton. apply andb_true_iff in Hfits as [H _].
    apply Z.leb_le in H. split; [|done].
    destruct (groupIssues group); [done | simpl; lia].
  - pose proof (splitFold_sizes cfg ecfg contexts group (groupIssues group)
                  Hmax [] [] 0%Z ltac:(constructor) ltac:(simpl; lia)) as [H1 H2].
    destruct (fold_left _ _ _) as [[subGroups currentIssues] tokens].
    simpl in *. destruct (0 <? length currentIssues)%nat eqn:E; [|done].
    apply Nat.ltb_lt in E.
    apply Forall_app. split; [done|]. apply Forall_singleton. simpl. lia.
Qed.

Lemma splitGroupIfNeeded_budget cfg ecfg group contexts :
  Forall (fun g => length (groupIssues g) <= 1
                   \/ (issueTotals ecfg contexts (groupIssues g)
                       <= tokenBudgetPerWave cfg)%Z
                   \/ (total (estimateWave ecfg (groupIssues g) contexts)
                       <= tokenBudgetPerWave cfg)%Z)
         (splitGroupIfNeeded cfg ecfg group contexts).
Proof.
  unfold splitGroupIfNeeded.
  destruct (_ && _) eqn:Hfits.
  - apply Forall_singleton. apply andb_true_iff in Hfits as [_ H].
    apply Z.leb_le in H. by right; right.
  - pose proof (splitFold_budget cfg ecfg contexts group (groupIssues group)
                  [] [] 0%Z ltac:(constructor) ltac:(reflexivity)
                  ltac:(left; simpl; lia)) as [H1 H2].
    destruct (fold_left _ _ _) as [[subGroups currentIssues] tokens].
    simpl in *.
    assert (H1' : Forall (fun g => length (groupIssues g) <= 1
                   \/ (issueTotals ecfg contexts (groupIssues g)
                       <= tokenBudgetPerWave cfg)%Z
                   \/ (total (estimateWave ecfg (groupIssues g) contexts)
                       <= tokenBudgetPerWave cfg)%Z) subGroups).
    { eapply Forall_impl; [exact H1|]. simpl. tauto. }
    destruct (0 <? length currentIssues)%nat; [|done].
    apply Forall_app. split; [done|]. apply Forall_singleton. simpl. tauto.
Qed.

(** X7. When [maxIssuesPerWave] is at least 1, every wave of [organize]
    has at least one issue and at most [maxIssuesPerWave] issues. *)
Theorem organize_wave_sizes :
  forall (cfg : OrganizerConfig) (ecfg : EstimationConfig)
         (issues : list Issue) (contexts : gmap string CodebaseContext),
    (1 <= maxIssuesPerWave cfg)%Z ->
    Forall (fun w => 1 <= length (Organizer.issues (body w))
                     /\ (Z.of_nat (length (Organizer.issues (body w)))
                         <= maxIssuesPerWave cfg)%Z)
           (organize cfg ecfg issues contexts).
Proof.
  intros cfg ecfg issues contexts Hmax.
  apply (Forall_organize_waves cfg ecfg issues contexts
           (fun l _ => 1 <= length l
                       /\ (Z.of_nat (length l) <= maxIssuesPerWave cfg)%Z)).
  apply Forall_subGroupsOf. intros group Hne.
  by apply splitGroupIfNeeded_sizes.
Qed.

Lemma organize_wave_sizes_witness :
  (1 <= maxIssuesPerWave DEFAULT_ORGANIZER_CONFIG)%Z
  /\ Forall (fun w => 1 <= length (Organizer.issues (body w))
                      /\ (Z.of_nat (length (Organizer.issues (body w)))
                          <= 5)%Z)
            (organize DEFAULT_ORGANIZER_CONFIG DEFAULT_CONFIG threeIssues
               EstimatorFacts.twoContexts).
Proof.
  assert (H : (1 <= maxIssuesPerWave DEFAULT_ORGANIZER_CONFIG)%Z)
    by (simpl; lia).
  split; [exact H|].
  exact (organize_wave_sizes DEFAULT_ORGANIZER_CONFIG DEFAULT_CONFIG threeIssues
           EstimatorFacts.twoContexts H).
Defined.

(** X8. Every wave of [organize] with more than one issue is within the
    token budget, either by its wave estimate (a group that was not
    split) or by the sum of its issues' own estimates (a sub-group of a
    split); only a wave of a single issue can exceed it. *)
Theorem organize_wave_budget :
  forall (cfg : OrganizerConfig) (ecfg : EstimationConfig)
         (issues : list Issue) (contexts : gmap string CodebaseContext),
    Forall (fun w =>
              length (Organizer.issues (body w)) <= 1
              \/ (issueTotals ecfg contexts (Organizer.issues (body w))
                  <= tokenBudgetPerWave cfg)%Z
              \/ (total (tokenEstimate (body w)) <= tokenBudgetPerWave cfg)%Z)
           (organize cfg ecfg issues contexts).
Proof.
  intros cfg ecfg issues contexts.
  apply (Forall_organize_waves cfg ecfg issues contexts
           (fun l e => length l <= 1
                       \/ (issueTotals ecfg contexts l <= tokenBudgetPerWave cfg)%Z
                       \/ (total e <= tokenBudgetPerWave cfg)%Z)).
  apply Forall_subGroupsOf. intros group _.
  apply splitGroupIfNeeded_budget.
Qed.

(** *** Sorting *)

(** [l] is in non-decreasing order of [key]. *)
Fixpoint sortedBy {A} (key : A -> Z) (l : list A) : Prop :=
  match l with
  | [] => True
  | x :: rest => Forall (fun y => (key x <= key y)%Z) rest /\ sortedBy key rest
  end.

Lemma insertStable_sortedBy {A} (key : A -> Z) (x : A) (l : list A) :
  sortedBy key l ->
  sortedBy key (insertStable (fun a b => (key a - key b)%Z) x l).
Proof.
  induction l as [|y l IH]; intros Hs; simpl; [by split|].
  destruct Hs as [Hy Hs].
  destruct (0 <? key x - key y)%Z eqn:E.
  - apply Z.ltb_lt in E. simpl. split; [|by apply IH].
    rewrite insertStable_Permutation. constructor; [lia | done].
  - apply Z.ltb_ge in E. simpl. split_and!; [|done|done].
    constructor; [lia|]. eapply Forall_impl; [exact Hy|]. simpl. intros. lia.
Qed.

Lemma sort_sortedBy {A} (key : A -> Z) (l : list A) :
  sortedBy key (sort (fun a b => (key a - key b)%Z) l).
Proof.
  induction l as [|x l IH]; simpl; [done|]. by apply insertStable_sortedBy.
Qed.

Lemma sortedBy_filter {A} (key : A -> Z) (p : A -> bool) (l : list A) :
  sortedBy key l -> sortedBy key (List.filter p l).
Proof.
  induction l as [|x l IH]; intros Hs; simpl; [done|].
  destruct Hs as [Hx Hs]. destruct (p x); simpl; [|by apply IH].
  split; [|by apply IH].
  apply Forall_forall. intros y Hy. apply elem_of_filter_bool in Hy as [Hy _].
  rewrite Forall_forall in Hx. by apply Hx.
Qed.

Lemma sortedBy_app {A} (key : A -> Z) (l1 l2 : list A) :
  sortedBy key (l1 ++ l2) -> sortedBy key l1 /\ sortedBy key l2.
Proof.
  induction l1 as [|x l1 IH]; simpl; [done|].
  intros [Hx Hs]. apply Forall_app in Hx as [Hx _].
  destruct (IH Hs). by split_and!.
Qed.

Lemma sortedBy_parts {A B} (key : B -> Z) (f : A -> list B) (l : list A) :
  sortedBy key (flat_map f l) -> Forall (fun a => sortedBy key (f a)) l.
Proof.
  induction l as [|a l IH]; simpl; intros Hs; [constructor|].
  apply sortedBy_app in Hs as [Ha Hl]. constructor; [done | by apply IH].
Qed.

(** *** Priority order inside a wave *)

Definition priorityKey (issue : Issue) : Z := priorityOrder (priority issue).

Lemma groupFold_sorted cfg overlapMatrix sortedIssues (rest : list Issue) :
  sortedBy priorityKey sortedIssues ->
  forall st : list WaveGroup * gset string,
    Forall (fun g => sortedBy priorityKey (groupIssues g)) st.1 ->
    Forall (fun g => sortedBy priorityKey (groupIssues g))
           (fold_left (groupStep cfg overlapMatrix sortedIssues) rest st).1.
Proof.
  intros Hsorted. induction rest as [|x rest IH];
    intros [groups assigned] Hall; simpl; [done|].
  apply IH. unfold groupStep. case_bool_decide; [done|]. simpl.
  apply Forall_app. split; [done|]. apply Forall_singleton. simpl.
  by apply sortedBy_filter.
Qed.

Lemma groupByContext_sorted cfg issues overlapMatrix :
  Forall (fun g => sortedBy priorityKey (groupIssues g))
         (groupByContext cfg issues overlapMatrix).
Proof.
  unfold groupByContext. apply groupFold_sorted; [|constructor].
  apply (sort_sortedBy priorityKey).
Qed.

Lemma Forall_subGroupsOf_from cfg ecfg issues contexts
    (Q P : WaveGroup -> Prop) :
  Forall Q (groupByContext cfg issues (calculateOverlapMatrix issues contexts)) ->
  (forall group, Q group ->
     Forall P (splitGroupIfNeeded cfg ecfg group contexts)) ->
  Forall P (subGroupsOf cfg ecfg issues contexts).
Proof.
  intros HQ Hsplit. unfold subGroupsOf.
  set (groups := groupByContext cfg issues _) in *.
  assert (HQ' : Forall Q (if respectDependencies cfg
                          then orderByDependencies groups issues else groups)).
  { destruct (respectDependencies cfg);
      [by rewrite orderByDependencies_Permutation | done]. }
  induction HQ' as [|g gs Hg _ IH]; simpl; [constructor|].
  apply Forall_app. split; [by apply Hsplit | exact IH].
Qed.

(** X9. In every wave of [organize] the issues are in priority order,
    P0-Critical first: grouping filters the priority-sorted list and
    splitting cuts a group into consecutive pieces. *)
Theorem organize_waves_in_priority_order :
  forall (cfg : OrganizerConfig) (ecfg : EstimationConfig)
         (issues : list Issue) (contexts : gmap string CodebaseContext),
    Forall (fun w =>
              sortedBy (fun issue => priorityOrder (priority issue))
                       (Organizer.issues (body w)))
           (organize cfg ecfg issues contexts).
Proof.
  intros cfg ecfg issues contexts.
  apply (Forall_organize_waves cfg ecfg issues contexts
           (fun l _ => sortedBy priorityKey l)).
  apply (Forall_subGroupsOf_from cfg ecfg issues contexts
           (fun g => sortedBy priorityKey (groupIssues g))).
  - apply groupByContext_sorted.
  - intros group Hg.
    apply (sortedBy_parts priorityKey groupIssues).
    by rewrite splitGroupIfNeeded_issues.
Qed.

(** *** Dependencies between waves *)

(** The wave holds an issue with the identifier [parentId]. *)
Definition holdsIssue (parentId : string) (wave : WaveBody) : Prop :=
  exists i, i ∈ Organizer.issues wave /\ id i = parentId.

Lemma holdsIssue_existsb parentId wave :
  existsb (fun i => bool_decide (id i = parentId)) (Organizer.issues wave) = true
  <-> holdsIssue parentId wave.
Proof.
  rewrite existsb_exists. unfold holdsIssue. split.
  - intros (i & Hi & Hb). exists i. rewrite list_elem_of_In.
    split; [done|]. by apply bool_decide_eq_true in Hb.
  - intros (i & Hi & Hb). exists i. rewrite <- list_elem_of_In.
    split; [done|]. by apply bool_decide_eq_true.
Qed.

Lemma elem_of_addNumber (d n : nat) (deps : list nat) :
  d ∈ addNumber n deps <-> d = n \/ d ∈ deps.
Proof.
  unfold addNumber. case_bool_decide.
  - split; [by right|]. by intros [->|].
  - rewrite elem_of_app, list_elem_of_singleton. tauto.
Qed.

Lemma addNumber_NoDup (n : nat) (deps : list nat) :
  NoDup deps -> NoDup (addNumber n deps).
Proof.
  intros Hnd. unfold addNumber. case_bool_decide; [done|].
  apply NoDup_app. split_and!; [done | | apply NoDup_singleton].
  intros x Hx Hx'. apply list_elem_of_singleton in Hx'. by subst.
Qed.

(** The inner loop over the existing waves, for one parent. *)
Lemma dependencies_of_parent parentId (waves : list WaveBody) :
  forall deps : list nat,
    let deps' :=
      fold_left
        (fun deps wave =>
           if existsb (fun i => bool_decide (id i = parentId))
                      (Organizer.issues wave)
           then addNumber (number wave) deps else deps)
        waves deps in
    (NoDup deps -> NoDup deps')
    /\ forall d, d ∈ deps'
                 <-> d ∈ deps
                     \/ exists wave, wave ∈ waves /\ number wave = d
                                     /\ holdsIssue parentId wave.
Proof.
  induction waves as [|w waves IH]; intros deps; simpl.
  - split; [done|]. intros d. split; [by left|].
    intros [H|(w & Hw & _)]; [done | by inversion Hw].
  - destruct (IH (if existsb (fun i => bool_decide (id i = parentId))
                               (Organizer.issues w)
                  then addNumber (number w) deps else deps)) as [Hnd Hmem].
    split.
    + intros H. apply Hnd. destruct (existsb _ _); [by apply addNumber_NoDup|done].
    + intros d. rewrite Hmem. clear Hnd Hmem IH.
      destruct (existsb _ _) eqn:E.
      * apply holdsIssue_existsb in E. rewrite elem_of_addNumber. split.
        -- intros [[->|H]|(w' & Hw' & Hn & Hh)]; [right | by left | right].
           ++ exists w. split_and!; [by left | done | done].
           ++ exists w'. split_and!; [by right | done | done].
        -- intros [H|(w' & Hw' & Hn & Hh)]; [by left; right|].
           apply elem_of_cons in Hw' as [->|Hw']; [by left; left|].
           right. eauto.
      * assert (Hno : ~ holdsIssue parentId w).
        { intros Hh. apply holdsIssue_existsb in Hh. congruence. }
        split.
        -- intros [H|(w' & Hw' & Hn & Hh)]; [by left | right].
           exists w'. split_and!; [by right | done | done].
        -- intros [H|(w' & Hw' & Hn & Hh)]; [by left|].
           apply elem_of_cons in Hw' as [->|Hw']; [done|]. right. eauto.
Qed.

(** The numbers collected before sorting. *)
Lemma dependencies_collected (existingWaves : list WaveBody)
    (issues : list Issue) :
  forall deps : list nat,
    let deps' :=
      fold_left
        (fun deps issue =>
           match parent issue with
           | Some parentId =>
               fold_left
                 (fun deps wave =>
                    if existsb (fun i => bool_decide (id i = parentId))
                               (Organizer.issues wave)
                    then addNumber (number wave) deps else deps)
                 existingWaves deps
           | None => deps
           end)
        issues deps in
    (NoDup deps -> NoDup deps')
    /\ forall d, d ∈ deps'
                 <-> d ∈ deps
                     \/ exists issue parentId wave,
                          issue ∈ issues /\ parent issue = Some parentId
                          /\ wave ∈ existingWaves /\ number wave = d
                          /\ holdsIssue parentId wave.
Proof.
  induction issues as [|x issues IH]; intros deps; simpl.
  - split; [done|]. intros d. split; [by left|].
    intros [H|(i & _ & _ & Hi & _)]; [done | by inversion Hi].
  - destruct (parent x) as [pid|] eqn:Hp.
    + destruct (dependencies_of_parent pid existingWaves deps) as [Hnd1 Hm1].
      destruct (IH (fold_left
                      (fun deps wave =>
                         if existsb (fun i => bool_decide (id i = pid))
                                    (Organizer.issues wave)
                         then addNumber (number wave) deps else deps)
                      existingWaves deps)) as [Hnd2 Hm2].
      split; [by intros H; apply Hnd2, Hnd1|].
      intros d. rewrite Hm2, Hm1. clear -Hp. split.
      * intros [[H|(w & Hw & Hn & Hh)]|(i & p & w & Hi & Hpi & Hw & Hn & Hh)].
        -- by left.
        -- right. exists x, pid, w. split_and!; try done. by left.
        -- right. exists i, p, w. split_and!; try done. by right.
      * intros [H|(i & p & w & Hi & Hpi & Hw & Hn & Hh)]; [by left; left|].
        apply elem_of_cons in Hi as [->|Hi].
        -- left; right. rewrite Hp in Hpi. injection Hpi as <-. eauto.
        -- right. exists i, p, w. by split_and!.
    + destruct (IH deps) as [Hnd Hm]. split; [done|].
      intros d. rewrite Hm. clear -Hp. split.
      * intros [H|(i & p & w & Hi & Hpi & Hw & Hn & Hh)]; [by left | right].
        exists i, p, w. split_and!; try done. by right.
      * intros [H|(i & p & w & Hi & Hpi & Hw & Hn & Hh)]; [by left|].
        apply elem_of_cons in Hi as [->|Hi]; [congruence|].
        right. exists i, p, w. by split_and!.
Qed.

Lemma findWaveDependencies_members (issues : list Issue)
    (existingWaves : list WaveBody) (d : nat) :
  d ∈ findWaveDependencies issues existingWaves
  <-> exists issue parentId wave,
        issue ∈ issues /\ parent issue = Some parentId
        /\ wave ∈ existingWaves /\ number wave = d
        /\ holdsIssue parentId wave.
Proof.
  unfold findWaveDependencies.
  destruct (dependencies_collected existingWaves issues []) as [_ Hmem].
  rewrite sort_Permutation, Hmem. split; [|by right].
  intros [H|H]; [by inversion H | done].
Qed.

(** X10. [findWaveDependencies] returns, in ascending order and without
    repetition, exactly the numbers of the existing waves that hold the
    parent of one of the given issues; an issue whose parent is in no
    existing wave contributes nothing. *)
Theorem findWaveDependencies_spec :
  forall (issues : list Issue) (existingWaves : list WaveBody),
    let deps := findWaveDependencies issues existingWaves in
    NoDup deps
    /\ sortedBy Z.of_nat deps
    /\ forall d,
         d ∈ deps
         <-> exists issue parentId wave,
               issue ∈ issues /\ parent issue = Some parentId
               /\ wave ∈ existingWaves /\ number wave = d
               /\ holdsIssue parentId wave.
Proof.
  intros issues existingWaves deps. unfold deps. split_and!.
  - unfold findWaveDependencies.
    destruct (dependencies_collected existingWaves issues []) as [Hnd _].
    rewrite sort_Permutation. apply Hnd. constructor.
  - apply (sort_sortedBy Z.of_nat).
  - apply findWaveDependencies_members.
Qed.

(** Each wave gets its dependencies from the waves emitted before it. *)
Definition dependenciesFromPrefix (waves : list WaveBody) : Prop :=
  forall (k : nat) (w : WaveBody),
    waves !! k = Some w ->
    dependencies w = findWaveDependencies (Organizer.issues w) (take k waves).

Lemma waveFold_prefix ecfg contexts (subGroups : list WaveGroup) :
  forall (waves : list WaveBody) (waveNumber : nat),
    dependenciesFromPrefix waves ->
    dependenciesFromPrefix
      (fold_left (waveStep ecfg contexts) subGroups (waves, waveNumber)).1.
Proof.
  induction subGroups as [|g subGroups IH]; intros waves n Hpre; [done|].
  cbn [fold_left]. unfold waveStep at 2. apply IH.
  intros k w Hk. apply lookup_snoc_Some in Hk as [[Hlt Hk]|[-> <-]].
  - rewrite take_app_le by lia. by apply Hpre.
  - simpl. by rewrite take_app_length.
Qed.

Lemma organize_prefix cfg ecfg issues contexts :
  dependenciesFromPrefix (map body (organize cfg ecfg issues contexts)).
Proof.
  rewrite organize_bodies. destruct (length issues =? 0)%nat; [by intros k w|].
  unfold groupsToWaves.
  rewrite (fold_left_flat_map (waveStep ecfg contexts)
             (fun group => splitGroupIfNeeded cfg ecfg group contexts)).
  apply waveFold_prefix. by intros k w.
Qed.

Lemma numbered_lookup (waves : list WaveBody) (k : nat) (w : WaveBody) :
  map number waves = seq 1 (length waves) ->
  waves !! k = Some w -> number w = S k.
Proof.
  intros Hn Hk.
  assert (H : map number waves !! k = Some (number w))
    by (change (map number waves) with (number <$> waves);
        by rewrite list_lookup_fmap, Hk).
  rewrite Hn in H. apply lookup_seq in H as [-> _]. done.
Qed.

(** X11. In the result of [organize], a wave depends on exactly the earlier
    waves that hold the parent of one of its issues: every dependency is
    the number of a wave emitted before it, and a parent placed in the
    same wave or in a later one creates no dependency. *)
Theorem organize_dependencies_on_earlier_waves :
  forall (cfg : OrganizerConfig) (ecfg : EstimationConfig)
         (issues : list Issue) (contexts : gmap string CodebaseContext)
         (w : WaveBody) (d : nat),
    let waves := map body (organize cfg ecfg issues contexts) in
    w ∈ waves ->
    (d ∈ dependencies w
     <-> (1 <= d < number w)%nat
         /\ exists w' issue parentId,
              w' ∈ waves /\ number w' = d
              /\ issue ∈ Organizer.issues w /\ parent issue = Some parentId
              /\ holdsIssue parentId w').
Proof.
  intros cfg ecfg issues contexts w d waves Hw.
  destruct (organize_spec cfg ecfg issues contexts) as [Hn _].
  fold waves in Hn.
  pose proof (organize_prefix cfg ecfg issues contexts) as Hpre.
  fold waves in Hpre.
  apply list_elem_of_lookup in Hw as [k Hk].
  rewrite (Hpre k w Hk), findWaveDependencies_members.
  rewrite (numbered_lookup waves k w Hn Hk). split.
  - intros (i & p & w' & Hi & Hp & Hw' & Hd & Hh).
    apply list_elem_of_lookup in Hw' as [j Hj].
    apply lookup_take_Some in Hj as [Hj Hlt].
    pose proof (numbered_lookup waves j w' Hn Hj) as Hnum.
    split; [lia|]. exists w', i, p. split_and!; try done.
    apply list_elem_of_lookup. eauto.
  - intros (Hlt & w' & i & p & Hw' & Hd & Hi & Hp & Hh).
    exists i, p, w'. split_and!; try done.
    apply list_elem_of_lookup in Hw' as [j Hj].
    pose proof (numbered_lookup waves j w' Hn Hj) as Hnum.
    apply list_elem_of_lookup. exists j. apply lookup_take_Some.
    split; [done | lia].
Qed.

Definition parentIssue : Issue := {|
  id := "p"; identifier := "SMI-20";
  title := "Ship the importer";
  description := "Umbrella for the importer work";
  priority := P1_High;
  labels := [];
  parent := None; Interface.estimate := None |}.

Definition subIssue : Issue := {|
  id := "c"; identifier := "SMI-21";
  title := "Parse the header row";
  description := "First step of the importer";
  priority := P2_Medium;
  labels := [];
  parent := Some "p"%string; Interface.estimate := None |}.

Definition familyWaves : list WaveBody :=
  map body (organize DEFAULT_ORGANIZER_CONFIG DEFAULT_CONFIG
              [subIssue; parentIssue] ∅).

Definition dependentWave : WaveBody :=
  from_option Datatypes.id
    {| number := 0; waveName := ""; waveDescription := "";
       Organizer.issues := [];
       tokenEstimate := estimateWave DEFAULT_CONFIG [] ∅;
       dependencies := []; parallelizable := true |}
    (familyWaves !! 1%nat).

Lemma organize_dependencies_on_earlier_waves_witness :
  dependentWave ∈ familyWaves
  /\ (1%nat ∈ dependencies dependentWave
      <-> (1 <= 1 < number dependentWave)%nat
          /\ exists w' issue parentId,
               w' ∈ familyWaves /\ number w' = 1%nat
               /\ issue ∈ Organizer.issues dependentWave
               /\ parent issue = Some parentId
               /\ holdsIssue parentId w').
Proof.
  assert (Hw : dependentWave ∈ familyWaves).
  { apply list_elem_of_lookup. exists 1%nat. vm_compute. reflexivity. }
  split; [exact Hw|].
  exact (organize_dependencies_on_earlier_waves DEFAULT_ORGANIZER_CONFIG
           DEFAULT_CONFIG [subIssue; parentIssue] ∅ dependentWave 1%nat Hw).
Defined.

(** The parent goes first and the wave of the sub-issue depends on it. *)
Example organize_family :
  map (fun w => (number w, map id (Organizer.issues w), dependencies w))
      familyWaves
  = [(1%nat, ["p"%string], []); (2%nat, ["c"%string], [1%nat])].
Proof. vm_compute. reflexivity. Qed.

(** *** The overlap matrix and the groups *)

(** The entry that the matrix loop writes for the pair [(a, b)]. *)
Definition overlapEntry (contexts : gmap string CodebaseContext)
    (a b : Issue) : Q :=
  if bool_decide (id a = id b) then 1%Q
  else jaccardSimilarity (getFilesForIssue a contexts)
                         (getFilesForIssue b contexts).

Lemma getFilesForIssue_id contexts (a a' : Issue) :
  id a' = id a -> getFilesForIssue a' contexts = getFilesForIssue a contexts.
Proof. intros H. unfold getFilesForIssue. by rewrite H. Qed.

Lemma overlapEntry_id contexts (a a' b b' : Issue) :
  id a' = id a -> id b' = id b ->
  overlapEntry contexts a' b' = overlapEntry contexts a b.
Proof.
  intros Ha Hb. unfold overlapEntry.
  by rewrite (getFilesForIssue_id contexts a a' Ha),
             (getFilesForIssue_id contexts b b' Hb), Ha, Hb.
Qed.

Lemma fold_set_lookup_None {A V} (step : gmap string V -> A -> gmap string V)
    (key : A -> string) (val : A -> V) (k : string) :
  (forall m b, step m b = <[key b := val b]> m) ->
  forall (l : list A) (m0 : gmap string V),
    (forall b, b ∈ l -> key b <> k) ->
    fold_left step l m0 !! k = m0 !! k.
Proof.
  intros Hstep. induction l as [|b l IH]; intros m0 Hk; [done|].
  simpl. rewrite IH by (intros b' Hb'; apply Hk; by right).
  rewrite Hstep. apply lookup_insert_ne. apply Hk. by left.
Qed.

Lemma overlapRow_step (issues : list Issue)
    (contexts : gmap string CodebaseContext) (a : Issue) :
  overlapRow issues contexts a
  = fold_left (fun rowMap b => <[id b := overlapEntry contexts a b]> rowMap)
              issues ∅.
Proof.
  unfold overlapRow. generalize (∅ : gmap string Q).
  induction issues as [|b issues IH]; intros m; [done|].
  simpl. rewrite <- IH. f_equal. unfold overlapEntry. by case_bool_decide.
Qed.

Lemma overlapRow_lookup issues contexts (a b : Issue) :
  b ∈ issues ->
  overlapRow issues contexts a !! id b = Some (overlapEntry contexts a b).
Proof.
  intros Hb. rewrite overlapRow_step.
  destruct (fold_set_lookup
              (fun rowMap b => <[id b := overlapEntry contexts a b]> rowMap)
              id (overlapEntry contexts a)
              (fun v => v = overlapEntry contexts a b) (id b)
              (fun m b => eq_refl) issues ∅) as (v & Hv & ->);
    [| left; eauto | done].
  intros b' _ Hid. by apply overlapEntry_id.
Qed.

Lemma overlapRow_missing issues contexts (a : Issue) (k : string) :
  k ∉ map id issues -> overlapRow issues contexts a !! k = None.
Proof.
  intros Hk. rewrite overlapRow_step.
  rewrite (fold_set_lookup_None
             (fun rowMap b => <[id b := overlapEntry contexts a b]> rowMap)
             id (overlapEntry contexts a) k (fun m b => eq_refl)); [done|].
  intros b Hb Hid. apply Hk. rewrite <- Hid.
  apply list_elem_of_fmap. eauto.
Qed.

Lemma overlapRow_id issues contexts (a a' : Issue) :
  id a' = id a -> overlapRow issues contexts a' = overlapRow issues contexts a.
Proof.
  intros Hid. rewrite !overlapRow_step.
  generalize (∅ : gmap string Q).
  induction issues as [|b issues IH]; intros m; [done|].
  simpl. by rewrite IH, (overlapEntry_id contexts a a' b b Hid eq_refl).
Qed.

Lemma overlapMatrix_row issues contexts (a : Issue) :
  a ∈ issues ->
  calculateOverlapMatrix issues contexts !! id a
  = Some (overlapRow issues contexts a).
Proof.
  intros Ha. unfold calculateOverlapMatrix.
  destruct (fold_set_lookup
              (fun matrix issueA =>
                 <[id issueA := overlapRow issues contexts issueA]> matrix)
              id (overlapRow issues contexts)
              (fun row => row = overlapRow issues contexts a) (id a)
              (fun m b => eq_refl) issues ∅) as (v & Hv & ->);
    [| left; eauto | done].
  intros a' _ Hid. by apply overlapRow_id.
Qed.

Lemma overlapMatrix_missing issues contexts (k : string) :
  k ∉ map id issues -> calculateOverlapMatrix issues contexts !! k = None.
Proof.
  intros Hk. unfold calculateOverlapMatrix.
  rewrite (fold_set_lookup_None
             (fun matrix issueA =>
                <[id issueA := overlapRow issues contexts issueA]> matrix)
             id (overlapRow issues contexts) k (fun m b => eq_refl)); [done|].
  intros b Hb Hid. apply Hk. rewrite <- Hid.
  apply list_elem_of_fmap. eauto.
Qed.

Lemma matrixGet_entry issues contexts (a b : Issue) :
  a ∈ issues -> b ∈ issues ->
  matrixGet (calculateOverlapMatrix issues contexts) (id a) (id b)
  = overlapEntry contexts a b.
Proof.
  intros Ha Hb. unfold matrixGet.
  by rewrite (overlapMatrix_row issues contexts a Ha),
             (overlapRow_lookup issues contexts a b Hb).
Qed.

(** X12. The overlap matrix is read back as follows: for two listed issues
    the entry is the Jaccard similarity of their file sets, or 1 when they
    have the same id, also when ids are repeated in the list; the entries
    are symmetric; and a lookup with an id that is not listed gives 0. *)
Theorem overlapMatrix_entries :
  forall (issues : list Issue) (contexts : gmap string CodebaseContext),
    let m := calculateOverlapMatrix issues contexts in
    (forall a b : Issue,
       a ∈ issues -> b ∈ issues ->
       matrixGet m (id a) (id b)
       = (if bool_decide (id a = id b) then 1%Q
          else jaccardSimilarity (getFilesForIssue a contexts)
                                 (getFilesForIssue b contexts))
       /\ matrixGet m (id a) (id b) = matrixGet m (id b) (id a))
    /\ (forall k k' : string,
          k ∉ map id issues \/ k' ∉ map id issues -> matrixGet m k k' = 0%Q).
Proof.
  intros issues contexts m. split.
  - intros a b Ha Hb. unfold m.
    rewrite !matrixGet_entry by done. split; [done|].
    unfold overlapEntry. rewrite jaccardSimilarity_sym.
    repeat case_bool_decide; congruence.
  - intros k k' Hk. unfold m, matrixGet.
    destruct (calculateOverlapMatrix issues contexts !! k) as [row|] eqn:E;
      [|done].
    destruct (decide (k ∈ map id issues)) as [Hin|Hout].
    + destruct Hk as [Hk|Hk]; [done|].
      apply list_elem_of_fmap in Hin as (a & -> & Ha).
      rewrite (overlapMatrix_row issues contexts a Ha) in E.
      injection E as <-. by rewrite overlapRow_missing.
    + by rewrite overlapMatrix_missing in E.
Qed.

Lemma overlapMatrix_entries_witness :
  EstimatorFacts.issueA ∈ [EstimatorFacts.issueA; EstimatorFacts.issueB]
  /\ EstimatorFacts.issueB ∈ [EstimatorFacts.issueA; EstimatorFacts.issueB]
  /\ matrixGet
       (calculateOverlapMatrix [EstimatorFacts.issueA; EstimatorFacts.issueB]
          EstimatorFacts.twoContexts)
       (id EstimatorFacts.issueA) (id EstimatorFacts.issueB)
     = jaccardSimilarity
         (getFilesForIssue EstimatorFacts.issueA EstimatorFacts.twoContexts)
         (getFilesForIssue EstimatorFacts.issueB EstimatorFacts.twoContexts).
Proof.
  assert (Ha : EstimatorFacts.issueA
               ∈ [EstimatorFacts.issueA; EstimatorFacts.issueB])
    by (apply elem_of_cons; left; reflexivity).
  assert (Hb : EstimatorFacts.issueB
               ∈ [EstimatorFacts.issueA; EstimatorFacts.issueB])
    by (apply elem_of_cons; right; apply elem_of_cons; left; reflexivity).
  split_and!; [exact Ha | exact Hb |].
  exact (proj1 (proj1 (overlapMatrix_entries
                         [EstimatorFacts.issueA; EstimatorFacts.issueB]
                         EstimatorFacts.twoContexts)
                  EstimatorFacts.issueA EstimatorFacts.issueB Ha Hb)).
Defined.

(** A group is its seed followed by issues that the seed collected. *)
Definition collectedBySeed (cfg : OrganizerConfig)
    (overlapMatrix : gmap string (gmap string Q)) (sortedIssues : list Issue)
    (g : WaveGroup) : Prop :=
  match groupIssues g with
  | [] => False
  | seed :: others =>
      seed ∈ sortedIssues
      /\ Forall (fun x =>
                   x ∈ sortedIssues
                   /\ (id x = id seed
                       \/ Qle_bool (similarityThreshold cfg)
                                   (matrixGet overlapMatrix (id seed) (id x))
                          = true))
                others
  end.

Lemma groupFold_seeded cfg overlapMatrix sortedIssues (rest : list Issue) :
  forall (seen : list Issue) (st : list WaveGroup * gset string),
    sortedIssues = seen ++ rest ->
    (forall y, y ∈ seen -> id y ∈ st.2) ->
    Forall (collectedBySeed cfg overlapMatrix sortedIssues) st.1 ->
    Forall (collectedBySeed cfg overlapMatrix sortedIssues)
           (fold_left (groupStep cfg overlapMatrix sortedIssues) rest st).1.
Proof.
  induction rest as [|x rest IH]; intros seen [groups assigned] Hs Hdone Hall;
    [done|].
  cbn [fold_left]. apply (IH (seen ++ [x])).
  - by rewrite <- app_assoc.
  - unfold groupStep. simpl in Hdone. intros y Hy.
    apply elem_of_app in Hy as [Hy|Hy].
    + case_bool_decide; simpl; [by apply Hdone|].
      rewrite assigned_after. apply elem_of_union_r. by apply Hdone.
    + apply list_elem_of_singleton in Hy as ->.
      case_bool_decide as Ha; simpl; [done|].
      rewrite assigned_after. apply elem_of_union_l.
      apply elem_of_list_to_set, list_elem_of_fmap. exists x. split; [done|].
      apply elem_of_filter_bool. split.
      * rewrite Hs. apply elem_of_app. right. by left.
      * unfold isSimilar. rewrite bool_decide_eq_false_2 by done.
        by rewrite bool_decide_eq_true_2.
  - unfold groupStep. simpl in Hdone, Hall.
    case_bool_decide as Ha; simpl; [done|].
    apply Forall_app. split; [done|]. apply Forall_singleton.
    assert (Hf : List.filter (isSimilar cfg overlapMatrix assigned x)
                             sortedIssues
                 = x :: List.filter (isSimilar cfg overlapMatrix assigned x)
                                    rest).
    { rewrite Hs, List.filter_app.
      rewrite (filter_none _ seen); cycle 1.
      { intros y Hy. unfold isSimilar.
        by rewrite bool_decide_eq_true_2 by (by apply Hdone). }
      simpl.
      replace (isSimilar cfg overlapMatrix assigned x x) with true; [done|].
      unfold isSimilar. rewrite bool_decide_eq_false_2 by done.
      by rewrite bool_decide_eq_true_2. }
    unfold collectedBySeed. simpl. rewrite Hf.
    split.
    + rewrite Hs. apply elem_of_app. right. by left.
    + apply Forall_forall. intros y Hy.
      apply elem_of_filter_bool in Hy as [Hy Hsim]. split.
      * rewrite Hs. apply elem_of_app. right. by right.
      * unfold isSimilar in Hsim.
        case_bool_decide; [done|]. case_bool_decide; [by left | by right].
Qed.

(** X13. Every group of [groupByContext] starts with its seed, and every
    other member either carries the seed's id or has a file set whose
    Jaccard similarity with the seed's file set reaches the threshold;
    members are compared with the seed only, not with one another. *)
Theorem groups_collected_by_seed :
  forall (cfg : OrganizerConfig) (issues : list Issue)
         (contexts : gmap string CodebaseContext),
    Forall (fun g =>
              exists seed others,
                groupIssues g = seed :: others
                /\ seed ∈ issues
                /\ Forall (fun x =>
                             x ∈ issues
                             /\ (id x = id seed
                                 \/ (similarityThreshold cfg
                                     <= jaccardSimilarity
                                          (getFilesForIssue seed contexts)
                                          (getFilesForIssue x contexts))%Q))
                          others)
           (groupByContext cfg issues (calculateOverlapMatrix issues contexts)).
Proof.
  intros cfg issues contexts. unfold groupByContext.
  set (sorted := sort _ issues).
  assert (Hin : forall x, x ∈ sorted -> x ∈ issues).
  { intros x. unfold sorted. by rewrite sort_Permutation. }
  eapply Forall_impl.
  - apply (groupFold_seeded cfg (calculateOverlapMatrix issues contexts)
             sorted sorted [] ([], ∅)); [done | | constructor].
    intros y Hy. by inversion Hy.
  - intros g Hg. unfold collectedBySeed in Hg.
    destruct (groupIssues g) as [|seed others]; [done|].
    destruct Hg as [Hseed Hothers]. exists seed, others.
    split_and!; [done | by apply Hin |].
    eapply Forall_impl; [exact Hothers|]. simpl.
    intros x [Hx Hsim]. split; [by apply Hin|].
    destruct (decide (id x = id seed)) as [Hid|Hid]; [by left|].
    destruct Hsim as [Hsim|Hsim]; [done|]. right.
    rewrite matrixGet_entry in Hsim by (by apply Hin).
    apply Qle_bool_iff in Hsim. unfold overlapEntry in Hsim.
    by rewrite bool_decide_eq_false_2 in Hsim by congruence.
Qed.

(** *** Agents, parallel waves and issues without parents *)

(** X14. Across the waves of [organize] the agent assignments are, wave by
    wave and in order, one per issue of the wave, each with the agent type
    that [inferAgentType] gives the issue; taken together the assigned
    issue ids are the input ids, so that with distinct ids every issue has
    exactly one assignment. *)
Theorem organize_one_agent_per_issue :
  forall (cfg : OrganizerConfig) (ecfg : EstimationConfig)
         (issues : list Issue) (contexts : gmap string CodebaseContext),
    let waves := organize cfg ecfg issues contexts in
    Forall (fun w =>
              map (fun a => (issueId a, agentType a)) (agents w)
              = map (fun i => (id i, inferAgentType i))
                    (Organizer.issues (body w)))
           waves
    /\ flat_map (fun w => map issueId (agents w)) waves ≡ₚ map id issues.
Proof.
  intros cfg ecfg issues contexts waves.
  assert (Hagents : Forall (fun w => agents w
                                     = assignAgents (Organizer.issues (body w)))
                           waves).
  { unfold waves, organize. destruct (length issues =? 0)%nat; [constructor|].
    apply Forall_fmap, Forall_forall. by intros w _. }
  split.
  - eapply Forall_impl; [exact Hagents|]. simpl. intros w ->.
    unfold assignAgents. by rewrite map_map.
  - destruct (organize_spec cfg ecfg issues contexts) as [_ Hp].
    fold waves in Hp. rewrite <- Hp. clear Hp.
    induction Hagents as [|w ws Hw _ IH]; [done|].
    simpl. rewrite map_app, IH, Hw. unfold assignAgents.
    by rewrite map_map.
Qed.

Lemma waveFold_parallelizable ecfg contexts (subGroups : list WaveGroup) :
  forall (waves : list WaveBody) (waveNumber : nat),
    Forall (fun w => parallelizable w = isParallelizable (Organizer.issues w))
           waves ->
    Forall (fun w => parallelizable w = isParallelizable (Organizer.issues w))
           (fold_left (waveStep ecfg contexts) subGroups (waves, waveNumber)).1.
Proof.
  induction subGroups as [|g subGroups IH]; intros waves n Hall; [done|].
  cbn [fold_left]. unfold waveStep at 2. apply IH.
  apply Forall_app. split; [done|]. by apply Forall_singleton.
Qed.

Lemma organize_parallelizable cfg ecfg issues contexts :
  Forall (fun w => parallelizable w = isParallelizable (Organizer.issues w))
         (map body (organize cfg ecfg issues contexts)).
Proof.
  rewrite organize_bodies. destruct (length issues =? 0)%nat; [constructor|].
  unfold groupsToWaves.
  rewrite (fold_left_flat_map (waveStep ecfg contexts)
             (fun group => splitGroupIfNeeded cfg ecfg group contexts)).
  apply waveFold_parallelizable. constructor.
Qed.

Lemma isParallelizable_true (issues : list Issue) :
  isParallelizable issues = true
  <-> forall issue parentId,
        issue ∈ issues -> parent issue = Some parentId ->
        ~ exists other, other ∈ issues /\ id other = parentId.
Proof.
  unfold isParallelizable. rewrite negb_true_iff.
  rewrite <- not_true_iff_false, existsb_exists. split.
  - intros Hno issue parentId Hi Hp (other & Ho & Hid). apply Hno.
    exists issue. rewrite <- list_elem_of_In, Hp. split; [done|].
    apply bool_decide_eq_true, elem_of_list_to_set, list_elem_of_fmap.
    eauto.
  - intros Hno (issue & Hi & Hb). apply list_elem_of_In in Hi.
    destruct (parent issue) as [parentId|] eqn:Hp; [|done].
    apply bool_decide_eq_true, elem_of_list_to_set, list_elem_of_fmap in Hb
      as (other & -> & Ho).
    apply (Hno issue (id other) Hi Hp). eauto.
Qed.

(** X15. A wave of [organize] is flagged parallelizable exactly when none
    of its issues has its parent in the same wave; parents in other waves
    do not affect the flag. *)
Theorem organize_parallelizable_iff :
  forall (cfg : OrganizerConfig) (ecfg : EstimationConfig)
         (issues : list Issue) (contexts : gmap string CodebaseContext),
    Forall (fun w =>
              parallelizable w = true
              <-> forall issue parentId,
                    issue ∈ Organizer.issues w ->
                    parent issue = Some parentId ->
                    ~ holdsIssue parentId w)
           (map body (organize cfg ecfg issues contexts)).
Proof.
  intros cfg ecfg issues contexts.
  eapply Forall_impl; [apply organize_parallelizable|]. simpl.
  intros w ->. apply isParallelizable_true.
Qed.

Lemma buildDependencyMap_no_parents (issues : list Issue) :
  Forall (fun i => parent i = None) issues ->
  buildDependencyMap issues = ∅.
Proof.
  unfold buildDependencyMap. generalize (∅ : gmap string (gset string)).
  induction 1 as [|i issues Hi _ IH]; [done|]. simpl. by rewrite Hi.
Qed.

Lemma groupDependsOn_empty (a b : WaveGroup) : groupDependsOn ∅ a b = false.
Proof.
  unfold groupDependsOn. apply not_true_iff_false.
  rewrite existsb_exists. intros (x & _ & Hx).
  apply existsb_exists in Hx as (y & _ & Hy). by rewrite lookup_empty in Hy.
Qed.

Lemma sort_no_order {A} (compare : A -> A -> Z) (l : list A) :
  (forall a b, (compare a b <= 0)%Z) -> sort compare l = l.
Proof.
  intros Hc. induction l as [|x l IH]; [done|]. simpl. rewrite IH.
  destruct l as [|y l]; [done|]. simpl.
  by rewrite (proj2 (Z.ltb_ge 0 (compare x y))) by apply Hc.
Qed.

(** X16. When no issue has a parent, ordering by dependencies leaves the
    groups as they are, and every wave of [organize] has no dependencies
    and is flagged parallelizable. *)
Theorem organize_without_parents :
  forall (cfg : OrganizerConfig) (ecfg : EstimationConfig)
         (issues : list Issue) (contexts : gmap string CodebaseContext),
    Forall (fun i => parent i = None) issues ->
    (forall groups, orderByDependencies groups issues = groups)
    /\ Forall (fun w => dependencies w = [] /\ parallelizable w = true)
              (map body (organize cfg ecfg issues contexts)).
Proof.
  intros cfg ecfg issues contexts Hnone. split.
  - intros groups. unfold orderByDependencies.
    rewrite buildDependencyMap_no_parents by done.
    apply sort_no_order. intros a b. unfold compareGroups.
    by rewrite !groupDependsOn_empty.
  - destruct (organize_spec cfg ecfg issues contexts) as [_ Hp].
    pose proof (organize_prefix cfg ecfg issues contexts) as Hpre.
    pose proof (organize_parallelizable cfg ecfg issues contexts) as Hpar.
    set (waves := map body (organize cfg ecfg issues contexts)) in *.
    assert (Hin : forall w i, w ∈ waves -> i ∈ Organizer.issues w ->
                              parent i = None).
    { intros w i Hw Hi. rewrite Forall_forall in Hnone. apply Hnone.
      rewrite <- Hp. apply list_elem_of_In, in_flat_map.
      exists w. by rewrite <- !list_elem_of_In. }
    apply Forall_forall. intros w Hw. split.
    + apply list_elem_of_lookup in Hw as Hk. destruct Hk as [k Hk].
      rewrite (Hpre k w Hk).
      destruct (findWaveDependencies (Organizer.issues w) (take k waves))
        as [|d ds] eqn:E; [done|].
      assert (Hd : d ∈ findWaveDependencies (Organizer.issues w)
                         (take k waves)) by (rewrite E; by left).
      apply findWaveDependencies_members in Hd
        as (i & p & _ & Hi & Hpi & _).
      rewrite (Hin w i Hw Hi) in Hpi. done.
    + rewrite Forall_forall in Hpar. rewrite (Hpar w Hw).
      apply isParallelizable_true. intros i p Hi Hpi.
      rewrite (Hin w i Hw Hi) in Hpi. done.
Qed.

Lemma organize_without_parents_witness :
  Forall (fun i => parent i = None) OrganizerFacts.threeIssues
  /\ Forall (fun w => dependencies w = [] /\ parallelizable w = true)
            (map body (organize DEFAULT_ORGANIZER_CONFIG DEFAULT_CONFIG
                         OrganizerFacts.threeIssues
                         EstimatorFacts.twoContexts)).
Proof.
  assert (H : Forall (fun i => parent i = None) OrganizerFacts.threeIssues)
    by (repeat constructor).
  split; [exact H|].
  exact (proj2 (organize_without_parents DEFAULT_ORGANIZER_CONFIG
                  DEFAULT_CONFIG OrganizerFacts.threeIssues
                  EstimatorFacts.twoContexts H)).
Defined.

(** *** Extreme similarities *)

Lemma union_size_pos (setA setB : gset string) :
  (size setA =? 0)%nat && (size setB =? 0)%nat = false ->
  (0 < size (setA ∪ setB))%nat.
Proof.
  intros E. apply andb_false_iff in E as [E|E]; apply Nat.eqb_neq in E.
  - assert (H : setA ⊆ setA ∪ setB) by set_solver.
    apply subseteq_size in H. lia.
  - assert (H : setB ⊆ setA ∪ setB) by set_solver.
    apply subseteq_size in H. lia.
Qed.

Lemma Qdiv_nat_eq (i u k : nat) :
  (0 < u)%nat ->
  (inject_Z (Z.of_nat i) / inject_Z (Z.of_nat u) == inject_Z (Z.of_nat k))%Q
  <-> i = (k * u)%nat.
Proof.
  intros Hu. destruct u as [|u]; [lia|].
  unfold Qeq, Qdiv, Qmult, Qinv, inject_Z. simpl. lia.
Qed.

(** X17. The Jaccard similarity of two file sets is 0 exactly when they
    share no file, which includes two empty sets, and 1 exactly when they
    are the same non-empty set. *)
Theorem jaccardSimilarity_extremes :
  forall setA setB : gset string,
    ((jaccardSimilarity setA setB == 0)%Q <-> setA ∩ setB = ∅)
    /\ ((jaccardSimilarity setA setB == 1)%Q <-> setA = setB /\ setA <> ∅).
Proof.
  intros setA setB. rewrite jaccardSimilarity_unfold.
  destruct ((size setA =? 0)%nat && (size setB =? 0)%nat) eqn:E.
  - apply andb_true_iff in E as [EA EB].
    apply Nat.eqb_eq, size_empty_iff in EA. apply leibniz_equiv in EA.
    apply Nat.eqb_eq, size_empty_iff in EB. apply leibniz_equiv in EB.
    subst. split.
    + split; [intros _; set_solver | reflexivity].
    + split; [discriminate | by intros [_ H]].
  - pose proof (union_size_pos setA setB E) as Hpos.
    change 0%Q with (inject_Z (Z.of_nat 0)).
    change 1%Q with (inject_Z (Z.of_nat 1)).
    rewrite !Qdiv_nat_eq by exact Hpos. split.
    + rewrite Nat.mul_0_l, size_empty_iff. split.
      * intros H. by apply leibniz_equiv.
      * by intros ->.
    + rewrite Nat.mul_1_l. split.
      * intros Hsize.
        assert (Heq : setA ∩ setB ≡ setA ∪ setB).
        { apply set_subseteq_size_equiv; [set_solver | lia]. }
        assert (HAB : setA = setB) by (apply leibniz_equiv; set_solver).
        split; [exact HAB|]. intros ->. subst.
        rewrite size_empty in E. done.
      * intros [-> _]. f_equal. apply leibniz_equiv. set_solver.
Qed.

(** *** The overlap shown in the wave description *)

Lemma overlapEntry_range contexts (a b : Issue) :
  (0 <= overlapEntry contexts a b <= 1)%Q.
Proof.
  unfold overlapEntry. case_bool_decide.
  - split; discriminate.
  - apply jaccardSimilarity_range.
Qed.

Lemma matrixGet_range issues contexts (k k' : string) :
  (0 <= matrixGet (calculateOverlapMatrix issues contexts) k k' <= 1)%Q.
Proof.
  destruct (decide (k ∈ map id issues)) as [Hk|Hk];
    [destruct (decide (k' ∈ map id issues)) as [Hk'|Hk']|].
  - apply list_elem_of_fmap in Hk as (a & -> & Ha).
    apply list_elem_of_fmap in Hk' as (b & -> & Hb).
    rewrite matrixGet_entry by done. apply overlapEntry_range.
  - apply list_elem_of_fmap in Hk as (a & -> & Ha).
    unfold matrixGet.
    rewrite (overlapMatrix_row issues contexts a Ha).
    rewrite overlapRow_missing by done. split; discriminate.
  - unfold matrixGet. rewrite overlapMatrix_missing by done.
    split; discriminate.
Qed.

Lemma sum_range (sims : list Q) :
  Forall (fun q => (0 <= q <= 1)%Q) sims ->
  forall acc : Q,
    (acc <= fold_left Qplus sims acc)%Q
    /\ (fold_left Qplus sims acc
        <= acc + inject_Z (Z.of_nat (length sims)))%Q.
Proof.
  induction 1 as [|q sims [Hq0 Hq1] _ IH]; intros acc.
  - simpl. split; [apply Qle_refl|]. rewrite Qplus_0_r. apply Qle_refl.
  - cbn [fold_left length]. destruct (IH (acc + q)%Q) as [IH1 IH2]. split.
    + eapply Qle_trans; [|exact IH1].
      rewrite <- (Qplus_0_r acc) at 1. by apply Qplus_le_compat; [apply Qle_refl|].
    + eapply Qle_trans; [exact IH2|].
      rewrite Nat2Z.inj_succ, <- Z.add_1_l, inject_Z_plus.
      rewrite Qplus_assoc. apply Qplus_le_compat; [|apply Qle_refl].
      by apply Qplus_le_compat; [apply Qle_refl|].
Qed.

Lemma pairSimilarities_range issues contexts (l : list Issue) :
  Forall (fun q => (0 <= q <= 1)%Q)
         (pairSimilarities (calculateOverlapMatrix issues contexts) l).
Proof.
  induction l as [|x l IH]; simpl; [constructor|].
  apply Forall_app. split; [|exact IH].
  apply Forall_fmap, Forall_forall. intros y _. apply matrixGet_range.
Qed.

Lemma calculateAvgSimilarity_range issues contexts (l : list Issue) :
  (0 <= calculateAvgSimilarity l (calculateOverlapMatrix issues contexts)
   <= 1)%Q.
Proof.
  unfold calculateAvgSimilarity.
  destruct (length l <? 2)%nat; [split; discriminate|]. cbv zeta.
  destruct (sum_range _ (pairSimilarities_range issues contexts l) 0%Q)
    as [H0 H1].
  rewrite Qplus_0_l in H1.
  destruct (0 <? length _)%nat eqn:E; [|split; discriminate].
  apply Nat.ltb_lt in E.
  assert (Hpos : (0 < inject_Z (Z.of_nat
                      (length (pairSimilarities
                                 (calculateOverlapMatrix issues contexts) l))))%Q).
  { change 0%Q with (inject_Z 0). rewrite <- Zlt_Qlt. lia. }
  split.
  - apply Qle_shift_div_l; [exact Hpos|]. by rewrite Qmult_0_l.
  - apply Qle_shift_div_r; [exact Hpos|]. by rewrite Qmult_1_l.
Qed.

Lemma groupFold_similarity cfg issues contexts sortedIssues
    (rest : list Issue) :
  forall st : list WaveGroup * gset string,
    Forall (fun g => (0 <= similarity g <= 1)%Q) st.1 ->
    Forall (fun g => (0 <= similarity g <= 1)%Q)
           (fold_left (groupStep cfg (calculateOverlapMatrix issues contexts)
                         sortedIssues) rest st).1.
Proof.
  induction rest as [|x rest IH]; intros [groups assigned] Hall; [done|].
  cbn [fold_left]. apply IH. unfold groupStep.
  case_bool_decide; [done|]. simpl.
  apply Forall_app. split; [done|]. apply Forall_singleton. simpl.
  apply calculateAvgSimilarity_range.
Qed.

Lemma splitFold_similarity cfg ecfg contexts group (rest : list Issue) :
  forall st : list WaveGroup * list Issue * Z,
    Forall (fun g => similarity g = similarity group) st.1.1 ->
    Forall (fun g => similarity g = similarity group)
           (fold_left (splitStep cfg ecfg contexts group) rest st).1.1.
Proof.
  induction rest as [|x rest IH]; intros [[subGroups currentIssues] tokens] Hall;
    [done|].
  cbn [fold_left]. apply IH. unfold splitStep.
  destruct (_ || _); simpl; [|done].
  apply Forall_app. split; [done|]. by apply Forall_singleton.
Qed.

Lemma splitGroupIfNeeded_similarity cfg ecfg group contexts :
  Forall (fun g => similarity g = similarity group)
         (splitGroupIfNeeded cfg ecfg group contexts).
Proof.
  unfold splitGroupIfNeeded. destruct (_ && _); [by apply Forall_singleton|].
  pose proof (splitFold_similarity cfg ecfg contexts group (groupIssues group)
                ([], [], 0%Z) (Forall_nil_2 _)) as H.
  destruct (fold_left _ _ _) as [[subGroups currentIssues] tokens].
  simpl in H. destruct (0 <? length currentIssues)%nat; [|done].
  apply Forall_app. split; [done|]. by apply Forall_singleton.
Qed.

Lemma waveFold_descriptions ecfg contexts (subGroups : list WaveGroup) :
  forall (waves : list WaveBody) (waveNumber : nat),
    map (fun w => (Organizer.issues w, waveDescription w))
        (fold_left (waveStep ecfg contexts) subGroups (waves, waveNumber)).1
    = map (fun w => (Organizer.issues w, waveDescription w)) waves
      ++ map (fun g => (groupIssues g, generateWaveDescription g)) subGroups.
Proof.
  induction subGroups as [|g subGroups IH]; intros waves n; simpl.
  - by rewrite app_nil_r.
  - rewrite IH, map_app. simpl. by rewrite <- app_assoc.
Qed.

(** [Math.round(similarity * 100)] of a sub-group. *)
Definition overlapPercent (g : WaveGroup) : Z :=
  JS.round (similarity g * 100)%Q.

(** X18. The description of every wave of [organize] lists the
    identifiers of the issues of the wave and ends with a context overlap
    between 0% and 100%: the similarity of a group is an average of matrix
    entries, and the parts of a split group keep the similarity of the
    whole group. *)
Theorem organize_wave_descriptions :
  forall (cfg : OrganizerConfig) (ecfg : EstimationConfig)
         (issues : list Issue) (contexts : gmap string CodebaseContext),
    Forall (fun w =>
              exists percent : Z,
                (0 <= percent <= 100)%Z
                /\ waveDescription w
                   = ("Issues: "
                      +:+ Text.join ", " (map identifier (Organizer.issues w))
                      +:+ " (" +:+ pretty percent
                      +:+ "% context overlap)")%string)
           (map body (organize cfg ecfg issues contexts)).
Proof.
  intros cfg ecfg issues contexts.
  assert (Hsub : Forall (fun g => (0 <= overlapPercent g <= 100)%Z)
                        (subGroupsOf cfg ecfg issues contexts)).
  { apply (Forall_subGroupsOf_from cfg ecfg issues contexts
             (fun g => (0 <= similarity g <= 1)%Q)).
    - unfold groupByContext. apply groupFold_similarity. constructor.
    - intros group [H0 H1].
      eapply Forall_impl; [apply splitGroupIfNeeded_similarity|].
      simpl. intros g Hg. unfold overlapPercent. rewrite Hg. split.
      + apply EstimatorProperties.round_nonneg.
        apply Qmult_le_0_compat; [exact H0 | discriminate].
      + change 100%Z with (JS.round 100).
        apply EstimatorProperties.round_mono.
        apply (Qmult_le_compat_r _ _ 100) in H1; [|discriminate].
        exact H1. }
  assert (Hmap : map (fun w => (Organizer.issues w, waveDescription w))
                     (map body (organize cfg ecfg issues contexts))
                 = map (fun g => (groupIssues g, generateWaveDescription g))
                       (subGroupsOf cfg ecfg issues contexts)).
  { rewrite organize_bodies. destruct (length issues =? 0)%nat eqn:E.
    - apply Nat.eqb_eq, length_zero_iff_nil in E. subst.
      unfold subGroupsOf. by destruct (respectDependencies cfg).
    - unfold groupsToWaves, subGroupsOf.
      rewrite (fold_left_flat_map (waveStep ecfg contexts)
                 (fun group => splitGroupIfNeeded cfg ecfg group contexts)).
      by rewrite waveFold_descriptions. }
  assert (H : Forall (fun x : list Issue * string =>
                        exists percent : Z,
                          (0 <= percent <= 100)%Z
                          /\ x.2 = ("Issues: "
                                    +:+ Text.join ", " (map identifier x.1)
                                    +:+ " (" +:+ pretty percent
                                    +:+ "% context overlap)")%string)
                     (map (fun w => (Organizer.issues w, waveDescription w))
                          (map body (organize cfg ecfg issues contexts)))).
  { rewrite Hmap. apply Forall_fmap.
    eapply Forall_impl; [exact Hsub|]. simpl. intros g Hg.
    exists (overlapPercent g). split; [exact Hg | reflexivity]. }
  apply Forall_forall. intros w Hw. rewrite Forall_forall in H.
  apply (H (Organizer.issues w, waveDescription w)).
  apply list_elem_of_fmap. by exists w.
Qed.

End OrganizerProperties.

(* ===================================================================== *)
(** ** Further properties of the risk predictor                           *)
(* ===================================================================== *)

Module RiskPredictorProperties.
Import RiskPredictor RiskPredictorFacts.

(** *** Risk identifiers *)

(** [`RISK-${n}`] *)
Definition riskLabel (n : nat) : string := "RISK-" +:+ pretty n.

(** The risks carry the labels [start], [start + 1], ... in order. *)
Definition numberedFrom (start : nat) (risks : list Risk) : Prop :=
  map riskId risks = map riskLabel (seq start (length risks)).

Lemma numberedFrom_app (start : nat) (l1 l2 : list Risk) :
  numberedFrom start l1 -> numberedFrom (start + length l1) l2 ->
  numberedFrom start (l1 ++ l2).
Proof.
  unfold numberedFrom. intros H1 H2.
  by rewrite map_app, length_app, seq_app, map_app, H1, H2.
Qed.

Lemma numberedFrom_snoc (start : nat) (risks : list Risk) (r : Risk) :
  numberedFrom start risks ->
  riskId r = riskLabel (start + length risks) ->
  numberedFrom start (risks ++ [r]).
Proof.
  intros H Hr. apply numberedFrom_app; [done|].
  unfold numberedFrom. simpl. by rewrite Hr.
Qed.

Lemma fold_left_preserves {A B} (P : A -> Prop) (f : A -> B -> A)
    (l : list B) :
  (forall acc b, P acc -> P (f acc b)) ->
  forall acc, P acc -> P (fold_left f l acc).
Proof.
  intros Hf. induction l as [|b l IH]; intros acc Hacc; simpl; [done|].
  apply IH, Hf, Hacc.
Qed.

Lemma analyzeIssue_numbered patterns issue context startId :
  numberedFrom startId (analyzeIssue patterns issue context startId).
Proof.
  unfold analyzeIssue.
  apply (fold_left_preserves (numberedFrom startId)); [|done].
  intros risks pattern H. rewrite analyzePattern_cases.
  destruct (fires issue context pattern); [|done].
  by apply numberedFrom_snoc.
Qed.

Lemma analyzeIntegrationRisks_numbered issues startId :
  numberedFrom startId (analyzeIntegrationRisks issues startId).
Proof.
  unfold analyzeIntegrationRisks.
  apply (fold_left_preserves (numberedFrom startId)).
  - intros risks issue H. unfold labelRisks.
    apply (fold_left_preserves (numberedFrom startId)); [|done].
    intros acc label Hacc. destruct (List.find _ issues); [|done].
    by apply numberedFrom_snoc.
  - apply (fold_left_preserves (numberedFrom startId)); [|done].
    intros risks issue H. unfold parentRisk.
    destruct (truthy_string (parentId issue)); [|done].
    destruct (List.find _ issues); [|done].
    by apply numberedFrom_snoc.
Qed.

Lemma analyzeSteps_numbered patterns contexts (issues : list Issue) :
  forall (risks : list Risk) (riskIdCounter : nat),
    numberedFrom 1 risks -> riskIdCounter = (1 + length risks)%nat ->
    let st := fold_left (analyzeStep patterns contexts) issues
                        (risks, riskIdCounter) in
    numberedFrom 1 st.1 /\ st.2 = (1 + length st.1)%nat.
Proof.
  induction issues as [|issue issues IH]; intros risks n Hnum Hn; [done|].
  cbn [fold_left]. unfold analyzeStep at 2. apply IH.
  - apply numberedFrom_app; [done|]. rewrite <- Hn.
    apply analyzeIssue_numbered.
  - rewrite length_app. lia.
Qed.

Lemma riskLabel_inj : Inj (=) (=) riskLabel.
Proof.
  intros m n H. unfold riskLabel in H.
  apply String.app_inj in H. by apply pretty_nat_inj in H.
Qed.

(** X19. The risks that [analyze] returns carry the identifiers [RISK-1],
    [RISK-2], ... in the order of the list, the cross-issue risks
    continuing the numbering of the per-issue risks; no two risks share
    an identifier. *)
Theorem analyze_risk_ids_sequential :
  forall (patterns : list RiskPattern) (issues : list Issue)
         (contexts : gmap string CodebaseContext),
    let result := risks (analyze patterns issues contexts) in
    map riskId result = map riskLabel (seq 1 (length result))
    /\ NoDup (map riskId result).
Proof.
  intros patterns issues contexts result.
  assert (Hnum : numberedFrom 1 result).
  { unfold result. rewrite analyze_risks.
    destruct (analyzeSteps_numbered patterns contexts issues [] 1)
      as [Hnum Hn]; [done | done |].
    apply numberedFrom_app; [done|]. rewrite <- Hn.
    apply analyzeIntegrationRisks_numbered. }
  split; [exact Hnum|]. rewrite Hnum.
  apply (NoDup_fmap_2 riskLabel), NoDup_ListNoDup, List.seq_NoDup.
Qed.

(** *** Likelihood and evidence *)

(** How many of the three signals of [pattern] fire. *)
Definition evidenceCount (issue : Issue) (context : option CodebaseContext)
    (pattern : RiskPattern) : nat :=
  (if hasKeyword pattern (issueContent issue) then 1 else 0)
  + (if hasFileMatch pattern (contextFiles context) then 1 else 0)
  + (if hasDescriptionMatch pattern (issueContent issue) then 1 else 0).

(** What [analyzeIssue] guarantees about a risk of [pattern]. *)
Definition likelihoodFollowsEvidence (issue : Issue)
    (context : option CodebaseContext) (pattern : RiskPattern) (r : Risk)
  : Prop :=
  let n := evidenceCount issue context pattern in
  category r = patternCategory pattern
  /\ 1 <= n <= 3
  /\ (contextFiles context = [] -> n <= 2)
  /\ (n = 3 -> likelihood r = likelihood_high)
  /\ (n = 2 -> likelihood r = defaultLikelihood pattern)
  /\ (n = 1 -> likelihood r <> likelihood_high)
  /\ (defaultLikelihood pattern <> likelihood_high -> n < 3 ->
      likelihood r = defaultLikelihood pattern).

Lemma hasFileMatch_no_files (pattern : RiskPattern) :
  hasFileMatch pattern [] = false.
Proof.
  unfold hasFileMatch. induction (filePatterns pattern) as [|fp fps IH]; done.
Qed.

Lemma analyzeFold_likelihood (patterns : list RiskPattern) issue context
    startId (ps : list RiskPattern) :
  forall risks : list Risk,
    (forall p, p ∈ ps -> p ∈ patterns) ->
    Forall (fun r => exists p, p ∈ patterns
                               /\ likelihoodFollowsEvidence issue context p r)
           risks ->
    Forall (fun r => exists p, p ∈ patterns
                               /\ likelihoodFollowsEvidence issue context p r)
           (fold_left (analyzePattern issue context startId) ps risks).
Proof.
  induction ps as [|p ps IH]; intros risks Hsub Hall; [done|].
  cbn [fold_left]. apply IH; [intros q Hq; apply Hsub; by right|].
  rewrite analyzePattern_cases.
  destruct (fires issue context p) eqn:Hfires; [|done].
  apply Forall_app. split; [done|]. apply Forall_singleton.
  exists p. split; [apply Hsub; by left|].
  unfold likelihoodFollowsEvidence, evidenceCount. simpl.
  unfold fires in Hfires.
  assert (Hfiles : contextFiles context = [] ->
                   hasFileMatch p (contextFiles context) = false)
    by (intros ->; apply hasFileMatch_no_files).
  destruct (hasKeyword p (issueContent issue)),
           (hasFileMatch p (contextFiles context)),
           (hasDescriptionMatch p (issueContent issue)),
           (defaultLikelihood p);
    simpl in *; split_and!;
    first [done | lia | by intros H; specialize (Hfiles H)].
Qed.

(** X20. Every risk that [analyzeIssue] emits comes from a pattern of the
    table with between one and three signals firing: with three signals
    its likelihood is high, with two it is the pattern's default, with one
    it is never high, and a default other than high is changed only by
    three signals.  Without files in the context at most two signals can
    fire. *)
Theorem likelihood_follows_evidence :
  forall (patterns : list RiskPattern) (issue : Issue)
         (context : option CodebaseContext) (startId : nat),
    Forall (fun r => exists p, p ∈ patterns
                               /\ likelihoodFollowsEvidence issue context p r)
           (analyzeIssue patterns issue context startId).
Proof.
  intros patterns issue context startId. unfold analyzeIssue.
  by apply analyzeFold_likelihood.
Qed.

(** *** The risk score *)

(** The sum of the weights of a list of impact and likelihood pairs. *)
Fixpoint pairWeights (l : list (RiskImpact * RiskLikelihood)) : Z :=
  match l with
  | [] => 0
  | (i, k) :: l' => impactWeight i * likelihoodWeight k + pairWeights l'
  end.

Lemma weightedSum_pairWeights (risks : list Risk) :
  weightedSum risks
  = pairWeights (map (fun r => (impact r, likelihood r)) risks).
Proof. induction risks as [|r risks IH]; simpl; [done|]. by rewrite IH. Qed.

Lemma pairWeights_Permutation (l l' : list (RiskImpact * RiskLikelihood)) :
  l ≡ₚ l' -> pairWeights l = pairWeights l'.
Proof.
  induction 1 as [|[i k] l l' _ IH|[i k] [i' k'] l|l l' l'' _ IH1 _ IH2];
    simpl; lia.
Qed.

(** X22. The risk score depends only on the impacts and likelihoods of the
    risks, not on their order, categories or issues: two risk lists whose
    impact and likelihood pairs are the same up to order have the same
    score. *)
Theorem calculateRiskScore_order_independent :
  forall risks risks' : list Risk,
    map (fun r => (impact r, likelihood r)) risks
    ≡ₚ map (fun r => (impact r, likelihood r)) risks' ->
    calculateRiskScore risks = calculateRiskScore risks'.
Proof.
  intros risks risks' Hperm.
  rewrite !calculateRiskScore_normalise, !totalScore_weightedSum,
    !weightedSum_pairWeights.
  rewrite (pairWeights_Permutation _ _ Hperm).
  apply Permutation_length in Hperm. rewrite !length_map in Hperm.
  by rewrite Hperm.
Qed.

Lemma calculateRiskScore_order_independent_witness :
  calculateRiskScore
    [riskOf impact_high likelihood_low; riskOf impact_low likelihood_high]
  = calculateRiskScore
      [riskOf impact_low likelihood_high; riskOf impact_high likelihood_low].
Proof.
  apply calculateRiskScore_order_independent. simpl. apply perm_swap.
Defined.

(** The score passes 50 exactly when the weights add up to 122 or more. *)
Lemma normalise_buffer_table :
  forallb (fun n => Bool.eqb (50 <? normalise (Z.of_nat n))%Z
                             (122 <=? Z.of_nat n)%Z)
          (seq 0 241) = true.
Proof. vm_compute. reflexivity. Qed.

Lemma normalise_over_50 (total : Z) :
  (0 <= total <= 240)%Z -> (50 < normalise total)%Z <-> (122 <= total)%Z.
Proof.
  intros Hrange. pose proof normalise_buffer_table as Ht.
  rewrite forallb_forall in Ht. specialize (Ht (Z.to_nat total)).
  rewrite Z2Nat.id in Ht by lia.
  assert (Hin : In (Z.to_nat total) (seq 0 241)) by (apply in_seq; lia).
  apply Ht, Bool.eqb_prop in Hin.
  rewrite <- Z.ltb_lt, <- Z.leb_le. by rewrite Hin.
Qed.

Lemma weightedSum_bound (risks : list Risk) :
  (weightedSum risks <= 24 * Z.of_nat (length risks))%Z.
Proof.
  induction risks as [|r risks IH]; simpl length; simpl weightedSum; [lia|].
  pose proof (weight_range r). lia.
Qed.

Lemma adjustmentsFor_no_buffer (adjustments : list WaveAdjustment)
    (entry : string * list Risk) :
  Forall (fun a => adjustmentType a <> add_buffer) adjustments ->
  Forall (fun a => adjustmentType a <> add_buffer)
         (adjustmentsFor adjustments entry).
Proof.
  intros Hall. destruct entry as [issueId issueRisks]. unfold adjustmentsFor.
  repeat match goal with
         | |- context [if ?b then _ else _] => destruct b
         end;
    repeat (apply Forall_app; split); try done;
    by apply Forall_singleton.
Qed.

(** X23. [generateWaveAdjustments] recommends the token buffer exactly
    when the risk score is above 50, and then as its last adjustment.
    While the weights of the risks add up to at most 240 this is the case
    exactly from a sum of 122 on, so that a plan with at most five risks
    never gets the buffer. *)
Theorem buffer_adjustment_iff_score_over_50 :
  forall (risks : list Risk) (issues : list Issue),
    let adjustments := generateWaveAdjustments risks issues in
    ((exists a, a ∈ adjustments /\ adjustmentType a = add_buffer)
     <-> (50 < calculateRiskScore risks)%Z)
    /\ ((50 < calculateRiskScore risks)%Z ->
        adjustmentType <$> last adjustments = Some add_buffer)
    /\ ((totalScore risks <= 240)%Z ->
        ((50 < calculateRiskScore risks)%Z <-> (122 <= totalScore risks)%Z))
    /\ (length risks <= 5 -> (calculateRiskScore risks <= 50)%Z).
Proof.
  intros risks issues adjustments.
  assert (Hbelow : (totalScore risks <= 240)%Z ->
                   ((50 < calculateRiskScore risks)%Z
                    <-> (122 <= totalScore risks)%Z)).
  { intros Hle. rewrite calculateRiskScore_normalise.
    pose proof (weightedSum_nonneg risks) as H0.
    rewrite <- totalScore_weightedSum in H0.
    destruct risks as [|r risks];
      [unfold totalScore; cbn [length Nat.eqb fold_left]; lia|].
    simpl Nat.eqb. cbv iota. apply normalise_over_50. lia. }
  assert (Hold : Forall (fun a => adjustmentType a <> add_buffer)
                   (fold_left adjustmentsFor
                      (fold_left
                         (fun m risk => addRisk (issueIdentifier risk) risk m)
                         risks [])
                      [])).
  { apply (fold_left_preserves
             (Forall (fun a => adjustmentType a <> add_buffer)));
      [apply adjustmentsFor_no_buffer | constructor]. }
  split_and!.
  - unfold adjustments, generateWaveAdjustments.
    destruct (50 <? calculateRiskScore risks)%Z eqn:E.
    + apply Z.ltb_lt in E. split; [done|]. intros _.
      eexists. split; [apply elem_of_app; right; by left | done].
    + apply Z.ltb_ge in E. split; [|lia].
      intros (a & Ha & Hty). rewrite Forall_forall in Hold.
      by destruct (Hold a Ha).
  - intros Hover. unfold adjustments, generateWaveAdjustments.
    rewrite (proj2 (Z.ltb_lt _ _) Hover). by rewrite last_snoc.
  - exact Hbelow.
  - intros Hlen. pose proof (weightedSum_bound risks) as Hb.
    rewrite <- totalScore_weightedSum in Hb.
    destruct (Hbelow ltac:(lia)) as [H1 _]. lia.
Qed.

Lemma buffer_adjustment_iff_score_over_50_witness :
  (totalScore risks138 <= 240)%Z
  /\ (50 < calculateRiskScore risks138)%Z
  /\ adjustmentType <$> last (generateWaveAdjustments risks138 [])
     = Some add_buffer.
Proof.
  assert (Hle : (totalScore risks138 <= 240)%Z) by (vm_compute; discriminate).
  destruct (buffer_adjustment_iff_score_over_50 risks138 [])
    as (_ & Hlast & Hbelow & _).
  assert (Hover : (50 < calculateRiskScore risks138)%Z).
  { apply (Hbelow Hle). vm_compute. discriminate. }
  split_and!; [exact Hle | exact Hover | exact (Hlast Hover)].
Defined.

(** *** Adjustments per issue *)

(** The entries of [risksByIssue] under the key [k]. *)
Definition entriesFor (k : string) (m : list (string * list Risk))
  : list (string * list Risk) :=
  List.filter (fun e => String.eqb e.1 k) m.

(** The risks of the issue with identifier [k], in order. *)
Definition risksOf (k : string) (risks : list Risk) : list Risk :=
  List.filter (fun r => String.eqb (issueIdentifier r) k) risks.

(** [m] groups [risks] by issue identifier: one entry for each identifier
    that occurs, holding its risks in order. *)
Definition grouped (risks : list Risk) (m : list (string * list Risk)) : Prop :=
  forall k, entriesFor k m
            = match risksOf k risks with
              | [] => []
              | rs => [(k, rs)]
              end.

Lemma addRisk_entriesFor (k key : string) (r : Risk)
    (m : list (string * list Risk)) :
  entriesFor k (addRisk key r m)
  = if String.eqb key k
    then match entriesFor k m with
         | [] => [(key, [r])]
         | (k0, rs) :: rest => (k0, rs ++ [r]) :: rest
         end
    else entriesFor k m.
Proof.
  unfold entriesFor. induction m as [|[k1 existing] m IH]; simpl.
  - by destruct (String.eqb key k).
  - destruct (String.eqb_spec k1 key) as [->|Hne]; simpl.
    + by destruct (String.eqb key k).
    + rewrite IH. destruct (String.eqb_spec k1 k) as [->|Hne'];
        destruct (String.eqb_spec key k) as [->|Hne'']; done.
Qed.

Lemma risksByIssue_grouped (risks : list Risk) :
  forall (pre : list Risk) (m : list (string * list Risk)),
    grouped pre m ->
    grouped (pre ++ risks)
            (fold_left (fun m risk => addRisk (issueIdentifier risk) risk m)
                       risks m).
Proof.
  induction risks as [|r risks IH]; intros pre m Hm; simpl.
  - by rewrite app_nil_r.
  - replace (pre ++ r :: risks) with ((pre ++ [r]) ++ risks)
      by (by rewrite <- app_assoc).
    apply IH. intros k. rewrite addRisk_entriesFor, (Hm k).
    unfold risksOf. rewrite List.filter_app. simpl.
    destruct (String.eqb_spec (issueIdentifier r) k) as [->|Hne].
    + by destruct (List.filter _ pre).
    + by rewrite app_nil_r.
Qed.

(** A reorder adjustment for the issue [k]. *)
Definition isReorderFor (k : string) (a : WaveAdjustment) : bool :=
  match adjustmentType a with
  | reorder => bool_decide (adjustmentIssues a = [k])
  | _ => false
  end.

Definition isBreaking (r : Risk) : bool :=
  bool_decide (category r = breaking_change).

Lemma adjustmentsFor_app (adjustments : list WaveAdjustment)
    (entry : string * list Risk) :
  adjustmentsFor adjustments entry
  = adjustments ++ adjustmentsFor [] entry.
Proof.
  destruct entry as [issueId issueRisks]. unfold adjustmentsFor.
  repeat match goal with
         | |- context [if ?b then _ else _] => destruct b
         end;
    simpl; by rewrite <- ?app_assoc, ?app_nil_r.
Qed.

Lemma adjustments_flat_map (m : list (string * list Risk)) :
  forall adjustments,
    fold_left adjustmentsFor m adjustments
    = adjustments ++ flat_map (adjustmentsFor []) m.
Proof.
  induction m as [|e m IH]; intros adjustments; simpl.
  - by rewrite app_nil_r.
  - by rewrite IH, adjustmentsFor_app, <- app_assoc.
Qed.

Lemma reorder_of_entry (k issueId : string) (issueRisks : list Risk) :
  List.filter (isReorderFor k) (adjustmentsFor [] (issueId, issueRisks))
  = if String.eqb issueId k && existsb isBreaking issueRisks
    then [{| adjustmentType := reorder;
             reason := issueId +:+ " has breaking change risk";
             adjustmentIssues := [issueId];
             recommendation :=
               "Place " +:+ issueId
               +:+ " earlier in wave sequence to allow dependent issues to adapt"
          |}]
    else [].
Proof.
  unfold adjustmentsFor. fold isBreaking.
  assert (Hk : bool_decide ([issueId] = [k]) = String.eqb issueId k).
  { destruct (String.eqb_spec issueId k) as [->|Hne].
    - by apply bool_decide_eq_true.
    - apply bool_decide_eq_false. congruence. }
  destruct (existsb isBreaking issueRisks);
    repeat match goal with
           | |- context [if ?b then _ else _] =>
               lazymatch b with
               | (String.eqb issueId k && _) => fail
               | _ => destruct b
               end
           end;
    simpl; unfold isReorderFor; simpl; rewrite ?Hk, ?andb_true_r, ?andb_false_r;
    by destruct (String.eqb issueId k).
Qed.

Lemma reorder_entries (k : string) (m : list (string * list Risk)) :
  List.filter (isReorderFor k) (flat_map (adjustmentsFor []) m)
  = List.filter (isReorderFor k)
                (flat_map (adjustmentsFor []) (entriesFor k m)).
Proof.
  unfold entriesFor. induction m as [|[k1 rs] m IH]; [done|].
  cbn [List.filter flat_map fst].
  rewrite List.filter_app, IH. destruct (String.eqb k1 k) eqn:E.
  - cbn [flat_map]. by rewrite List.filter_app.
  - by rewrite reorder_of_entry, E.
Qed.

(** X24. [generateWaveAdjustments] groups the risks by issue identifier
    and recommends reordering once for every identifier that has a
    breaking-change risk, however many such risks it has, and never for
    an identifier without one. *)
Theorem one_reorder_per_issue_with_breaking_change :
  forall (risks : list Risk) (issues : list Issue) (k : string),
    length (List.filter (isReorderFor k)
                        (generateWaveAdjustments risks issues))
    = if existsb (fun r => String.eqb (issueIdentifier r) k && isBreaking r)
                 risks
      then 1 else 0.
Proof.
  intros risks issues k.
  assert (Hadj : List.filter (isReorderFor k)
                             (generateWaveAdjustments risks issues)
                 = List.filter (isReorderFor k)
                     (flat_map (adjustmentsFor [])
                        (fold_left
                           (fun m risk =>
                              addRisk (issueIdentifier risk) risk m)
                           risks []))).
  { unfold generateWaveAdjustments. rewrite adjustments_flat_map. simpl.
    destruct (50 <? calculateRiskScore risks)%Z; [|done].
    rewrite List.filter_app. simpl. by rewrite app_nil_r. }
  rewrite Hadj, reorder_entries.
  rewrite (risksByIssue_grouped risks [] [] (fun k => eq_refl) k).
  cbn [app].
  assert (Hex : existsb (fun r => String.eqb (issueIdentifier r) k
                                  && isBreaking r) risks
                = existsb isBreaking (risksOf k risks)).
  { unfold risksOf. clear. induction risks as [|r risks IH]; simpl; [done|].
    rewrite IH. by destruct (String.eqb (issueIdentifier r) k). }
  rewrite Hex. destruct (risksOf k risks) as [|r rs] eqn:E; [done|].
  cbn [flat_map]. rewrite app_nil_r, reorder_of_entry, String.eqb_refl.
  cbn [andb]. by destruct (existsb isBreaking (r :: rs)).
Qed.

End RiskPredictorProperties.

(* ===================================================================== *)
(** ** Further properties of the risk predictor on issues of the interface *)
(* ===================================================================== *)

Module RiskPredictorOnInterfaceProperties.
Import RiskPredictor RiskPredictorFacts RiskPredictorOnInterface.
Import RiskPredictorOnInterfaceFacts.

(** Per-issue matching names no second issue and suggests no wave
    adjustment. *)
Definition namesNoOtherIssue (r : Risk) : Prop :=
  affectedIssues r = None /\ suggestedWaveAdjustment r = None.

Lemma analyzeIssue_namesNoOtherIssue patterns issue context startId :
  Forall namesNoOtherIssue (analyzeIssue patterns issue context startId).
Proof.
  unfold analyzeIssue.
  assert (H : forall risks,
             Forall namesNoOtherIssue risks ->
             Forall namesNoOtherIssue
                    (fold_left (analyzePattern issue context startId)
                               patterns risks)).
  { induction patterns as [|p patterns IH]; intros risks Hall; simpl; [done|].
    apply IH. rewrite analyzePattern_cases.
    destruct (fires issue context p); [|done].
    apply Forall_app. split; [done|]. by apply Forall_singleton. }
  by apply H.
Qed.

Lemma analyzeSteps_namesNoOtherIssue patterns contexts (issues : list Issue) :
  forall (risks : list Risk) (riskIdCounter : nat),
    Forall namesNoOtherIssue risks ->
    Forall namesNoOtherIssue
           (fold_left (analyzeStep patterns contexts) issues
                      (risks, riskIdCounter)).1.
Proof.
  induction issues as [|issue issues IH]; intros risks n Hall; simpl; [done|].
  apply IH. apply Forall_app. split; [done|].
  apply analyzeIssue_namesNoOtherIssue.
Qed.

(** [analyze] of the predictor on the issues as it reads them, when no
    issue has a label. *)
Lemma analyze_readIssue patterns (issues : list Interface.Issue) contexts :
  labelFree issues = true ->
  RiskPredictor.analyze patterns (map readIssue issues) contexts
  = report (fold_left (analyzeStep patterns contexts)
                      (map readIssue issues) ([], 1)).1
           (map readIssue issues).
Proof.
  intros Hfree. unfold RiskPredictor.analyze.
  pose proof (analyzeIntegrationRisks_readIssue issues) as Hint.
  destruct (fold_left (analyzeStep patterns contexts) (map readIssue issues)
                      ([], 1)) as [risks n].
  rewrite (Hint n Hfree), app_nil_r. reflexivity.
Qed.

(** Two issues of the interface without labels, the second with the
    first as its [parent]. *)
Definition footerIssue : Interface.Issue := {|
  Interface.id := "r1"; Interface.identifier := "SMI-20";
  Interface.title := "Polish footer";
  Interface.description := "Align the links";
  Interface.priority := Interface.P2_Medium;
  Interface.labels := [];
  Interface.parent := None; Interface.estimate := None |}.

Definition footerChild : Interface.Issue := {|
  Interface.id := "r2"; Interface.identifier := "SMI-21";
  Interface.title := "Fix typo in footer";
  Interface.description := "";
  Interface.priority := Interface.P2_Medium;
  Interface.labels := [];
  Interface.parent := Some "r1"%string; Interface.estimate := None |}.

(** The child with a label that names the first issue. *)
Definition footerDependent : Interface.Issue := {|
  Interface.id := "r2"; Interface.identifier := "SMI-21";
  Interface.title := "Fix typo in footer";
  Interface.description := "";
  Interface.priority := Interface.P2_Medium;
  Interface.labels :=
    [{| Interface.label_id := "l2"; Interface.name := "depends:SMI-20";
        Interface.color := None |}];
  Interface.parent := Some "r1"%string; Interface.estimate := None |}.

(** X21. On issues of the interface the cross-issue pass emits no risk.
    Its first loop tests [issue.parentId], a property that no issue of
    the interface has, and never looks at [parent]; its second loop calls
    a string method on the first label it meets, an object, and throws.
    So the pass throws exactly when some issue has a label and returns
    the empty list otherwise, for every [startId]; [analyze] throws
    exactly when some issue has a label, and otherwise returns the risks
    of per-issue matching alone, one for each issue and each pattern that
    fires for it in batch and table order, none of which names a second
    issue or suggests a wave adjustment.  An issue whose parent is in the
    batch gets no risk; with a [depends:] label naming an issue of the
    batch, [analyze] throws. *)
Theorem analyze_on_interface_issues :
  forall (patterns : list RiskPattern) (issues : list Interface.Issue)
         (contexts : gmap string CodebaseContext),
    (forall startId,
       (RiskPredictorOnInterface.analyzeIntegrationRisks issues startId
        = TypeError
        <-> exists issue, issue ∈ issues /\ Interface.labels issue <> [])
       /\ (RiskPredictorOnInterface.analyzeIntegrationRisks issues startId
           = Returned []
           <-> Forall (fun issue => Interface.labels issue = []) issues)
       /\ forall risks,
            RiskPredictorOnInterface.analyzeIntegrationRisks issues startId
            = Returned risks -> risks = [])
    /\ (RiskPredictorOnInterface.analyze patterns issues contexts = TypeError
        <-> exists issue, issue ∈ issues /\ Interface.labels issue <> [])
    /\ (forall result,
          RiskPredictorOnInterface.analyze patterns issues contexts
          = Returned result ->
          risks result
          = (fold_left (analyzeStep patterns contexts)
                       (map readIssue issues) ([], 1)).1
          /\ map riskKey (risks result)
             = flat_map (firedKeys patterns contexts) (map readIssue issues)
          /\ Forall namesNoOtherIssue (risks result)
          /\ result
             = RiskPredictor.analyze patterns (map readIssue issues) contexts)
    /\ (exists result,
          RiskPredictorOnInterface.analyze RISK_PATTERNS
            [footerIssue; footerChild] ∅ = Returned result
          /\ risks result = [])
    /\ RiskPredictorOnInterface.analyze RISK_PATTERNS
         [footerIssue; footerDependent] ∅ = TypeError.
Proof.
  intros patterns issues contexts. split_and!.
  - intros startId. rewrite analyzeIntegrationRisks_outcome.
    rewrite <- labelFree_false, <- labelFree_Forall.
    destruct (labelFree issues); split_and!; try done.
    intros risks [= <-]. done.
  - rewrite analyze_outcome, <- labelFree_false.
    by destruct (labelFree issues).
  - intros result. rewrite analyze_outcome.
    destruct (labelFree issues) eqn:Hfree; [|done]. intros [= <-].
    change (risks (report ?r ?i)) with r. split_and!.
    + done.
    + by rewrite analyzeSteps_keys.
    + by apply analyzeSteps_namesNoOtherIssue.
    + by rewrite analyze_readIssue.
  - eexists. split; [rewrite analyze_outcome; reflexivity|].
    vm_compute. reflexivity.
  - rewrite analyze_outcome. reflexivity.
Qed.

End RiskPredictorOnInterfaceProperties.

(* ===================================================================== *)
(** ** Properties of the codebase analyzer and of the Linear adapter      *)
(* ===================================================================== *)

Module AnalyzerProperties.
Import Estimator Regex CodebaseAnalyzer.

(** *** Guessed test paths *)

Lemma matchesAll_Void (s : string) : matchesAll Void s = false.
Proof. induction s as [|c s IH]; [done|]. exact IH. Qed.

Lemma matchesAll_extension (c : ascii) (s : string) :
  matchesAll extensionPattern (String c s)
  = Ascii.eqb c "." && matchesAll (plus word) s.
Proof.
  unfold extensionPattern. cbn [matchesAll deriv nullable].
  destruct (Ascii.eqb c "."); [done|]. apply matchesAll_Void.
Qed.

Lemma matchesAll_testSuffix (s : string) :
  matchesAll testSuffixPattern (".test." +:+ s) = matchesAll (plus word) s.
Proof. reflexivity. Qed.

(** The replacement that [guessTestPath] makes. *)
Definition insertTest (s : string) : string :=
  replaceAtEnd extensionPattern (fun m => ".test." +:+ Text.slice 1 m) s.

Lemma insertTest_cons (c : ascii) (s : string) :
  Ascii.eqb c "." = false ->
  insertTest (String c s) = String c (insertTest s)
  /\ testAtEnd extensionPattern (String c s) = testAtEnd extensionPattern s.
Proof.
  intros Hc. unfold insertTest. cbn [replaceAtEnd testAtEnd].
  by rewrite matchesAll_extension, Hc.
Qed.

Lemma testAtEnd_insertTest (s : string) :
  testAtEnd extensionPattern s = true ->
  testAtEnd testSuffixPattern (insertTest s) = true.
Proof.
  induction s as [|c s IH]; [done|].
  unfold insertTest. cbn [replaceAtEnd testAtEnd].
  rewrite matchesAll_extension.
  destruct (Ascii.eqb_spec c ".") as [->|Hc]; cbn [andb].
  - destruct (matchesAll (plus word) s) eqn:Hm.
    + intros _. cbn [Text.slice].
      destruct (".test." +:+ s) as [|d t] eqn:E; [done|].
      cbn [testAtEnd]. by rewrite <- E, matchesAll_testSuffix, Hm.
    + cbn [orb]. intros H. fold (insertTest s).
      cbn [testAtEnd]. by rewrite (IH H), orb_true_r.
  - cbn [orb]. intros H. fold (insertTest s).
    cbn [testAtEnd]. by rewrite (IH H), orb_true_r.
Qed.

Lemma startsWith_src (path : string) :
  Text.startsWith path "src/" = true ->
  exists rest, path = ("src/" +:+ rest)%string.
Proof.
  unfold Text.startsWith. intros H.
  destruct path as [|c1 [|c2 [|c3 [|c4 rest]]]]; cbn [String.prefix] in H;
    try done;
    repeat match type of H with
           | context [ascii_dec ?a ?b] => destruct (ascii_dec a b); try done
           end.
  subst. by exists rest.
Qed.

Lemma startsWith_app (p s : string) : Text.startsWith (p +:+ s) p = true.
Proof.
  unfold Text.startsWith. induction p as [|c p IH].
  - by destruct s.
  - change (String c p +:+ s) with (String c (p +:+ s)).
    cbn [String.prefix]. destruct (ascii_dec c c); [exact IH | congruence].
Qed.

Lemma testAtEnd_app (r : re) (p s : string) :
  testAtEnd r s = true -> testAtEnd r (p +:+ s) = true.
Proof.
  intros H. induction p as [|c p IH]; [exact H|].
  change (String c p +:+ s) with (String c (p +:+ s)).
  cbn [testAtEnd]. by rewrite IH, orb_true_r.
Qed.

Lemma guessTestPath_src (rest : string) :
  guessTestPath ("src/" +:+ rest) = Some ("tests/" +:+ insertTest rest)
  /\ testAtEnd extensionPattern ("src/" +:+ rest)
     = testAtEnd extensionPattern rest.
Proof.
  unfold guessTestPath.
  rewrite startsWith_app.
  change (Text.slice 4 ("src/" +:+ rest)) with rest.
  change (replaceAtEnd extensionPattern
            (fun m => ".test." +:+ Text.slice 1 m) ("tests/" +:+ rest))
    with (insertTest ("tests/" +:+ rest)).
  change ("tests/" +:+ rest)
    with (String "t" (String "e" (String "s" (String "t" (String "s"
           (String "/" rest)))))).
  change ("src/" +:+ rest)
    with (String "s" (String "r" (String "c" (String "/" rest)))).
  repeat match goal with
         | |- context [insertTest (String ?c ?s)] =>
             rewrite (proj1 (insertTest_cons c s eq_refl))
         | |- context [testAtEnd extensionPattern (String ?c ?s)] =>
             rewrite (proj2 (insertTest_cons c s eq_refl))
         end.
  done.
Qed.

(** X25. For a path under [src/], [guessTestPath] returns a path under
    [tests/]; when the path ends in an extension, a dot followed by word
    characters, the guessed path is one that [isTestFile] recognises. *)
Theorem guessed_test_path_is_test_file :
  forall path : string,
    Text.startsWith path "src/" = true ->
    exists testPath,
      guessTestPath path = Some testPath
      /\ Text.startsWith testPath "tests/" = true
      /\ (Regex.testAtEnd extensionPattern path = true ->
          isTestFile testPath = true).
Proof.
  intros path Hsrc. apply startsWith_src in Hsrc as [rest ->].
  destruct (guessTestPath_src rest) as [Hg Ht].
  exists ("tests/" +:+ insertTest rest)%string. split_and!; [done | |].
  - apply startsWith_app.
  - rewrite Ht. intros Hext. unfold isTestFile.
    by rewrite (testAtEnd_app _ "tests/" _ (testAtEnd_insertTest rest Hext)).
Qed.

Lemma guessed_test_path_is_test_file_witness :
  Text.startsWith "src/lib/estimator.ts" "src/" = true
  /\ exists testPath,
       guessTestPath "src/lib/estimator.ts" = Some testPath
       /\ isTestFile testPath = true.
Proof.
  assert (Hsrc : Text.startsWith "src/lib/estimator.ts" "src/" = true)
    by reflexivity.
  split; [exact Hsrc|].
  destruct (guessed_test_path_is_test_file "src/lib/estimator.ts" Hsrc)
    as (testPath & Hg & _ & Htest).
  exists testPath. split; [exact Hg|]. apply Htest. reflexivity.
Defined.

(** The guesses on three paths: an extension gets [.test] before it; a
    path without extension only moves to [tests/], and is then not taken
    for a test file; a path outside [src/] has no guess. *)
Example guessTestPath_examples :
  guessTestPath "src/lib/estimator.ts" = Some "tests/lib/estimator.test.ts"%string
  /\ guessTestPath "src/Makefile" = Some "tests/Makefile"%string
  /\ isTestFile "tests/Makefile" = false
  /\ guessTestPath "lib/estimator.ts" = None.
Proof. split_and!; vm_compute; reflexivity. Qed.

(** *** Related files *)

Lemma guessTestPath_nonempty (path testPath : string) :
  guessTestPath path = Some testPath ->
  Text.startsWith testPath "tests/" = true /\ String.eqb testPath "" = false.
Proof.
  intros Hg.
  destruct (Text.startsWith path "src/") eqn:Hsrc;
    [|unfold guessTestPath in Hg; by rewrite Hsrc in Hg].
  apply startsWith_src in Hsrc as [rest ->].
  rewrite (proj1 (guessTestPath_src rest)) in Hg. injection Hg as <-.
  split; [apply startsWith_app | reflexivity].
Qed.

Lemma findRelatedFiles_fold (paths : list string) :
  forall related : list string,
    fold_left
      (fun related path =>
         match guessTestPath path with
         | Some testPath =>
             if String.eqb testPath "" then related else related ++ [testPath]
         | None => related
         end)
      paths related
    = related ++ omap guessTestPath paths.
Proof.
  induction paths as [|path paths IH]; intros related; simpl.
  - by rewrite app_nil_r.
  - rewrite IH. destruct (guessTestPath path) as [testPath|] eqn:Hg; [|done].
    rewrite (proj2 (guessTestPath_nonempty path testPath Hg)).
    by rewrite <- app_assoc.
Qed.

(** X26. [findRelatedFiles] returns the guessed test path of every path
    under [src/], in order, and nothing for the other paths; the test for
    an empty guess never discards one, since every guess lies under
    [tests/].  When every path under [src/] ends in an extension, all
    returned paths are recognised by [isTestFile]. *)
Theorem findRelatedFiles_spec :
  forall paths : list string,
    findRelatedFiles paths = omap guessTestPath paths
    /\ length (findRelatedFiles paths)
       = length (List.filter (fun p => Text.startsWith p "src/") paths)
    /\ Forall (fun t => Text.startsWith t "tests/" = true)
              (findRelatedFiles paths)
    /\ (Forall (fun p => Text.startsWith p "src/" = true ->
                         Regex.testAtEnd extensionPattern p = true) paths ->
        Forall (fun t => isTestFile t = true) (findRelatedFiles paths)).
Proof.
  intros paths.
  assert (Heq : findRelatedFiles paths = omap guessTestPath paths)
    by (unfold findRelatedFiles; by rewrite findRelatedFiles_fold).
  rewrite Heq. split_and!; [done | | |].
  - clear Heq. induction paths as [|p paths IH]; [done|].
    cbn [omap list_omap List.filter]. unfold guessTestPath at 1.
    destruct (Text.startsWith p "src/"); cbn [length]; by rewrite IH.
  - apply Forall_forall. intros t Ht.
    apply list_elem_of_omap in Ht as (p & _ & Hg).
    by destruct (guessTestPath_nonempty p t Hg).
  - intros Hext. apply Forall_forall. intros t Ht.
    apply list_elem_of_omap in Ht as (p & Hp & Hg).
    rewrite Forall_forall in Hext. specialize (Hext p Hp).
    destruct (Text.startsWith p "src/") eqn:Hsrc;
      [|unfold guessTestPath in Hg; by rewrite Hsrc in Hg].
    destruct (startsWith_src p Hsrc) as [rest ->].
    destruct (guessTestPath_src rest) as [Hg' Ht'].
    rewrite Hg' in Hg. injection Hg as <-.
    rewrite Ht' in Hext. unfold isTestFile.
    by rewrite (testAtEnd_app _ "tests/" _
                  (testAtEnd_insertTest rest (Hext eq_refl))).
Qed.

Lemma findRelatedFiles_spec_witness :
  Forall (fun p => Text.startsWith p "src/" = true ->
                   Regex.testAtEnd extensionPattern p = true)
         ["src/lib/organizer.ts"; "README.md"]%string
  /\ Forall (fun t => isTestFile t = true)
            (findRelatedFiles ["src/lib/organizer.ts"; "README.md"]%string).
Proof.
  assert (H : Forall (fun p => Text.startsWith p "src/" = true ->
                               Regex.testAtEnd extensionPattern p = true)
                     ["src/lib/organizer.ts"; "README.md"]%string)
    by (repeat constructor).
  split; [exact H|].
  exact (proj2 (proj2 (proj2 (findRelatedFiles_spec
                                ["src/lib/organizer.ts"; "README.md"]%string)))
           H).
Defined.

(** *** Average complexity *)

Lemma threshold_test (a : Z) (b : positive) (sum count : Z) :
  (0 < count)%Z ->
  Qle_bool (a # b) (inject_Z sum / inject_Z count)
  = (a * count <=? sum * Z.pos b)%Z.
Proof.
  intros Hc. apply eq_true_iff_eq. rewrite Qle_bool_iff, Z.leb_le.
  destruct count as [|n|n]; try lia.
  unfold Qle, Qdiv, Qmult, Qinv, inject_Z. simpl. lia.
Qed.

Lemma scores_bounds (lo hi : Z) (files : list FileInfo) :
  Forall (fun f => (lo <= complexityScore (complexity f) <= hi)%Z) files ->
  forall acc : Z,
    (acc + lo * Z.of_nat (length files)
     <= fold_left Z.add (map (fun f => complexityScore (complexity f)) files) acc
     <= acc + hi * Z.of_nat (length files))%Z.
Proof.
  induction 1 as [|f files Hf _ IH]; intros acc; [simpl; lia|].
  cbn [map fold_left length]. specialize (IH (acc + complexityScore (complexity f))%Z).
  lia.
Qed.

(** X27. The average complexity of a non-empty list of files lies between
    the least and the greatest complexity among them: files of one
    complexity average to it, files without a low one never average to
    low, and files without a high one never average to high. *)
Theorem calculateAvgComplexity_between :
  forall (files : list FileInfo) (lo hi : Z),
    files <> [] ->
    Forall (fun f => (lo <= complexityScore (complexity f) <= hi)%Z) files ->
    (lo <= complexityScore (calculateAvgComplexity files) <= hi)%Z.
Proof.
  intros files lo hi Hne Hall.
  assert (Hlen : (0 < Z.of_nat (length files))%Z)
    by (destruct files; [done | simpl; lia]).
  pose proof (scores_bounds lo hi files Hall 0) as Hb.
  assert (Hall' : Forall (fun f => (1 <= complexityScore (complexity f) <= 3)%Z)
                         files).
  { apply Forall_forall. intros f _. destruct (complexity f); simpl; lia. }
  pose proof (scores_bounds 1 3 files Hall' 0) as Hb'.
  unfold calculateAvgComplexity.
  destruct (length files =? 0)%nat eqn:E;
    [apply Nat.eqb_eq in E; lia|].
  cbv zeta. rewrite length_map, !threshold_test by exact Hlen.
  set (total := fold_left Z.add
                  (map (fun f => complexityScore (complexity f)) files) 0%Z)
    in *.
  destruct (25 * Z.of_nat (length files) <=? total * 10)%Z eqn:E1;
    [apply Z.leb_le in E1; simpl; nia|].
  apply Z.leb_gt in E1.
  destruct (15 * Z.of_nat (length files) <=? total * 10)%Z eqn:E2;
    [apply Z.leb_le in E2 | apply Z.leb_gt in E2]; simpl; nia.
Qed.

Lemma calculateAvgComplexity_between_witness :
  (2 <= complexityScore
          (calculateAvgComplexity
             [{| path := "src/a.ts"; lines := 100; language := "typescript";
                 complexity := high |};
              {| path := "src/b.ts"; lines := 100; language := "typescript";
                 complexity := medium |}])
   <= 3)%Z.
Proof.
  apply calculateAvgComplexity_between; [discriminate|].
  repeat constructor; simpl; lia.
Defined.

(** *** Priorities of the Linear adapter *)

(** X28. Writing a priority to Linear and reading it back gives the same
    priority.  In the other direction only the numbers 1 to 4 come back
    unchanged: 0, Linear's no priority, is read as P3-Low and written as
    4, and every other number is read as P2-Medium and written as 3. *)
Theorem priority_number_round_trip :
  (forall p : Interface.Priority,
     LinearAdapter.numberToPriority (LinearAdapter.priorityToNumber p) = p)
  /\ (forall n : Z,
        LinearAdapter.priorityToNumber (LinearAdapter.numberToPriority n) = n
        <-> (1 <= n <= 4)%Z)
  /\ LinearAdapter.priorityToNumber (LinearAdapter.numberToPriority 0) = 4%Z
  /\ (forall n : Z,
        (n < 0 \/ 4 < n)%Z ->
        LinearAdapter.priorityToNumber (LinearAdapter.numberToPriority n) = 3%Z).
Proof.
  split_and!.
  - by intros [].
  - intros n. unfold LinearAdapter.priorityToNumber, LinearAdapter.numberToPriority.
    destruct n as [|p|p]; [simpl; lia | | simpl; lia].
    destruct p as [[q|q|]|[q|[q|q|]|]|]; simpl; lia.
  - reflexivity.
  - intros n Hn. destruct n as [|p|p]; [lia | | reflexivity].
    destruct p as [[q|q|]|[q|[q|q|]|]|]; first [reflexivity | lia].
Qed.

Lemma priority_number_round_trip_witness :
  (5 < 0 \/ 4 < 5)%Z
  /\ LinearAdapter.priorityToNumber (LinearAdapter.numberToPriority 5) = 3%Z.
Proof.
  assert (H : (5 < 0 \/ 4 < 5)%Z) by (right; lia).
  split; [exact H|].
  exact (proj2 (proj2 (proj2 priority_number_round_trip)) 5%Z H).
Defined.

End AnalyzerProperties.
